(** * The dining philosophers of [philo], thread by thread

    A shallow embedding of the C sources ([srcs/*.c], [include/philo.h]).
    Every C function becomes a computation in the monad [M]: it runs on
    behalf of one thread, reads and writes the shared [t_table], and
    records the system calls it makes ([pthread_mutex_lock], [printf],
    [write], ...) as a list of [event]s.

    What the rest of the machine does is an [environment]: the wall clock,
    the return values of the system calls that can fail, and what the
    other threads did to the data a mutex guards by the time this thread
    acquires that mutex.  Every shared mutable field of the program is only
    accessed with its mutex held ([end_flag] under [end_padlock], the
    philosophers' [meal_count] and [last_meal] under [eat_padlock]), so the
    acquisition is the only point where a change made by another thread can
    become visible.

    Loops that C leaves unbounded take a [fuel] argument; a loop that
    is still turning when the fuel is spent yields the outcome [Running],
    together with everything that happened so far. *)

From Stdlib Require Import ZArith List String Ascii Lia Bool.
From stdpp Require Import base list.
Import ListNotations.
Open Scope Z_scope.

(** ** Data model ([include/philo.h]) *)

(** [t_philo].  The [thread] handle and the [table] back pointer are left
    out: there is one table, and a thread is named by the index of its
    philosopher.  The integer fields are C [int]s and [long long]s; they
    are kept as unbounded integers, no computation of the program comes
    near their limits. *)
Record t_philo : Type := mk_philo {
  id : Z;
  meal_count : Z;
  left_fork : Z;
  right_fork : Z;
  last_meal : Z
}.

(** [t_table].  The mutexes themselves carry no data of their own here:
    what happens to them is read off the events.  The field [meal_count]
    of the C table (never accessed by the program) is [table_meal_count],
    since [t_philo] already has a field of that name. *)
Record t_table : Type := mk_table {
  philosopher_count : Z;
  time_to_die : Z;
  time_to_eat : Z;
  time_to_sleep : Z;
  start_time : Z;
  must_eat_count : Z;
  table_meal_count : Z;
  is_full : Z;
  end_flag : Z;
  philo : list t_philo
}.

(** The four kinds of [pthread_mutex_t] of the table. *)
Inductive mutex : Type :=
| fork_padlock (i : Z)
| print_padlock
| eat_padlock
| end_padlock.

Definition MAX_PHILO : Z := 200.
Definition TAKE : string := "has taken a fork".
Definition EAT : string := "is eating".
Definition SLEEP : string := "is sleeping".
Definition THINK : string := "is thinking".
Definition DIE : string := "died".
Definition END : string := "e".
Definition END_MSG : string := "All philosophers ate enough!".

Definition INT_MAX : Z := 2147483647.
Definition EXIT_SUCCESS : Z := 0.
Definition EXIT_FAILURE : Z := 1.
Definition EINTR : Z := 4.

(** A [t_philo *] is the index of the philosopher in [table->philo]. *)
Abbreviation philo_ptr := nat (only parsing).

Definition garbage : t_philo := mk_philo 0 0 0 0 0.

Definition deref (p : philo_ptr) (t : t_table) : t_philo :=
  default garbage (philo t !! p).

Definition set_philo (p : philo_ptr) (f : t_philo -> t_philo) (t : t_table)
  : t_table :=
  mk_table (philosopher_count t) (time_to_die t) (time_to_eat t)
    (time_to_sleep t) (start_time t) (must_eat_count t) (table_meal_count t)
    (is_full t) (end_flag t) (<[ p := f (deref p t) ]> (philo t)).

Definition set_meal_count (v : Z) (q : t_philo) : t_philo :=
  mk_philo (id q) v (left_fork q) (right_fork q) (last_meal q).
Definition set_last_meal (v : Z) (q : t_philo) : t_philo :=
  mk_philo (id q) (meal_count q) (left_fork q) (right_fork q) v.
Definition set_id (v : Z) (q : t_philo) : t_philo :=
  mk_philo v (meal_count q) (left_fork q) (right_fork q) (last_meal q).
Definition set_left_fork (v : Z) (q : t_philo) : t_philo :=
  mk_philo (id q) (meal_count q) v (right_fork q) (last_meal q).
Definition set_right_fork (v : Z) (q : t_philo) : t_philo :=
  mk_philo (id q) (meal_count q) (left_fork q) v (last_meal q).

Definition set_is_full (v : Z) (t : t_table) : t_table :=
  mk_table (philosopher_count t) (time_to_die t) (time_to_eat t)
    (time_to_sleep t) (start_time t) (must_eat_count t) (table_meal_count t)
    v (end_flag t) (philo t).
Definition set_end_flag (v : Z) (t : t_table) : t_table :=
  mk_table (philosopher_count t) (time_to_die t) (time_to_eat t)
    (time_to_sleep t) (start_time t) (must_eat_count t) (table_meal_count t)
    (is_full t) v (philo t).
Definition set_start_time (v : Z) (t : t_table) : t_table :=
  mk_table (philosopher_count t) (time_to_die t) (time_to_eat t)
    (time_to_sleep t) v (must_eat_count t) (table_meal_count t)
    (is_full t) (end_flag t) (philo t).
Definition set_philo_array (l : list t_philo) (t : t_table) : t_table :=
  mk_table (philosopher_count t) (time_to_die t) (time_to_eat t)
    (time_to_sleep t) (start_time t) (must_eat_count t) (table_meal_count t)
    (is_full t) (end_flag t) l.

(** ** Events, environment and the monad *)

Record timeval : Type := mk_timeval { tv_sec : Z; tv_usec : Z }.

(** The system calls a thread makes, in the order it makes them.  The two
    [printf] calls of the program have two different format strings and
    are two events: [Log time id action] is
    [printf("%lld %d %s\n", time, id, action)] and [Say s] is
    [printf("%s\n", s)]. *)
Inductive event : Type :=
| Locked (m : mutex)
| Unlocked (m : mutex)
| MutexInit (m : mutex) (ret : Z)
| MutexDestroy (m : mutex)
| Log (time : Z) (id : Z) (action : string)
| Say (s : string)
| Wrote (fd : Z) (bytes : string)
| WriteFailed (fd : Z) (errno : Z)
| Slept (usec : Z)
| Created (p : philo_ptr) (ret : Z)
| Joined (p : philo_ptr)
| Malloc (ok : bool)
| Free.

(** What this thread cannot decide.  Calls are numbered per thread, from
    0: [k] is the number of system calls the thread made before.
    - [gettimeofday k]: the wall clock, were it read by call [k];
    - [flag_raised k]: another thread ran [is_dinner_over(_, true)] before
      call [k] acquired [end_padlock];
    - [meals_eaten k]: the meals other threads completed (philosopher,
      time of [get_current_time]) before call [k] acquired [eat_padlock];
    - [write_result k count]: return value and [errno] of [write] asked
      for [count] bytes;
    - the return values of [pthread_mutex_init], [pthread_create] and
      whether the two [malloc]s succeed. *)
Record environment : Type := mk_env {
  gettimeofday : nat -> timeval;
  flag_raised : nat -> bool;
  meals_eaten : nat -> list (philo_ptr * Z);
  write_result : nat -> Z -> Z * Z;
  mutex_init_result : mutex -> Z;
  pthread_create_result : philo_ptr -> Z;
  malloc_philo_ok : bool;
  malloc_forks_ok : bool
}.

(** The thread's view: the shared table and the number of system calls
    made so far. *)
Record world : Type := mk_world { table : t_table; calls : nat }.

Inductive outcome (A : Type) : Type :=
| Returned (a : A)
| Exited (status : Z)
| Running.
Arguments Returned {A} a.
Arguments Exited {A} status.
Arguments Running {A}.

Record result (A : Type) : Type := mk_result {
  emitted : list event;
  after : world;
  outcome_of : outcome A
}.
Arguments mk_result {A} emitted after outcome_of.
Arguments emitted {A} r.
Arguments after {A} r.
Arguments outcome_of {A} r.

Definition M (A : Type) : Type := world -> result A.

Definition ret {A} (a : A) : M A := fun w => mk_result [] w (Returned a).

Definition bind {A B} (c : M A) (f : A -> M B) : M B := fun w =>
  let r := c w in
  match outcome_of r with
  | Returned a =>
      let r' := f a (after r) in
      mk_result (emitted r ++ emitted r') (after r') (outcome_of r')
  | Exited s => mk_result (emitted r) (after r) (Exited s)
  | Running => mk_result (emitted r) (after r) Running
  end.

Notation "x <- c ;; k" := (bind c (fun x => k))
  (at level 100, c at next level, right associativity).
Notation "c ;; k" := (bind c (fun _ => k))
  (at level 100, right associativity).

(** [exit(status)]. *)
Definition exit {A} (status : Z) : M A := fun w =>
  mk_result [] w (Exited status).

(** The fuel of a loop is spent. *)
Definition spin {A} : M A := fun w => mk_result [] w Running.

(** Memory accesses. *)
Definition read {A} (f : t_table -> A) : M A := fun w =>
  mk_result [] w (Returned (f (table w))).
Definition write_table (f : t_table -> t_table) : M unit := fun w =>
  mk_result [] (mk_world (f (table w)) (calls w)) (Returned tt).

(** A system call that leaves the table alone. *)
Definition syscall {A} (e : event) (a : A) : M A := fun w =>
  mk_result [e] (mk_world (table w) (S (calls w))) (Returned a).

(** One completed meal of another philosopher, as [dinner_time] writes
    it: [meal_count++] and [last_meal = get_current_time()]. *)
Definition other_meal (t : t_table) (m : philo_ptr * Z) : t_table :=
  set_philo (fst m)
    (fun q => set_last_meal (snd m) (set_meal_count (meal_count q + 1) q)) t.

Section Thread.

Variable env : environment.

(** What the other threads changed in the data guarded by [m], seen when
    call [k] acquires [m]. *)
Definition interference (k : nat) (m : mutex) (t : t_table) : t_table :=
  match m with
  | end_padlock => if flag_raised env k then set_end_flag 1 t else t
  | eat_padlock => fold_left other_meal (meals_eaten env k) t
  | _ => t
  end.

Definition pthread_mutex_lock (m : mutex) : M unit := fun w =>
  mk_result [Locked m]
    (mk_world (interference (calls w) m (table w)) (S (calls w)))
    (Returned tt).

Definition pthread_mutex_unlock (m : mutex) : M unit :=
  syscall (Unlocked m) tt.

Definition pthread_mutex_init (m : mutex) : M Z :=
  syscall (MutexInit m (mutex_init_result env m)) (mutex_init_result env m).

Definition pthread_mutex_destroy (m : mutex) : M unit :=
  syscall (MutexDestroy m) tt.

Definition sys_gettimeofday : M timeval := fun w =>
  mk_result [] (mk_world (table w) (S (calls w)))
    (Returned (gettimeofday env (calls w))).

Definition usleep (usec : Z) : M unit := syscall (Slept usec) tt.

Definition printf_lld_d_s (time i : Z) (action : string) : M unit :=
  syscall (Log time i action) tt.

Definition printf_s (s : string) : M unit := syscall (Say s) tt.

(** [write(fd, buf, count)], [buf] being the [count] bytes offered. It
    returns the pair of its return value and [errno]. *)
Definition sys_write (fd : Z) (buf : string) : M (Z * Z) := fun w =>
  let r := write_result env (calls w) (Z.of_nat (String.length buf)) in
  mk_result
    [if fst r =? -1 then WriteFailed fd (snd r)
     else Wrote fd (substring 0 (Z.to_nat (fst r)) buf)]
    (mk_world (table w) (S (calls w))) (Returned r).

Definition pthread_create (p : philo_ptr) : M Z :=
  syscall (Created p (pthread_create_result env p))
    (pthread_create_result env p).

Definition pthread_join (p : philo_ptr) : M unit := syscall (Joined p) tt.

Definition malloc (ok : bool) : M bool := syscall (Malloc ok) ok.

Definition free : M unit := syscall Free tt.

(** ** [srcs/cooks.c] *)

Definition get_current_time : M Z :=
  timeval <- sys_gettimeofday ;;
  ret (tv_sec timeval * 1000 + Z.quot (tv_usec timeval) 1000).

(** The value of a [char]. On the digits, the only characters [ft_atoi]
    is given once [check_syntax] has passed, a signed and an unsigned
    [char] agree. *)
Definition char (c : ascii) : Z := Z.of_nat (nat_of_ascii c).

Definition ft_check_overflow (num : Z) (digit : ascii) : bool :=
  let cutoff := Z.quot INT_MAX 10 in
  (num >? cutoff)
  || ((num =? cutoff) && (char digit - char "0" >? Z.rem INT_MAX 10)).

(** The loop of [ft_atoi], [num] being its accumulator. *)
Fixpoint ft_atoi_from (num : Z) (str : string) : Z :=
  match str with
  | EmptyString => num
  | String c str' =>
      if ft_check_overflow num c then -1
      else ft_atoi_from (num * 10 + (char c - char "0")) str'
  end.

Definition ft_atoi (str : string) : Z := ft_atoi_from 0 str.

Definition ft_strlen (str : string) : Z := Z.of_nat (String.length str).

(** The loop of [ft_putstr_fd]. *)
Fixpoint ft_putstr_fd_from (fuel : nat) (fd : Z) (str : string)
    (total_written len : Z) : M Z :=
  match fuel with
  | O => spin
  | S fuel' =>
      if total_written <? len then
        r <- sys_write fd
               (substring (Z.to_nat total_written)
                  (Z.to_nat (len - total_written)) str) ;;
        if fst r =? -1 then
          if snd r =? EINTR then
            ft_putstr_fd_from fuel' fd str total_written len
          else exit EXIT_FAILURE
        else ft_putstr_fd_from fuel' fd str (total_written + fst r) len
      else ret total_written
  end.

(** [ft_putstr_fd]. Every caller passes a string literal, the [NULL]
    test of the C function is not modelled. *)
Definition ft_putstr_fd (fuel : nat) (fd : Z) (str : string) : M Z :=
  ft_putstr_fd_from fuel fd str 0 (ft_strlen str).

(** ** [srcs/receive_guests.c] *)

Definition nl : string := String (ascii_of_nat 10) EmptyString.

Definition check_value (fuel : nat) (value : Z) (i : Z) : M unit :=
  (if value =? -1 then
     ft_putstr_fd fuel 2 ("Error: integer overflow detected" ++ nl) ;;
     exit EXIT_FAILURE
   else ret tt) ;;
  (if (i =? 1) && ((value <=? 0) || (value >? MAX_PHILO)) then
     ft_putstr_fd fuel 2 "Error: <number_of_philosophers> " ;;
     ft_putstr_fd fuel 2 ("must be between 1 and 200" ++ nl) ;;
     exit EXIT_FAILURE
   else ret tt) ;;
  (if (i =? 5) && (value <=? 0) then
     ft_putstr_fd fuel 2
       "Error: <nbr_of_times_each_philosopher_must_eat> " ;;
     ft_putstr_fd fuel 2 ("must be an integer greater than 0" ++ nl) ;;
     exit EXIT_FAILURE
   else ret tt) ;;
  (if ((i >? 1) && (i <? 5)) && (value <? 1) then
     ft_putstr_fd fuel 2 "Error: " ;;
     ft_putstr_fd fuel 2 "<time_to_die> <time_to_eat> <time_to_sleep> " ;;
     ft_putstr_fd fuel 2 ("must be integers greater than 0" ++ nl) ;;
     exit EXIT_FAILURE
   else ret tt).

Fixpoint check_syntax (fuel : nat) (str : string) : M unit :=
  match str with
  | EmptyString => ret tt
  | String c str' =>
      if (char c <? char "0") || (char c >? char "9") then
        ft_putstr_fd fuel 2 "Wrong format: " ;;
        ft_putstr_fd fuel 2
          ("Arguments can only be positive integers" ++ nl) ;;
        exit EXIT_FAILURE
      else check_syntax fuel str'
  end.

(** [argv] is the list of the [argc] argument strings, [argv[0]] first. *)
Definition arg (argv : list string) (i : Z) : string :=
  default EmptyString (argv !! Z.to_nat i).

(** The loop of [validate_arguments]. *)
Fixpoint validate_arguments_from (fuel : nat) (i : Z) (argc : Z)
    (argv : list string) : M unit :=
  match fuel with
  | O => spin
  | S fuel' =>
      if i <? argc then
        check_syntax fuel (arg argv i) ;;
        let value := ft_atoi (arg argv i) in
        check_value fuel value i ;;
        validate_arguments_from fuel' (i + 1) argc argv
      else ret tt
  end.

Definition validate_arguments (fuel : nat) (argc : Z) (argv : list string)
  : M unit :=
  validate_arguments_from fuel 1 argc argv.

Definition validate_argument_count (fuel : nat) (argc : Z) : M unit :=
  if (argc <? 5) || (argc >? 6) then
    ft_putstr_fd fuel 2 ("Wrong format" ++ nl) ;;
    ft_putstr_fd fuel 2 "Usage: " ;;
    ft_putstr_fd fuel 2 "./philo <number_of_philosophers> " ;;
    ft_putstr_fd fuel 2
      ("<time_to_die> <time_to_eat> <time_to_sleep>" ++ nl) ;;
    ft_putstr_fd fuel 2
      (" (Opt : <nbr_of_times_each_philosopher_must_eat>)" ++ nl) ;;
    exit EXIT_FAILURE
  else ret tt.

Definition receive_guests (fuel : nat) (argc : Z) (argv : list string)
  : M unit :=
  validate_argument_count fuel argc ;;
  validate_arguments fuel argc argv.

(** ** [srcs/waiters.c] *)

(** [is_dinner_over]: with [end_] it raises the flag, without it reads
    it; either way under [end_padlock]. *)
Definition is_dinner_over (philo : philo_ptr) (end_ : bool) : M bool :=
  pthread_mutex_lock end_padlock ;;
  flag <- read end_flag ;;
  if end_ || negb (flag =? 0) then
    (if end_ then write_table (set_end_flag 1) else ret tt) ;;
    pthread_mutex_unlock end_padlock ;;
    ret true
  else
    pthread_mutex_unlock end_padlock ;;
    ret false.

(** The loop of [advance_time]; [&&] does not read the clock once the
    dinner is over. *)
Fixpoint advance_time_from (fuel : nat) (philo : philo_ptr)
    (start time_to : Z) : M unit :=
  match fuel with
  | O => spin
  | S fuel' =>
      over <- is_dinner_over philo false ;;
      if over then ret tt
      else
        now <- get_current_time ;;
        if now - start <? time_to then
          usleep 100 ;;
          advance_time_from fuel' philo start time_to
        else ret tt
  end.

Definition advance_time (fuel : nat) (philo : philo_ptr) (time_to : Z)
  : M unit :=
  start <- get_current_time ;;
  advance_time_from fuel philo start time_to.

(** [action[0] == 'e']. *)
Definition starts_with_e (action : string) : bool :=
  match action with
  | String c _ => char c =? char "e"
  | EmptyString => false
  end.

Definition print_action (philo : philo_ptr) (action : string) : M unit :=
  pthread_mutex_lock print_padlock ;;
  over <- is_dinner_over philo false ;;
  (if negb over then
     now <- get_current_time ;;
     start <- read start_time ;;
     let time := now - start in
     i <- read (fun t => id (deref philo t)) ;;
     printf_lld_d_s time i action
   else ret tt) ;;
  pthread_mutex_unlock print_padlock ;;
  if starts_with_e action then printf_s END_MSG else ret tt.

(** ** [srcs/dinner_routine.c] *)

Definition dinner_time (fuel : nat) (philo : philo_ptr) : M unit :=
  i <- read (fun t => id (deref philo t)) ;;
  (if Z.rem i 2 =? 0 then
     l <- read (fun t => left_fork (deref philo t)) ;;
     pthread_mutex_lock (fork_padlock l) ;;
     r <- read (fun t => right_fork (deref philo t)) ;;
     pthread_mutex_lock (fork_padlock r)
   else
     r <- read (fun t => right_fork (deref philo t)) ;;
     pthread_mutex_lock (fork_padlock r) ;;
     l <- read (fun t => left_fork (deref philo t)) ;;
     pthread_mutex_lock (fork_padlock l)) ;;
  print_action philo TAKE ;;
  print_action philo TAKE ;;
  print_action philo EAT ;;
  eat <- read time_to_eat ;;
  advance_time fuel philo eat ;;
  pthread_mutex_lock eat_padlock ;;
  write_table
    (set_philo philo (fun q => set_meal_count (meal_count q + 1) q)) ;;
  now <- get_current_time ;;
  write_table (set_philo philo (set_last_meal now)) ;;
  pthread_mutex_unlock eat_padlock ;;
  r <- read (fun t => right_fork (deref philo t)) ;;
  pthread_mutex_unlock (fork_padlock r) ;;
  l <- read (fun t => left_fork (deref philo t)) ;;
  pthread_mutex_unlock (fork_padlock l).

(** [lone_philosopher(table)] works on [&table->philo[0]]. *)
Definition lone_philosopher (fuel : nat) : M unit :=
  print_action 0%nat TAKE ;;
  die <- read time_to_die ;;
  advance_time fuel 0%nat die ;;
  print_action 0%nat DIE ;;
  is_dinner_over 0%nat true ;;
  ret tt.

(** The [while (true)] of [dinner_routine]; the value returned is the
    thread's [NULL]. *)
Fixpoint dinner_routine_from (fuel : nat) (philo : philo_ptr) : M Z :=
  match fuel with
  | O => spin
  | S fuel' =>
      n <- read philosopher_count ;;
      if n =? 1 then
        lone_philosopher fuel' ;;
        ret 0
      else
        over <- is_dinner_over philo false ;;
        if over then ret 0
        else
          print_action philo THINK ;;
          dinner_time fuel' philo ;;
          print_action philo SLEEP ;;
          sleep <- read time_to_sleep ;;
          advance_time fuel' philo sleep ;;
          n' <- read philosopher_count ;;
          (if negb (Z.rem n' 2 =? 0) then
             eat <- read time_to_eat ;;
             advance_time fuel' philo eat
           else ret tt) ;;
          dinner_routine_from fuel' philo
  end.

Definition dinner_routine (fuel : nat) (philo : philo_ptr) : M Z :=
  i <- read (fun t => id (deref philo t)) ;;
  (if Z.rem i 2 =? 0 then
     eat <- read time_to_eat ;;
     advance_time fuel philo (Z.quot eat 2)
   else ret tt) ;;
  dinner_routine_from fuel philo.

(** ** [srcs/dinner_monitor.c] *)

Definition clean_table : M unit :=
  free ;;
  free.

(** The loop of [unset_rules]; it is entered with [i] as it is before
    [++i]. *)
Fixpoint unset_rules_from (fuel : nat) (i : Z) : M unit :=
  match fuel with
  | O => spin
  | S fuel' =>
      let i := i + 1 in
      n <- read philosopher_count ;;
      if i <? n then
        pthread_mutex_destroy (fork_padlock i) ;;
        unset_rules_from fuel' i
      else ret tt
  end.

Definition unset_rules (fuel : nat) : M unit :=
  unset_rules_from fuel (-1) ;;
  pthread_mutex_destroy print_padlock ;;
  pthread_mutex_destroy eat_padlock ;;
  pthread_mutex_destroy end_padlock.

(** The loop of [end_dinner]. *)
Fixpoint end_dinner_from (fuel : nat) (i : Z) : M unit :=
  match fuel with
  | O => spin
  | S fuel' =>
      let i := i + 1 in
      n <- read philosopher_count ;;
      if i <? n then
        pthread_join (Z.to_nat i) ;;
        end_dinner_from fuel' i
      else ret tt
  end.

Definition end_dinner (fuel : nat) : M unit :=
  end_dinner_from fuel (-1) ;;
  unset_rules fuel ;;
  clean_table.

Definition is_someone_dead_or_full (philo : philo_ptr) : M bool :=
  pthread_mutex_lock eat_padlock ;;
  now <- get_current_time ;;
  last <- read (fun t => last_meal (deref philo t)) ;;
  die <- read time_to_die ;;
  if now - last >=? die then
    print_action philo DIE ;;
    is_dinner_over philo true ;;
    pthread_mutex_unlock eat_padlock ;;
    ret true
  else
    must <- read must_eat_count ;;
    meals <- read (fun t => meal_count (deref philo t)) ;;
    if (must >? 0) && (meals >=? must) then
      write_table (fun t => set_is_full (is_full t + 1) t) ;;
      full <- read is_full ;;
      n <- read philosopher_count ;;
      if full >=? n then
        is_dinner_over philo true ;;
        print_action philo END ;;
        pthread_mutex_unlock eat_padlock ;;
        ret true
      else
        pthread_mutex_unlock eat_padlock ;;
        ret false
    else
      pthread_mutex_unlock eat_padlock ;;
      ret false.

(** The inner loop of [dinner_monitor], one pass over the philosophers.
    It returns [continue_flag]. *)
Fixpoint dinner_monitor_pass (fuel : nat) (i : Z) (continue_flag : Z)
  : M Z :=
  match fuel with
  | O => spin
  | S fuel' =>
      let i := i + 1 in
      n <- read philosopher_count ;;
      if i <? n then
        if negb (continue_flag =? 0) then
          stop <- is_someone_dead_or_full (Z.to_nat i) ;;
          if stop then dinner_monitor_pass fuel' i 0
          else dinner_monitor_pass fuel' i continue_flag
        else dinner_monitor_pass fuel' i continue_flag
      else ret continue_flag
  end.

(** The outer loop of [dinner_monitor]. *)
Fixpoint dinner_monitor_from (fuel : nat) (continue_flag : Z) : M unit :=
  match fuel with
  | O => spin
  | S fuel' =>
      if negb (continue_flag =? 0) then
        write_table (set_is_full 0) ;;
        continue_flag' <- dinner_monitor_pass fuel' (-1) continue_flag ;;
        usleep 10 ;;
        dinner_monitor_from fuel' continue_flag'
      else ret tt
  end.

Definition dinner_monitor (fuel : nat) : M unit :=
  dinner_monitor_from fuel 1 ;;
  end_dinner fuel.

(** ** [srcs/set_rules.c] *)

Fixpoint unset_previous_forks_rules (fuel : nat) (count : Z) : M unit :=
  match fuel with
  | O => spin
  | S fuel' =>
      if count <? 0 then ret tt
      else
        pthread_mutex_destroy (fork_padlock count) ;;
        unset_previous_forks_rules fuel' (count - 1)
  end.

(** The loop of [set_forks_rules]. *)
Fixpoint set_forks_rules_from (fuel : nat) (i : Z) : M unit :=
  match fuel with
  | O => spin
  | S fuel' =>
      let i := i + 1 in
      n <- read philosopher_count ;;
      if i <? n then
        err <- pthread_mutex_init (fork_padlock i) ;;
        if negb (err =? 0) then
          ft_putstr_fd fuel 2 ("Error initializing fork mutex" ++ nl) ;;
          unset_previous_forks_rules fuel (i - 1) ;;
          pthread_mutex_destroy print_padlock ;;
          pthread_mutex_destroy eat_padlock ;;
          pthread_mutex_destroy end_padlock ;;
          exit EXIT_FAILURE
        else set_forks_rules_from fuel' i
      else ret tt
  end.

Definition set_forks_rules (fuel : nat) : M unit :=
  set_forks_rules_from fuel (-1).

Definition set_rules (fuel : nat) : M unit :=
  err <- pthread_mutex_init print_padlock ;;
  (if negb (err =? 0) then
     ft_putstr_fd fuel 2 ("Error initializing print_padlock" ++ nl) ;;
     exit EXIT_FAILURE
   else ret tt) ;;
  err <- pthread_mutex_init eat_padlock ;;
  (if negb (err =? 0) then
     ft_putstr_fd fuel 2 ("Error initializing print_padlock" ++ nl) ;;
     pthread_mutex_destroy print_padlock ;;
     exit EXIT_FAILURE
   else ret tt) ;;
  err <- pthread_mutex_init end_padlock ;;
  (if negb (err =? 0) then
     ft_putstr_fd fuel 2 ("Error initializing end_padlock" ++ nl) ;;
     pthread_mutex_destroy print_padlock ;;
     pthread_mutex_destroy eat_padlock ;;
     exit EXIT_FAILURE
   else ret tt) ;;
  set_forks_rules fuel.

(** ** [srcs/set_dinner.c] *)

(** The loop of [seat_philosophers_at_the_table]. *)
Fixpoint seat_philosophers_from (fuel : nat) (i : Z) : M unit :=
  match fuel with
  | O => spin
  | S fuel' =>
      let i := i + 1 in
      n <- read philosopher_count ;;
      if i <? n then
        err <- pthread_create (Z.to_nat i) ;;
        if negb (err =? 0) then
          ft_putstr_fd fuel 2 ("Couldn't seat the philosophers" ++ nl) ;;
          end_dinner fuel ;;
          exit EXIT_FAILURE
        else seat_philosophers_from fuel' i
      else ret tt
  end.

Definition seat_philosophers_at_the_table (fuel : nat) : M Z :=
  seat_philosophers_from fuel (-1) ;;
  ret 0.

(** The loop of [welcome_philosophers]. *)
Fixpoint welcome_philosophers_from (fuel : nat) (i : Z) : M unit :=
  match fuel with
  | O => spin
  | S fuel' =>
      let i := i + 1 in
      n <- read philosopher_count ;;
      if i <? n then
        let p := Z.to_nat i in
        write_table (set_philo p (set_id (i + 1))) ;;
        write_table (set_philo p (set_left_fork i)) ;;
        n' <- read philosopher_count ;;
        write_table (set_philo p (set_right_fork (Z.rem (i + 1) n'))) ;;
        write_table (set_philo p (set_meal_count 0)) ;;
        start <- read start_time ;;
        write_table (set_philo p (set_last_meal start)) ;;
        welcome_philosophers_from fuel' i
      else ret tt
  end.

(** [welcome_philosophers]. A successful [malloc] gives an array of
    [philosopher_count] philosophers of unspecified content, all fields of
    which the loop assigns. *)
Definition welcome_philosophers (fuel : nat) : M unit :=
  got_philo <- malloc (malloc_philo_ok env) ;;
  n <- read philosopher_count ;;
  (if got_philo then
     write_table (set_philo_array (replicate (Z.to_nat n) garbage))
   else ret tt) ;;
  got_forks <- malloc (malloc_forks_ok env) ;;
  (if negb got_philo || negb got_forks then
     ft_putstr_fd fuel 2 ("Couldn't get the philosophers or forks" ++ nl) ;;
     clean_table ;;
     exit EXIT_FAILURE
   else ret tt) ;;
  now <- get_current_time ;;
  write_table (set_start_time now) ;;
  welcome_philosophers_from fuel (-1).

Definition set_table (argc : Z) (argv : list string) : M unit :=
  write_table (fun t =>
    mk_table (ft_atoi (arg argv 1)) (ft_atoi (arg argv 2))
      (ft_atoi (arg argv 3)) (ft_atoi (arg argv 4)) (start_time t)
      (if argc =? 6 then ft_atoi (arg argv 5) else -1)
      (table_meal_count t) (is_full t) 0 (philo t)).

(** ** [srcs/main.c] *)

Definition main (fuel : nat) (argc : Z) (argv : list string) : M Z :=
  receive_guests fuel argc argv ;;
  set_table argc argv ;;
  welcome_philosophers fuel ;;
  set_rules fuel ;;
  seat_philosophers_at_the_table fuel ;;
  dinner_monitor fuel ;;
  ret EXIT_SUCCESS.

End Thread.

(** * Vocabulary of the properties *)

(** ** Arguments *)

Definition is_digit (c : ascii) : bool :=
  negb ((char c <? char "0") || (char c >? char "9")).

Fixpoint digits_only (s : string) : bool :=
  match s with
  | EmptyString => true
  | String c s' => is_digit c && digits_only s'
  end.

(** The number a string of decimal digits denotes, most significant digit
    first; [decimal_value_from v s] is the number denoted by the digits of
    [v] followed by [s]. *)
Fixpoint decimal_value_from (v : Z) (s : string) : Z :=
  match s with
  | EmptyString => v
  | String c s' => decimal_value_from (10 * v + (char c - 48)) s'
  end.

Definition decimal_value (s : string) : Z := decimal_value_from 0 s.

(** [write] takes every byte it is offered. *)
Definition cooperative (env : environment) : Prop :=
  forall k n, write_result env k n = (n, 0).

(** The argument at position [i] gets through [check_syntax] and
    [check_value]. *)
Definition passes (i : Z) (s : string) : bool :=
  let value := ft_atoi s in
  digits_only s
  && negb (value =? -1)
  && negb ((i =? 1) && ((value <=? 0) || (value >? MAX_PHILO)))
  && negb ((i =? 5) && (value <=? 0))
  && negb (((i >? 1) && (i <? 5)) && (value <? 1)).

(** What the program writes to the standard error on an overflow, on a
    value out of range at position [i], and on a character that is not a
    digit. *)
Definition overflow_message : list event :=
  [Wrote 2 ("Error: integer overflow detected" ++ nl)].

Definition range_message (i : Z) : list event :=
  if i =? 1 then
    [Wrote 2 "Error: <number_of_philosophers> ";
     Wrote 2 ("must be between 1 and 200" ++ nl)]
  else if i =? 5 then
    [Wrote 2 "Error: <nbr_of_times_each_philosopher_must_eat> ";
     Wrote 2 ("must be an integer greater than 0" ++ nl)]
  else
    [Wrote 2 "Error: ";
     Wrote 2 "<time_to_die> <time_to_eat> <time_to_sleep> ";
     Wrote 2 ("must be integers greater than 0" ++ nl)].

Definition syntax_message : list event :=
  [Wrote 2 "Wrong format: ";
   Wrote 2 ("Arguments can only be positive integers" ++ nl)].

(** The clock in milliseconds, as [get_current_time] computes it, were it
    read by call [k]. *)
Definition clock_ms (env : environment) (k : nat) : Z :=
  tv_sec (gettimeofday env k) * 1000
  + Z.quot (tv_usec (gettimeofday env k)) 1000.

(** The flag as this thread finds it when call [k] takes [end_padlock]. *)
Definition flag_seen (env : environment) (k : nat) (t : t_table) : t_table :=
  interference env k end_padlock t.


(** ** The monitor's check *)

(** The table as the monitor finds it when call [k] takes [eat_padlock]:
    the meals the philosophers completed meanwhile are in. *)
Definition meals_seen (env : environment) (k : nat) (t : t_table) : t_table :=
  interference env k eat_padlock t.

(** [is_someone_dead_or_full(philo)] entered in [w] finds the philosopher
    starved: its clock reading is [time_to_die] or more past [last_meal]. *)
Definition starved (env : environment) (p : philo_ptr) (w : world) : bool :=
  let t := meals_seen env (calls w) (table w) in
  clock_ms env (S (calls w)) - last_meal (deref p t) >=? time_to_die t.

(** It finds the philosopher fed: a quota is set and reached. *)
Definition fed (env : environment) (p : philo_ptr) (w : world) : bool :=
  let t := meals_seen env (calls w) (table w) in
  (must_eat_count t >? 0) && (meal_count (deref p t) >=? must_eat_count t).

(** And with this philosopher counted, [is_full] reaches
    [philosopher_count]. *)
Definition all_fed (env : environment) (w : world) : bool :=
  let t := meals_seen env (calls w) (table w) in
  is_full t + 1 >=? philosopher_count t.

(** ** What a run shows *)

(** The lines [printf("%lld %d %s\n", ...)] printed, and the strings
    [printf("%s\n", ...)] printed. *)
Definition logged (es : list event) : list (Z * Z * string) :=
  flat_map (fun e => match e with
                     | Log time i action => [(time, i, action)]
                     | _ => []
                     end) es.

Definition said (es : list event) : list string :=
  flat_map (fun e => match e with Say s => [s] | _ => [] end) es.

(** What no thread changes once the threads run: the parameters of the
    dinner and who sits where. *)
Definition setting (t : t_table) : Z * Z * Z * Z * Z * Z :=
  (philosopher_count t, time_to_die t, time_to_eat t, time_to_sleep t,
   start_time t, must_eat_count t).

Definition seats (t : t_table) : list (Z * Z * Z) :=
  map (fun q => (id q, left_fork q, right_fork q)) (philo t).

(** ** Announcing the end *)

(** The reading of C4 that fails: in a run in which the quota ends the
    dinner (the notice is printed), the line of the marker END is printed
    with its time stamp. *)
Definition completion_line_printed (es : list event) : Prop :=
  In END_MSG (said es) -> exists time i, In (time, i, END) (logged es).

(** ** Forks *)

(** The forks a run locked and the forks it unlocked, in order. *)
Definition forks_locked (es : list event) : list Z :=
  flat_map (fun e => match e with
                     | Locked (fork_padlock i) => [i]
                     | _ => []
                     end) es.

Definition forks_unlocked (es : list event) : list Z :=
  flat_map (fun e => match e with
                     | Unlocked (fork_padlock i) => [i]
                     | _ => []
                     end) es.

(** The order of C1: left then right on an even id, right then left on
    an odd one. *)
Definition acquisition_order (q : t_philo) : list Z :=
  if Z.even (id q) then [left_fork q; right_fork q]
  else [right_fork q; left_fork q].

Definition returned {A} (r : result A) : bool :=
  match outcome_of r with
  | Returned _ => true
  | _ => false
  end.

(** A computation that touches no fork and leaves the setting and the
    seats as they are. *)
Definition quiet {A} (c : M A) : Prop :=
  forall w,
    forks_locked (emitted (c w)) = []
    /\ forks_unlocked (emitted (c w)) = []
    /\ setting (table (after (c w))) = setting (table w)
    /\ seats (table (after (c w))) = seats (table w).

(** A computation that, entered with philosopher [p] seated as [s] (id,
    left fork, right fork), locks no fork and has unlocked the right fork
    and then the left one when it returns, none before. *)
Definition releases {A} (p : philo_ptr) (s : Z * Z * Z) (c : M A) : Prop :=
  forall w,
    (id (deref p (table w)), left_fork (deref p (table w)),
     right_fork (deref p (table w))) = s ->
    forks_locked (emitted (c w)) = []
    /\ forks_unlocked (emitted (c w)) =
         (if returned (c w) then [snd s; snd (fst s)] else [])
    /\ setting (table (after (c w))) = setting (table w)
    /\ seats (table (after (c w))) = seats (table w).

(** A computation that, entered with philosopher [p] due to take the
    forks in the order [o], locks forks in that order, over and over. *)
Definition cycles {A} (p : philo_ptr) (o : list Z) (c : M A) : Prop :=
  forall w,
    acquisition_order (deref p (table w)) = o ->
    exists n, forks_locked (emitted (c w)) = concat (replicate n o).

(** ** Termination *)

(** A computation that returns, having made at most [k] system calls. *)
Definition prompt {A} (k : nat) (c : M A) : Prop :=
  forall w, returned (c w) = true /\ (calls (after (c w)) <= k + calls w)%nat.

(** A computation that returns when entered with the setting [E] and at
    most [K] system calls made. *)
Definition finishes_by {A} (K : nat) (E : Z * Z * Z * Z * Z * Z) (c : M A)
  : Prop :=
  forall w, (calls w <= K)%nat -> setting (table w) = E ->
            returned (c w) = true.

(** A computation that leaves the setting as it is. *)
Definition steady {A} (c : M A) : Prop :=
  forall w, setting (table (after (c w))) = setting (table w).

(** ** The locks a thread holds *)

Definition mutex_eqb (m m' : mutex) : bool :=
  match m, m' with
  | fork_padlock i, fork_padlock j => i =? j
  | print_padlock, print_padlock => true
  | eat_padlock, eat_padlock => true
  | end_padlock, end_padlock => true
  | _, _ => false
  end.

(** The order in which the program nests its locks: forks, then
    [eat_padlock], then [print_padlock], then [end_padlock]. *)
Definition rank (m : mutex) : nat :=
  match m with
  | fork_padlock _ => 0
  | eat_padlock => 1
  | print_padlock => 2
  | end_padlock => 3
  end.

(** All the locks held are of a rank below [n]. *)
Definition below (n : nat) (held : list mutex) : bool :=
  forallb (fun m => (rank m <? n)%nat) held.

(** A thread that holds [held] may go for [m]: for a fork, if it holds
    nothing but one fork at most; for another lock, if all it holds is of
    a lower rank. *)
Definition may_lock (held : list mutex) (m : mutex) : bool :=
  match m with
  | fork_padlock _ => below 1 held && (List.length held <=? 1)%nat
  | _ => below (rank m) held
  end.

(** [held] without [m], if [m] is held. *)
Fixpoint give_back (m : mutex) (held : list mutex) : option (list mutex) :=
  match held with
  | [] => None
  | m' :: held' =>
      if mutex_eqb m m' then Some held'
      else match give_back m held' with
           | Some rest => Some (m' :: rest)
           | None => None
           end
  end.

(** The locks held after the events [es], by a thread that held [held]
    and keeps to the order; [None] if it does not: a lock taken out of
    order or a lock given back that is not held. *)
Fixpoint holds (held : list mutex) (es : list event) : option (list mutex) :=
  match es with
  | [] => Some held
  | Locked m :: es' =>
      if may_lock held m then holds (m :: held) es' else None
  | Unlocked m :: es' =>
      match give_back m held with
      | Some rest => holds rest es'
      | None => None
      end
  | _ :: es' => holds held es'
  end.

Definition seat (p : philo_ptr) (t : t_table) : Z * Z * Z :=
  (id (deref p t), left_fork (deref p t), right_fork (deref p t)).

(** Entered holding [h], with philosopher [p] seated as [s], the
    computation keeps to the order of the locks whatever its outcome, and
    holds [h'] if it returns; the seat is as it was. *)
Definition locks {A} (p : philo_ptr) (s : Z * Z * Z) (h : list mutex)
    (c : M A) (h' : list mutex) : Prop :=
  forall w,
    seat p (table w) = s ->
    (exists h1, holds h (emitted (c w)) = Some h1
                /\ (returned (c w) = true -> h1 = h'))
    /\ seat p (table (after (c w))) = s.

(** Every lock held could be taken on top of the locks held before it. *)
Fixpoint nested (held : list mutex) : bool :=
  match held with
  | [] => true
  | m :: held' => may_lock held' m && nested held'
  end.

(** ** Once the flag is up *)

(** Entered with the flag up, the computation prints no line and leaves
    the flag up. *)
Definition hushed {A} (c : M A) : Prop :=
  forall w, end_flag (table w) <> 0 ->
            logged (emitted (c w)) = []
            /\ end_flag (table (after (c w))) <> 0.

(** Entered with the flag up, it also returns, within [k] system calls
    and without locking a fork. *)
Definition winds_down {A} (k : nat) (c : M A) : Prop :=
  forall w, end_flag (table w) <> 0 ->
            returned (c w) = true
            /\ (calls (after (c w)) <= k + calls w)%nat
            /\ forks_locked (emitted (c w)) = []
            /\ logged (emitted (c w)) = []
            /\ end_flag (table (after (c w))) <> 0.

(** ** Mutexes initialised and destroyed *)

(** The indices [0 .. n-1], and the same from [n-1] down. *)
Definition upto (n : nat) : list Z := map Z.of_nat (seq 0 n).
Definition downfrom (n : nat) : list Z := rev (upto n).

(** The mutexes that are initialised after the events [es], [ms] being
    initialised before, the latest first; [None] if a mutex is initialised
    that is already, or one is destroyed that is not. *)
Fixpoint alive (ms : list mutex) (es : list event) : option (list mutex) :=
  match es with
  | [] => Some ms
  | MutexInit m ret :: es' =>
      if ret =? 0 then
        if existsb (mutex_eqb m) ms then None else alive (m :: ms) es'
      else alive ms es'
  | MutexDestroy m :: es' =>
      match give_back m ms with
      | Some rest => alive rest es'
      | None => None
      end
  | _ :: es' => alive ms es'
  end.

(** The table's mutexes, all initialised, in the order [set_rules] leaves
    them: the forks from the last to the first, then [end_padlock],
    [eat_padlock], [print_padlock]. *)
Definition all_mutexes (n : nat) : list mutex :=
  map fork_padlock (downfrom n) ++ [end_padlock; eat_padlock; print_padlock].

Definition fork_message : list event :=
  [Wrote 2 ("Error initializing fork mutex" ++ nl)].

(** Something was written on the standard error. *)
Definition complains (es : list event) : Prop :=
  exists s, In (Wrote 2 s) es.

(** ** The seats of the table *)

(** Philosopher number [i] (from 0) of [n], as [welcome_philosophers]
    seats it at the time [start]. *)
Definition seated (n : nat) (start : Z) (i : Z) : t_philo :=
  mk_philo (i + 1) 0 i (Z.rem (i + 1) (Z.of_nat n)) start.

Definition ring (n : nat) (start : Z) : list t_philo :=
  map (seated n start) (upto n).

(** ** What a computation may do *)

(** A computation all of whose events are of the kind [P], that leaves the
    setting as it is, and that calls [exit] only if [X] allows it. *)
Definition tame {A} (P : event -> bool) (X : bool) (c : M A) : Prop :=
  forall w,
    forallb P (emitted (c w)) = true
    /\ setting (table (after (c w))) = setting (table w)
    /\ (forall s, outcome_of (c w) = Exited s -> X = true).

(** The kinds of events: of [is_dinner_over], of [advance_time], of the
    monitor's loop, of the messages of the validation; and the events that
    neither initialise nor destroy a mutex. *)
Definition end_event (e : event) : bool :=
  match e with
  | Locked end_padlock | Unlocked end_padlock => true
  | _ => false
  end.

Definition advance_event (e : event) : bool :=
  match e with
  | Locked end_padlock | Unlocked end_padlock => true
  | Slept usec => usec =? 100
  | _ => false
  end.

Definition monitor_event (e : event) : bool :=
  match e with
  | Locked (fork_padlock _) | Unlocked (fork_padlock _) => false
  | Locked _ | Unlocked _ => true
  | Log _ _ _ | Say _ => true
  | Slept usec => usec =? 10
  | _ => false
  end.

Definition write_event (e : event) : bool :=
  match e with
  | Wrote fd _ | WriteFailed fd _ => fd =? 2
  | _ => false
  end.

Definition plain (e : event) : bool :=
  match e with
  | MutexInit _ _ | MutexDestroy _ => false
  | _ => true
  end.

(** ** Mutexes initialised and destroyed, over the whole run *)

(** The three mutexes of the table that are no fork, as [set_rules] leaves
    them. *)
Definition table_locks : list mutex :=
  [end_padlock; eat_padlock; print_padlock].

(** The forks [j .. n-1], the last first. *)
Definition forks_from (j n : nat) : list mutex :=
  map fork_padlock (rev (map Z.of_nat (seq j (n - j)))).

(** Entered at a table of [N] philosophers with the mutexes [ms]
    initialised, the computation leaves [ms'] initialised when it returns
    and none when it exits; it initialises none twice, destroys none that
    is not initialised, and the table is of [N] philosophers after it. *)
Definition tidy {A} (N : Z) (ms : list mutex) (c : M A) (ms' : list mutex)
  : Prop :=
  forall w, philosopher_count (table w) = N ->
    philosopher_count (table (after (c w))) = N
    /\ match outcome_of (c w) with
       | Returned _ => alive ms (emitted (c w)) = Some ms'
       | Exited _ => alive ms (emitted (c w)) = Some []
       | Running => True
       end.

(** ** What holds when a computation returns *)

(** Entered in a world where [pre] holds, the computation, if it returns
    [a], leaves a world where [post a] holds. *)
Definition hoare {A} (pre : world -> Prop) (c : M A)
    (post : A -> world -> Prop) : Prop :=
  forall w, pre w ->
    forall a, outcome_of (c w) = Returned a -> post a (after (c w)).

(** The end of the dinner is flagged. *)
Definition flag_up (w : world) : Prop := end_flag (table w) <> 0.

(** ** What a computation leaves as it is *)

(** The computation leaves [f] of the table as it is, whatever its
    outcome. *)
Definition preserves {A B} (f : t_table -> B) (c : M A) : Prop :=
  forall w, f (table (after (c w))) = f (table w).

(** ** The arguments *)

(** The positions [1 .. argc - 1] of the arguments. *)
Definition positions (argc : Z) : list Z :=
  map Z.of_nat (seq 1 (Z.to_nat argc - 1)).

(** There are four or five arguments and each gets through the checks of
    its position. *)
Definition acceptable (argc : Z) (argv : list string) : bool :=
  (5 <=? argc) && (argc <=? 6)
  && forallb (fun i => passes i (arg argv i)) (positions argc).

(** A table as the arguments may set it. *)
Definition well_set (argc : Z) (t : t_table) : Prop :=
  1 <= philosopher_count t <= MAX_PHILO
  /\ 1 <= time_to_die t <= INT_MAX
  /\ 1 <= time_to_eat t <= INT_MAX
  /\ 1 <= time_to_sleep t <= INT_MAX
  /\ (if argc =? 6 then 1 <= must_eat_count t <= INT_MAX
      else must_eat_count t = -1)
  /\ end_flag t = 0.

(** ** What is written *)

(** The bytes written on [fd], in order. *)
Fixpoint written (fd : Z) (es : list event) : string :=
  match es with
  | [] => EmptyString
  | Wrote fd' bytes :: es' =>
      if fd' =? fd then (bytes ++ written fd es')%string else written fd es'
  | _ :: es' => written fd es'
  end.

(** [write] returns -1 or the number of bytes it took, which is no more
    than it was offered. *)
Definition sane (env : environment) : Prop :=
  forall k n, 0 <= n ->
    fst (write_result env k n) = -1 \/ 0 <= fst (write_result env k n) <= n.

(** ** The end of the dinner *)

(** The system calls of [end_dinner] at a table of [n] philosophers: the
    threads are joined, the forks destroyed from the first, then the three
    other mutexes, and the two arrays freed. *)
Definition teardown (n : nat) : list event :=
  map Joined (seq 0 n)
  ++ map (fun i => MutexDestroy (fork_padlock i)) (upto n)
  ++ [MutexDestroy print_padlock; MutexDestroy eat_padlock;
      MutexDestroy end_padlock; Free; Free].

(** ** What the monitor announces *)

(** Nothing is printed. *)
Definition silent (es : list event) : Prop :=
  logged es = [] /\ said es = [].

(** Nothing is printed, or one line of a death, or the notice of the
    quota, once. *)
Definition one_announcement (es : list event) : Prop :=
  silent es
  \/ (exists time i, logged es = [(time, i, DIE)] /\ said es = [])
  \/ (logged es = [] /\ said es = [END_MSG]).

Definition teardown_event (e : event) : bool :=
  match e with
  | Joined _ | MutexDestroy _ | Free => true
  | _ => false
  end.

(** The checks of a run of the monitor: the times it took
    [eat_padlock]. *)
Definition checks (es : list event) : nat :=
  List.length (List.filter (fun e => match e with
                           | Locked eat_padlock => true
                           | _ => false
                           end) es).

(** ** Eating with both forks *)

(** [m] is among the locks held. *)
Definition holding (m : mutex) (held : list mutex) : bool :=
  existsb (mutex_eqb m) held.

(** Every line is printed while [print_padlock] is held, and a line of
    [EAT] while the forks [l] and [r] are held too; [held] are the locks
    held before the events [es]. *)
Fixpoint attended (l r : Z) (held : list mutex) (es : list event) : bool :=
  match es with
  | [] => true
  | Locked m :: es' => attended l r (m :: held) es'
  | Unlocked m :: es' =>
      match give_back m held with
      | Some rest => attended l r rest es'
      | None => false
      end
  | Log _ _ action :: es' =>
      holding print_padlock held
      && (negb (String.eqb action EAT)
          || (holding (fork_padlock l) held && holding (fork_padlock r) held))
      && attended l r held es'
  | _ :: es' => attended l r held es'
  end.

(** A computation that keeps to the order of the locks, as [locks] has
    it, and prints its lines attended. *)
Definition dines {A} (p : philo_ptr) (s : Z * Z * Z) (h : list mutex)
    (c : M A) (h' : list mutex) : Prop :=
  locks p s h c h'
  /\ forall w, seat p (table w) = s ->
               attended (snd (fst s)) (snd s) h (emitted (c w)) = true.

(** ** The whole run, when it succeeds *)

(** Entered in a world where [pre] holds, the computation, if it returns
    [a], has emitted events and left a world that [post a] accepts. *)
Definition traces {A} (pre : world -> Prop) (c : M A)
    (post : A -> list event -> world -> Prop) : Prop :=
  forall w, pre w ->
    forall a, outcome_of (c w) = Returned a ->
              post a (emitted (c w)) (after (c w)).

(** The table is of [N] philosophers. *)
Definition seats_for (N : Z) (w : world) : Prop :=
  philosopher_count (table w) = N.

(** The system calls of a successful [set_rules] and of a successful
    [seat_philosophers_at_the_table], at a table of [n] philosophers. *)
Definition rules_set (n : nat) : list event :=
  [MutexInit print_padlock 0; MutexInit eat_padlock 0;
   MutexInit end_padlock 0]
  ++ map (fun i => MutexInit (fork_padlock i) 0) (upto n).

Definition all_seated (n : nat) : list event :=
  map (fun i => Created i 0) (seq 0 n).

(** ** Sample inputs *)

(** A machine where nothing fails, no other thread interferes and the
    clock advances by one millisecond per system call. *)
Definition calm : environment :=
  mk_env (fun k => mk_timeval 0 (Z.of_nat k * 1000)) (fun _ => false)
    (fun _ => []) (fun _ n => (n, 0)) (fun _ => 0) (fun _ => 0) true true.

(** The table of [main] before [set_table]: an automatic variable, of
    unspecified content. *)
Definition blank : world := mk_world (mk_table 0 0 0 0 0 0 0 0 0 []) 0.

(** Two philosophers, one meal each to end the dinner. The monitor is
    scheduled 450 ms after the threads were created; by then the first
    philosopher has finished a meal at 200 ms and the second at 400 ms. *)
Definition two_one_meal : list string :=
  ["philo"; "2"; "800"; "200"; "200"; "1"]%string.

Definition after_one_round : environment :=
  mk_env
    (fun k => mk_timeval 0 (if (k <? 10)%nat then 0 else 450000))
    (fun _ => false)
    (fun k => if (k =? 10)%nat then [(0%nat, 200); (1%nat, 400)] else [])
    (fun _ n => (n, 0)) (fun _ => 0) (fun _ => 0) true true.

(** Two philosophers who have not eaten since the start, seen by a thread
    that has made 200 system calls: under [calm] it is 200 ms past the
    start, [time_to_die] is 100 ms. *)
Definition starving : world :=
  mk_world
    (mk_table 2 100 200 200 0 (-1) 0 0 0
       [mk_philo 1 0 0 1 0; mk_philo 2 0 1 0 0])
    200.

(** Two philosophers who have eaten their one meal, the first of them
    counted already. *)
Definition sated : world :=
  mk_world
    (mk_table 2 800 200 200 0 1 0 1 0
       [mk_philo 1 1 0 1 200; mk_philo 2 1 1 0 400])
    450.

(** Two philosophers seated by [welcome_philosophers], short times:
    [time_to_die] 100 ms, [time_to_eat] and [time_to_sleep] 8 ms. *)
Definition two_seated : world :=
  mk_world
    (mk_table 2 100 8 8 0 (-1) 0 0 0
       [mk_philo 1 0 0 1 0; mk_philo 2 0 1 0 0])
    0.

(** The two philosophers of [two_seated], the flag up. *)
Definition two_dismissed : world :=
  mk_world (set_end_flag 1 (table two_seated)) 0.

(** A machine like [calm], but where initialising the third fork fails
    (with [EAGAIN]). *)
Definition third_fork_fails : environment :=
  mk_env (fun k => mk_timeval 0 (Z.of_nat k * 1000)) (fun _ => false)
    (fun _ => []) (fun _ n => (n, 0))
    (fun m => match m with fork_padlock 2 => 11 | _ => 0 end)
    (fun _ => 0) true true.

(** The table of four philosophers that [welcome_philosophers] hands to
    [set_rules]; the philosophers are not seated yet. *)
Definition four_welcomed : world :=
  mk_world (mk_table 4 800 200 200 0 (-1) 0 0 0 []) 2.

(** A machine like [calm], but out of memory at the second [malloc]. *)
Definition out_of_memory : environment :=
  mk_env (fun k => mk_timeval 0 (Z.of_nat k * 1000)) (fun _ => false)
    (fun _ => []) (fun _ n => (n, 0)) (fun _ => 0) (fun _ => 0) true false.

(** The table of three philosophers that [set_table] hands to
    [welcome_philosophers]. *)
Definition three_expected : world :=
  mk_world (mk_table 3 800 200 200 0 (-1) 0 0 0 []) 0.

(** A philosopher waiting 8 ms on the machine [calm], entered after 5
    system calls. *)
Definition two_waiting : world := mk_world (table two_seated) 5.

(** A philosopher alone at the table, [time_to_die] 8 ms. *)
Definition one_seated : world :=
  mk_world (mk_table 1 8 200 200 0 (-1) 0 0 0 [mk_philo 1 0 0 0 0]) 0.

(** Two philosophers, the flag up already, seen after 5 system calls. *)
Definition two_leaving : world :=
  mk_world (set_end_flag 1 (table two_seated)) 5.

(** Four arguments, the third of which is no number. *)
Definition two_x00 : list string :=
  ["philo"; "2"; "800"; "x00"; "200"]%string.

(** A machine like [calm], but where the first [write] is interrupted and
    the others take three bytes at most. *)
Definition choppy : environment :=
  mk_env (fun k => mk_timeval 0 (Z.of_nat k * 1000)) (fun _ => false)
    (fun _ => [])
    (fun k n => if (k =? 0)%nat then (-1, EINTR) else (Z.min n 3, 0))
    (fun _ => 0) (fun _ => 0) true true.

(** A machine like [calm], but where the thread of the second philosopher
    cannot be created. *)
Definition second_thread_fails : environment :=
  mk_env (fun k => mk_timeval 0 (Z.of_nat k * 1000)) (fun _ => false)
    (fun _ => []) (fun _ n => (n, 0)) (fun _ => 0)
    (fun p => if (p =? 1)%nat then 11 else 0) true true.

(** Three philosophers seated, the mutexes initialised: the table
    [set_rules] hands to [seat_philosophers_at_the_table]. *)
Definition three_seated : world :=
  mk_world (mk_table 3 800 200 200 2 (-1) 0 0 0 (ring 3 2)) 9.

(** Two philosophers who have eaten their one meal, none counted yet. *)
Definition both_fed : world :=
  mk_world
    (mk_table 2 800 200 200 0 1 0 0 0
       [mk_philo 1 1 0 1 200; mk_philo 2 1 1 0 400])
    450.

(** * Properties *)

(** ** Running computations *)

Lemma bind_returned {A B} (c : M A) (f : A -> M B) w a :
  outcome_of (c w) = Returned a ->
  bind c f w =
    mk_result (emitted (c w) ++ emitted (f a (after (c w))))
      (after (f a (after (c w)))) (outcome_of (f a (after (c w)))).
Proof. intros H. unfold bind. rewrite H. reflexivity. Qed.

Lemma bind_exited {A B} (c : M A) (f : A -> M B) w s :
  outcome_of (c w) = Exited s ->
  bind c f w = mk_result (emitted (c w)) (after (c w)) (Exited s).
Proof. intros H. unfold bind. rewrite H. reflexivity. Qed.

Lemma bind_running {A B} (c : M A) (f : A -> M B) w :
  outcome_of (c w) = Running ->
  bind c f w = mk_result (emitted (c w)) (after (c w)) Running.
Proof. intros H. unfold bind. rewrite H. reflexivity. Qed.

(** Runs are put together from the runs of their parts. *)
Lemma run_bind {A B} (c : M A) (f : A -> M B) w es1 w1 a es2 w2 o :
  c w = mk_result es1 w1 (Returned a) ->
  f a w1 = mk_result es2 w2 o ->
  bind c f w = mk_result (es1 ++ es2) w2 o.
Proof.
  intros H1 H2. unfold bind. rewrite H1. cbn [outcome_of after emitted].
  now rewrite H2.
Qed.

Lemma run_bind_exit {A B} (c : M A) (f : A -> M B) w es1 w1 s :
  c w = mk_result es1 w1 (Exited s) ->
  bind c f w = mk_result es1 w1 (Exited s).
Proof. intros H1. unfold bind. now rewrite H1. Qed.

Lemma run_bind_running {A B} (c : M A) (f : A -> M B) w es1 w1 :
  c w = mk_result es1 w1 Running ->
  bind c f w = mk_result es1 w1 Running.
Proof. intros H1. unfold bind. now rewrite H1. Qed.

Lemma result_eta {A} (r : result A) :
  r = mk_result (emitted r) (after r) (outcome_of r).
Proof. now destruct r. Qed.

Lemma run_bind_then {A B} (c : M A) (f : A -> M B) w es1 w1 a :
  c w = mk_result es1 w1 (Returned a) ->
  bind c f w =
    mk_result (es1 ++ emitted (f a w1)) (after (f a w1))
      (outcome_of (f a w1)).
Proof. intros H1. unfold bind. now rewrite H1. Qed.

Lemma lock_plain env m w :
  match m with end_padlock | eat_padlock => False | _ => True end ->
  pthread_mutex_lock env m w =
    mk_result [Locked m] (mk_world (table w) (S (calls w))) (Returned tt).
Proof. now destruct m. Qed.

Lemma lock_eat env w :
  pthread_mutex_lock env eat_padlock w =
    mk_result [Locked eat_padlock]
      (mk_world (meals_seen env (calls w) (table w)) (S (calls w)))
      (Returned tt).
Proof. reflexivity. Qed.

Lemma lock_end env w :
  pthread_mutex_lock env end_padlock w =
    mk_result [Locked end_padlock]
      (mk_world (flag_seen env (calls w) (table w)) (S (calls w)))
      (Returned tt).
Proof. reflexivity. Qed.

Lemma get_current_time_run env w :
  get_current_time env w =
    mk_result [] (mk_world (table w) (S (calls w)))
      (Returned (clock_ms env (calls w))).
Proof. reflexivity. Qed.

(** The booleans a run has decided are put in, projections of worlds are
    computed. *)
Ltac run_simpl :=
  cbv beta iota;
  cbn [table calls fst snd negb is_full end_flag philosopher_count
       set_is_full set_end_flag];
  repeat match goal with
         | H : ?b = true |- context [?b] => rewrite H
         | H : ?b = false |- context [?b] => rewrite H
         end;
  cbn [negb andb orb]; cbv beta iota.

(** The run of a function that has its own lemma; the lemmas register
    below. *)
Ltac run_known := fail.

Ltac run_leaf :=
  lazymatch goal with
  | |- pthread_mutex_lock _ print_padlock _ = _ => apply lock_plain; exact I
  | |- pthread_mutex_lock _ (fork_padlock _) _ = _ =>
      apply lock_plain; exact I
  | |- pthread_mutex_lock _ eat_padlock _ = _ => apply lock_eat
  | |- pthread_mutex_lock _ end_padlock _ = _ => apply lock_end
  | |- get_current_time _ _ = _ => apply get_current_time_run
  | |- (if _ then _ else _) _ = _ => fail "a branch is not decided"
  | |- _ => first [ run_known | reflexivity | apply result_eta ]
  end.

Ltac run_all :=
  run_simpl;
  lazymatch goal with
  | |- bind _ _ _ = _ =>
      first [ eapply run_bind; [ run_all | run_all ]
            | eapply run_bind_exit; run_all
            | eapply run_bind_running; run_all ]
  | |- _ => run_leaf
  end.

(** [run] proves [c w = r]: it runs [c] and compares. *)
Ltac run := etransitivity; [ run_all | run_simpl; try reflexivity ].

(** ** Parsing the arguments ([ft_atoi], [check_syntax], [check_value]) *)

Lemma is_digit_range c : is_digit c = true -> 0 <= char c - 48 <= 9.
Proof.
  unfold is_digit. change (char "0") with 48. change (char "9") with 57.
  intros H. apply negb_true_iff, orb_false_iff in H. lia.
Qed.

Lemma decimal_value_from_mono v s :
  0 <= v -> digits_only s = true -> v <= decimal_value_from v s.
Proof.
  revert v. induction s as [|c s IH]; intros v Hv Hs; simpl in *; [lia|].
  apply andb_true_iff in Hs as [Hc Hs]. apply is_digit_range in Hc.
  specialize (IH (10 * v + (char c - 48)) ltac:(lia) Hs). lia.
Qed.

Lemma ft_check_overflow_spec num c :
  is_digit c = true ->
  ft_check_overflow num c = (INT_MAX <? 10 * num + (char c - 48)).
Proof.
  intros Hc. apply is_digit_range in Hc. unfold ft_check_overflow.
  change (Z.quot INT_MAX 10) with 214748364.
  change (Z.rem INT_MAX 10) with 7. change (char "0") with 48.
  unfold INT_MAX.
  destruct (num >? 214748364) eqn:E1, (num =? 214748364) eqn:E2,
    (char c - 48 >? 7) eqn:E3, (2147483647 <? 10 * num + (char c - 48)) eqn:E4;
    simpl; try reflexivity; lia.
Qed.

Lemma ft_atoi_from_spec s : forall num,
  0 <= num <= INT_MAX -> digits_only s = true ->
  ft_atoi_from num s =
    if INT_MAX <? decimal_value_from num s then -1
    else decimal_value_from num s.
Proof.
  induction s as [|c s IH]; intros num Hnum Hs; simpl in *.
  - destruct (INT_MAX <? num) eqn:E; [lia | reflexivity].
  - apply andb_true_iff in Hs as [Hc Hs].
    rewrite ft_check_overflow_spec by assumption.
    pose proof (is_digit_range c Hc) as Hd. change (char "0") with 48.
    destruct (INT_MAX <? 10 * num + (char c - 48)) eqn:E.
    + pose proof (decimal_value_from_mono (10 * num + (char c - 48)) s
                    ltac:(lia) Hs).
      destruct (INT_MAX <? decimal_value_from (10 * num + (char c - 48)) s)
        eqn:E'; [reflexivity | lia].
    + replace (num * 10) with (10 * num) by lia. apply IH; [lia | assumption].
Qed.

Lemma substring_all s : substring 0 (String.length s) s = s.
Proof. induction s as [|c s IH]; simpl; [reflexivity | now rewrite IH]. Qed.

Lemma ft_putstr_fd_ok env fuel fd str w :
  cooperative env -> (2 <= fuel)%nat -> str <> EmptyString ->
  ft_putstr_fd env fuel fd str w =
    mk_result [Wrote fd str] (mk_world (table w) (S (calls w)))
      (Returned (ft_strlen str)).
Proof.
  intros Hco Hfuel Hne.
  destruct fuel as [|[|fuel]]; try lia.
  assert (Hlen : 0 < ft_strlen str).
  { unfold ft_strlen. destruct str; [congruence | simpl; lia]. }
  unfold ft_putstr_fd. cbn [ft_putstr_fd_from].
  destruct (0 <? ft_strlen str) eqn:E; [|lia].
  unfold bind at 1. unfold sys_write at 1. cbn [outcome_of after emitted].
  replace (Z.to_nat (ft_strlen str - 0)) with (String.length str)
    by (unfold ft_strlen; lia).
  change (Z.to_nat 0) with 0%nat. rewrite substring_all, Hco.
  cbn [fst snd]. fold (ft_strlen str).
  destruct (ft_strlen str =? -1) eqn:E1; [lia|].
  destruct (0 + ft_strlen str <? ft_strlen str) eqn:E2; [lia|].
  unfold ret. cbn. rewrite !Hco. cbn [fst snd]. fold (ft_strlen str).
  rewrite E1. unfold ft_strlen. rewrite Nat2Z.id, substring_all.
  reflexivity.
Qed.

Ltac run_known ::=
  lazymatch goal with
  | |- ft_putstr_fd _ _ _ _ _ = _ =>
      apply ft_putstr_fd_ok; [assumption | lia | discriminate]
  end.

Lemma check_syntax_passes env fuel s w :
  digits_only s = true -> check_syntax env fuel s w = ret tt w.
Proof.
  induction s as [|c s IH]; simpl; intros H; [reflexivity|].
  apply andb_true_iff in H as [Hc Hs]. unfold is_digit in Hc.
  apply negb_true_iff in Hc. rewrite Hc. auto.
Qed.

Lemma check_value_passes env fuel i s w :
  passes i s = true -> check_value env fuel (ft_atoi s) i w = ret tt w.
Proof.
  unfold passes. cbv zeta. intros H.
  repeat (apply andb_true_iff in H as [H ?]).
  repeat match goal with
         | H : negb _ = true |- _ => apply negb_true_iff in H
         end.
  unfold check_value.
  repeat match goal with H : _ = false |- _ => rewrite H; clear H end.
  reflexivity.
Qed.

Lemma check_value_overflow env fuel i w :
  cooperative env -> (2 <= fuel)%nat ->
  check_value env fuel (-1) i w =
    mk_result overflow_message (mk_world (table w) (S (calls w)))
      (Exited EXIT_FAILURE).
Proof.
  intros Hco Hfuel. unfold check_value. change (-1 =? -1) with true.
  run.
Qed.

Lemma check_value_zero env fuel i w :
  cooperative env -> (2 <= fuel)%nat -> 1 <= i <= 5 ->
  check_value env fuel 0 i w =
    mk_result (range_message i)
      (mk_world (table w)
         (List.length (range_message i) + calls w)%nat)
      (Exited EXIT_FAILURE).
Proof.
  intros Hco Hfuel Hi.
  assert (Hcases : i = 1 \/ i = 2 \/ i = 3 \/ i = 4 \/ i = 5) by lia.
  destruct Hcases as [-> | [-> | [-> | [-> | ->]]]];
    unfold check_value;
    cbn [Z.eqb Z.leb Z.gtb Z.ltb Z.compare andb orb Pos.compare
         Pos.compare_cont Pos.eqb];
    run.
Qed.

Lemma validate_arguments_from_stops env argc argv evs w' s :
  forall n fuel i w,
    (n + 2 <= fuel)%nat -> i + Z.of_nat n < argc ->
    (forall j, i <= j < i + Z.of_nat n -> passes j (arg argv j) = true) ->
    digits_only (arg argv (i + Z.of_nat n)) = true ->
    (forall f, (2 <= f)%nat ->
       check_value env f (ft_atoi (arg argv (i + Z.of_nat n)))
         (i + Z.of_nat n) w = mk_result evs w' (Exited s)) ->
    validate_arguments_from env fuel i argc argv w =
      mk_result evs w' (Exited s).
Proof.
  induction n as [|n IH]; intros fuel i w Hfuel Hk Hpass Hdig Hstop.
  - destruct fuel as [|fuel]; [lia|]. cbn [validate_arguments_from].
    replace (i + Z.of_nat 0) with i in * by lia.
    destruct (i <? argc) eqn:E; [|lia].
    cbv [bind]. rewrite check_syntax_passes by assumption.
    cbn [ret outcome_of after emitted].
    rewrite Hstop by lia. reflexivity.
  - destruct fuel as [|fuel]; [lia|]. cbn [validate_arguments_from].
    destruct (i <? argc) eqn:E; [|lia].
    assert (Hi : passes i (arg argv i) = true) by (apply Hpass; lia).
    cbv [bind].
    rewrite check_syntax_passes
      by (unfold passes in Hi; cbv zeta in Hi;
          repeat (apply andb_true_iff in Hi as [Hi ?]); assumption).
    cbn [ret outcome_of after emitted].
    rewrite check_value_passes by assumption.
    cbn [ret outcome_of after emitted app].
    replace (i + Z.of_nat (S n)) with (i + 1 + Z.of_nat n) in * by lia.
    rewrite (IH fuel (i + 1) w); try assumption; try lia.
    + reflexivity.
    + intros j Hj. apply Hpass. lia.
Qed.

Lemma main_stops_in_validation env fuel argc argv w k evs w' s :
  5 <= argc <= 6 -> 1 <= k < argc -> (Z.to_nat argc <= fuel)%nat ->
  (forall j, 1 <= j < k -> passes j (arg argv j) = true) ->
  digits_only (arg argv k) = true ->
  (forall f, (2 <= f)%nat ->
     check_value env f (ft_atoi (arg argv k)) k w =
       mk_result evs w' (Exited s)) ->
  main env fuel argc argv w = mk_result evs w' (Exited s).
Proof.
  intros Hargc Hk Hfuel Hpass Hdig Hstop.
  unfold main. rewrite bind_exited with (s := s).
  - unfold receive_guests, validate_argument_count, validate_arguments.
    destruct ((argc <? 5) || (argc >? 6)) eqn:E; [lia|].
    cbv [bind]. cbn [ret outcome_of after emitted].
    rewrite (validate_arguments_from_stops env argc argv evs w' s
               (Z.to_nat (k - 1)) fuel 1 w);
      rewrite ?Z2Nat.id by lia; replace (1 + (k - 1)) with k by lia;
      try assumption; try lia; reflexivity.
  - unfold receive_guests, validate_argument_count, validate_arguments.
    destruct ((argc <? 5) || (argc >? 6)) eqn:E; [lia|].
    cbv [bind]. cbn [ret outcome_of after emitted].
    rewrite (validate_arguments_from_stops env argc argv evs w' s
               (Z.to_nat (k - 1)) fuel 1 w);
      rewrite ?Z2Nat.id by lia; replace (1 + (k - 1)) with k by lia;
      try assumption; try lia; reflexivity.
Qed.

Lemma check_syntax_rejects env fuel s w :
  cooperative env -> (2 <= fuel)%nat -> digits_only s = false ->
  check_syntax env fuel s w =
    mk_result syntax_message (mk_world (table w) (S (S (calls w))))
      (Exited EXIT_FAILURE).
Proof.
  intros Hco Hfuel. induction s as [|c s IH]; simpl; intros H.
  - discriminate.
  - unfold is_digit in H.
    destruct ((char c <? char "0") || (char c >? char "9")) eqn:E.
    + cbv [bind].
      repeat (rewrite ft_putstr_fd_ok by (assumption || discriminate);
              cbn [outcome_of after emitted table calls ret exit]).
      reflexivity.
    + simpl in H. auto.
Qed.

(** C7. On a string of digits [ft_atoi] returns -1 exactly when the number
    denoted exceeds [INT_MAX], and the number itself otherwise. With such
    an overflowing string as argument [k], the arguments before it being
    in order, [check_value] writes the overflow message and calls
    [exit(EXIT_FAILURE)], and so ends [main]: nothing but the message was
    emitted and the table is as it was found. *)
Theorem ft_atoi_overflow_is_rejected env fuel argc argv w k s :
  digits_only s = true ->
  cooperative env ->
  5 <= argc <= 6 -> 1 <= k < argc -> (Z.to_nat argc <= fuel)%nat ->
  (forall j, 1 <= j < k -> passes j (arg argv j) = true) ->
  arg argv k = s ->
  (ft_atoi s = -1 <-> INT_MAX < decimal_value s)
  /\ (decimal_value s <= INT_MAX -> ft_atoi s = decimal_value s)
  /\ (INT_MAX < decimal_value s ->
      check_value env fuel (ft_atoi s) k w =
        mk_result overflow_message (mk_world (table w) (S (calls w)))
          (Exited EXIT_FAILURE)
      /\ main env fuel argc argv w =
           mk_result overflow_message (mk_world (table w) (S (calls w)))
             (Exited EXIT_FAILURE)
      /\ EXIT_FAILURE <> 0).
Proof.
  intros Hdig Hco Hargc Hk Hfuel Hpass Hs.
  assert (Hspec : ft_atoi s =
            if INT_MAX <? decimal_value s then -1 else decimal_value s).
  { apply ft_atoi_from_spec; [unfold INT_MAX; lia | assumption]. }
  assert (Hpos : 0 <= decimal_value s).
  { apply decimal_value_from_mono; [lia | assumption]. }
  split; [|split].
  - rewrite Hspec. destruct (INT_MAX <? decimal_value s) eqn:E; lia.
  - intros Hle. rewrite Hspec.
    destruct (INT_MAX <? decimal_value s) eqn:E; [lia | reflexivity].
  - intros Hgt.
    assert (Hv : ft_atoi s = -1).
    { rewrite Hspec. destruct (INT_MAX <? decimal_value s) eqn:E;
        [reflexivity | lia]. }
    rewrite Hv. split; [|split].
    + apply check_value_overflow; [assumption | lia].
    + apply main_stops_in_validation with (k := k); try assumption.
      * rewrite Hs. assumption.
      * intros f Hf. rewrite Hs, Hv. now apply check_value_overflow.
    + discriminate.
Qed.

Lemma ft_atoi_overflow_is_rejected_witness :
  ft_atoi "2147483648" = -1
  /\ main calm 6 5 ["philo"; "5"; "2147483648"; "200"; "200"]%string blank =
       mk_result overflow_message (mk_world (table blank) 1)
         (Exited EXIT_FAILURE).
Proof.
  pose proof (ft_atoi_overflow_is_rejected calm 6 5
                ["philo"; "5"; "2147483648"; "200"; "200"]%string blank 2
                "2147483648") as H.
  destruct H as (Hiff & _ & Hmain).
  - reflexivity.
  - intros k n. reflexivity.
  - lia.
  - lia.
  - simpl. lia.
  - intros j Hj. assert (j = 1) as -> by lia. reflexivity.
  - reflexivity.
  - split.
    + apply Hiff. reflexivity.
    + apply Hmain. reflexivity.
Defined.

(** C10. An empty argument at position [k], the arguments before it being
    in order: [check_syntax] lets it through without a word (it stops at
    the first character that is not a digit, and only there), [ft_atoi]
    makes it 0, and [check_value] refuses 0 at every position with the
    message of that position's range and [exit(EXIT_FAILURE)], which ends
    [main]; the message of [check_syntax] is not written. *)
Theorem empty_argument_is_out_of_range env fuel argc argv w k :
  cooperative env ->
  5 <= argc <= 6 -> 1 <= k < argc -> (Z.to_nat argc <= fuel)%nat ->
  (forall j, 1 <= j < k -> passes j (arg argv j) = true) ->
  arg argv k = EmptyString ->
  check_syntax env fuel EmptyString w = mk_result [] w (Returned tt)
  /\ (forall s w', outcome_of (check_syntax env fuel s w') =
        if digits_only s then Returned tt else Exited EXIT_FAILURE)
  /\ ft_atoi EmptyString = 0
  /\ check_value env fuel 0 k w =
       mk_result (range_message k)
         (mk_world (table w) (List.length (range_message k) + calls w))
         (Exited EXIT_FAILURE)
  /\ main env fuel argc argv w =
       mk_result (range_message k)
         (mk_world (table w) (List.length (range_message k) + calls w))
         (Exited EXIT_FAILURE)
  /\ (forall e, In e syntax_message -> ~ In e (range_message k))
  /\ EXIT_FAILURE <> 0.
Proof.
  intros Hco Hargc Hk Hfuel Hpass Hs.
  assert (Hf2 : (2 <= fuel)%nat) by lia.
  repeat split.
  - intros s w'. destruct (digits_only s) eqn:E.
    + now rewrite check_syntax_passes.
    + now rewrite check_syntax_rejects.
  - apply check_value_zero; [assumption | lia | lia].
  - apply main_stops_in_validation with (k := k); try assumption.
    + now rewrite Hs.
    + intros f Hf. rewrite Hs. apply check_value_zero; [assumption|lia|lia].
  - assert (Hcases : k = 1 \/ k = 2 \/ k = 3 \/ k = 4 \/ k = 5) by lia.
    intros e He Hin.
    destruct Hcases as [-> | [-> | [-> | [-> | ->]]]];
      repeat (destruct He as [<- | He]; [|]);
      try destruct He; simpl in Hin; intuition discriminate.
  - discriminate.
Qed.

Lemma empty_argument_is_out_of_range_witness :
  main calm 6 6 ["philo"; "5"; "800"; ""; "200"; "7"]%string blank =
    mk_result (range_message 3) (mk_world (table blank) 3)
      (Exited EXIT_FAILURE).
Proof.
  pose proof (empty_argument_is_out_of_range calm 6 6
                ["philo"; "5"; "800"; ""; "200"; "7"]%string blank 3) as H.
  destruct H as (_ & _ & _ & _ & Hmain & _).
  - intros k n. reflexivity.
  - lia.
  - lia.
  - simpl. lia.
  - intros j Hj. assert (j = 1 \/ j = 2) as [-> | ->] by lia; reflexivity.
  - reflexivity.
  - exact Hmain.
Defined.

(** ** The termination flag and the log ([is_dinner_over], [print_action]) *)

Lemma is_dinner_over_read env p w :
  is_dinner_over env p false w =
    mk_result [Locked end_padlock; Unlocked end_padlock]
      (mk_world (flag_seen env (calls w) (table w)) (S (S (calls w))))
      (Returned (negb (end_flag (flag_seen env (calls w) (table w)) =? 0))).
Proof.
  destruct (end_flag (flag_seen env (calls w) (table w)) =? 0) eqn:E;
    unfold is_dinner_over; run.
Qed.

Lemma is_dinner_over_raise env p w :
  is_dinner_over env p true w =
    mk_result [Locked end_padlock; Unlocked end_padlock]
      (mk_world (set_end_flag 1 (flag_seen env (calls w) (table w)))
         (S (S (calls w))))
      (Returned true).
Proof. reflexivity. Qed.

Ltac run_known ::=
  lazymatch goal with
  | |- ft_putstr_fd _ _ _ _ _ = _ =>
      apply ft_putstr_fd_ok; [assumption | lia | discriminate]
  | |- is_dinner_over _ _ false _ = _ => apply is_dinner_over_read
  | |- is_dinner_over _ _ true _ = _ => apply is_dinner_over_raise
  end.

Lemma print_action_run env p action w :
  print_action env p action w =
    let t := flag_seen env (S (calls w)) (table w) in
    let silent := negb (end_flag t =? 0) in
    mk_result
      ([Locked print_padlock; Locked end_padlock; Unlocked end_padlock]
       ++ (if silent then []
           else [Log (clock_ms env (3 + calls w) - start_time t)
                   (id (deref p t)) action])
       ++ [Unlocked print_padlock]
       ++ (if starts_with_e action then [Say END_MSG] else []))
      (mk_world t
         ((if starts_with_e action then 1 else 0)
          + ((if silent then 0 else 2) + (4 + calls w)))%nat)
      (Returned tt).
Proof.
  cbv zeta.
  destruct (end_flag (flag_seen env (S (calls w)) (table w)) =? 0) eqn:E;
    destruct (starts_with_e action) eqn:Ee; cbn [negb];
    unfold print_action; run.
Qed.

Lemma char_inj c c' : char c = char c' -> c = c'.
Proof.
  unfold char. intros H. apply Nat2Z.inj in H.
  rewrite <- (ascii_nat_embedding c), <- (ascii_nat_embedding c').
  now rewrite H.
Qed.

Lemma starts_with_e_spec action :
  starts_with_e action = true <-> exists rest, action = String "e" rest.
Proof.
  destruct action as [|c rest]; simpl.
  - split; [discriminate | intros [? ?]; discriminate].
  - split.
    + intros H. apply Z.eqb_eq, char_inj in H. subst. eauto.
    + intros [rest' H]. injection H as -> _. reflexivity.
Qed.

(** C9. [print_action] emits the notice exactly when the action starts
    with the character e, whatever the flag; it does so after it has
    released [print_padlock], also when the flag is up and the line of the
    action itself is left out. None of TAKE, EAT, SLEEP, THINK and DIE
    starts with e: with them no [printf("%s\n", ...)] is made. *)
Theorem print_action_notice_by_first_character env p action w :
  let r := print_action env p action w in
  let t := flag_seen env (S (calls w)) (table w) in
  (In (Say END_MSG) (emitted r) <-> exists rest, action = String "e" rest)
  /\ (forall rest, action = String "e" rest ->
      emitted r =
        [Locked print_padlock; Locked end_padlock; Unlocked end_padlock]
        ++ (if end_flag t =? 0
            then [Log (clock_ms env (3 + calls w) - start_time t)
                    (id (deref p t)) action]
            else [])
        ++ [Unlocked print_padlock; Say END_MSG])
  /\ (In action [TAKE; EAT; SLEEP; THINK; DIE] ->
      forall s, ~ In (Say s) (emitted r)).
Proof.
  cbv zeta. rewrite print_action_run. cbv zeta. cbn [emitted].
  split; [|split].
  - rewrite <- starts_with_e_spec.
    destruct (starts_with_e action);
      destruct (end_flag (flag_seen env (S (calls w)) (table w)) =? 0);
      simpl; split; intros H; try reflexivity; try discriminate;
      intuition discriminate.
  - intros rest Hrest.
    assert (He : starts_with_e action = true)
      by (apply starts_with_e_spec; eauto).
    rewrite He.
    destruct (end_flag (flag_seen env (S (calls w)) (table w)) =? 0);
      reflexivity.
  - intros Hin s.
    assert (He : starts_with_e action = false).
    { simpl in Hin.
      destruct Hin as [<- | [<- | [<- | [<- | [<- | []]]]]]; reflexivity. }
    rewrite He.
    destruct (end_flag (flag_seen env (S (calls w)) (table w)) =? 0);
      simpl; intuition discriminate.
Qed.

(** ** The monitor's check ([is_someone_dead_or_full]) *)

Lemma flag_seen_end_flag env k t :
  end_flag (flag_seen env k t) = if flag_raised env k then 1 else end_flag t.
Proof. unfold flag_seen, interference. now destruct (flag_raised env k). Qed.

Lemma flag_seen_raised env k t :
  end_flag (flag_seen env k (set_end_flag 1 t)) = 1.
Proof. rewrite flag_seen_end_flag. now destruct (flag_raised env k). Qed.

Ltac run_known ::=
  lazymatch goal with
  | |- ft_putstr_fd _ _ _ _ _ = _ =>
      apply ft_putstr_fd_ok; [assumption | lia | discriminate]
  | |- is_dinner_over _ _ false _ = _ => apply is_dinner_over_read
  | |- is_dinner_over _ _ true _ = _ => apply is_dinner_over_raise
  | |- print_action _ _ _ _ = _ => apply print_action_run
  end.

(** The philosopher is found starved: the line of DIE, if the flag is
    down, then the flag. *)
Lemma is_someone_dead_or_full_starved env p w :
  starved env p w = true ->
  is_someone_dead_or_full env p w =
    let t0 := meals_seen env (calls w) (table w) in
    let t1 := flag_seen env (3 + calls w) t0 in
    let silent := negb (end_flag t1 =? 0) in
    let k := ((if silent then 0 else 2) + (6 + calls w))%nat in
    mk_result
      ([Locked eat_padlock; Locked print_padlock; Locked end_padlock;
        Unlocked end_padlock]
       ++ (if silent then []
           else [Log (clock_ms env (5 + calls w) - start_time t1)
                   (id (deref p t1)) DIE])
       ++ [Unlocked print_padlock; Locked end_padlock; Unlocked end_padlock;
           Unlocked eat_padlock])
      (mk_world (set_end_flag 1 (flag_seen env k t1)) (3 + k))
      (Returned true).
Proof.
  unfold starved. cbv zeta. intros H. cbn [Nat.add].
  destruct (end_flag
              (flag_seen env (S (S (S (calls w))))
                 (meals_seen env (calls w) (table w))) =? 0) eqn:E;
    cbn [negb]; unfold is_someone_dead_or_full; run.
Qed.

(** The last philosopher is found fed: the flag first, then
    [print_action] with END, which finds the flag up. *)
Lemma is_someone_dead_or_full_all_fed env p w :
  starved env p w = false -> fed env p w = true -> all_fed env w = true ->
  is_someone_dead_or_full env p w =
    let t0 := meals_seen env (calls w) (table w) in
    let t1 := set_is_full (is_full t0 + 1) t0 in
    mk_result
      [Locked eat_padlock; Locked end_padlock; Unlocked end_padlock;
       Locked print_padlock; Locked end_padlock; Unlocked end_padlock;
       Unlocked print_padlock; Say END_MSG; Unlocked eat_padlock]
      (mk_world
         (flag_seen env (5 + calls w)
            (set_end_flag 1 (flag_seen env (2 + calls w) t1)))
         (10 + calls w))
      (Returned true).
Proof.
  unfold starved, fed, all_fed. cbv zeta. intros Hs Hf Ha.
  unfold is_someone_dead_or_full.
  etransitivity; [run_all|].
  run_simpl. rewrite flag_seen_raised. reflexivity.
Qed.

(** A philosopher is found fed, not the last one: it is counted. *)
Lemma is_someone_dead_or_full_fed env p w :
  starved env p w = false -> fed env p w = true -> all_fed env w = false ->
  is_someone_dead_or_full env p w =
    let t0 := meals_seen env (calls w) (table w) in
    mk_result [Locked eat_padlock; Unlocked eat_padlock]
      (mk_world (set_is_full (is_full t0 + 1) t0) (3 + calls w))
      (Returned false).
Proof.
  unfold starved, fed, all_fed. cbv zeta. intros Hs Hf Ha.
  unfold is_someone_dead_or_full. run.
Qed.

(** Neither starved nor fed: nothing changes. *)
Lemma is_someone_dead_or_full_hungry env p w :
  starved env p w = false -> fed env p w = false ->
  is_someone_dead_or_full env p w =
    mk_result [Locked eat_padlock; Unlocked eat_padlock]
      (mk_world (meals_seen env (calls w) (table w)) (3 + calls w))
      (Returned false).
Proof.
  unfold starved, fed. cbv zeta. intros Hs Hf.
  unfold is_someone_dead_or_full. run.
Qed.

(** ** What the other threads leave alone *)

Lemma set_philo_seats p f t :
  (forall q, (id (f q), left_fork (f q), right_fork (f q))
             = (id q, left_fork q, right_fork q)) ->
  seats (set_philo p f t) = seats t.
Proof.
  intros Hf. unfold seats, set_philo, deref. cbn [philo].
  destruct (philo t !! p) as [q|] eqn:E.
  - cbn [default]. change (map ?g ?l) with (g <$> l).
    rewrite list_fmap_insert, Hf. apply list_insert_id.
    now rewrite list_lookup_fmap, E.
  - rewrite list_insert_ge; [reflexivity|]. now apply lookup_ge_None.
Qed.

Lemma other_meals_frame ms : forall t,
  let t' := fold_left other_meal ms t in
  setting t' = setting t /\ seats t' = seats t
  /\ is_full t' = is_full t /\ end_flag t' = end_flag t
  /\ List.length (philo t') = List.length (philo t).
Proof.
  induction ms as [|m ms IH]; intros t; cbn [fold_left]; [easy|].
  cbv zeta in *. destruct (IH (other_meal t m)) as (H1 & H2 & H3 & H4 & H5).
  rewrite H1, H2, H3, H4, H5. unfold other_meal.
  repeat split; try reflexivity.
  - now apply set_philo_seats.
  - unfold set_philo. cbn [philo]. apply length_insert.
Qed.

Lemma meals_seen_frame env k t :
  let t' := meals_seen env k t in
  setting t' = setting t /\ seats t' = seats t
  /\ is_full t' = is_full t /\ end_flag t' = end_flag t
  /\ List.length (philo t') = List.length (philo t).
Proof. apply other_meals_frame. Qed.

Lemma flag_seen_frame env k t :
  let t' := flag_seen env k t in
  setting t' = setting t /\ philo t' = philo t /\ is_full t' = is_full t.
Proof.
  unfold flag_seen, interference. now destruct (flag_raised env k).
Qed.

(** ** Announcing the end (C4) *)

Lemma completion_line_is_not_printed :
  let r := main after_one_round 10 6 two_one_meal blank in
  outcome_of r = Returned EXIT_SUCCESS
  /\ said (emitted r) = [END_MSG]
  /\ logged (emitted r) = []
  /\ ~ completion_line_printed (emitted r).
Proof.
  cbv zeta.
  assert (Hs : said (emitted (main after_one_round 10 6 two_one_meal blank))
               = [END_MSG]) by (vm_compute; reflexivity).
  assert (Hl : logged (emitted (main after_one_round 10 6 two_one_meal blank))
               = []) by (vm_compute; reflexivity).
  split; [vm_compute; reflexivity|].
  split; [assumption|]. split; [assumption|].
  unfold completion_line_printed. rewrite Hs, Hl.
  intros H. destruct H as (time & i & []). now left.
Qed.

Lemma seats_deref p t t' :
  seats t' = seats t ->
  id (deref p t') = id (deref p t)
  /\ left_fork (deref p t') = left_fork (deref p t)
  /\ right_fork (deref p t') = right_fork (deref p t).
Proof.
  unfold seats, deref. intros H.
  assert (Hp : (map (fun q => (id q, left_fork q, right_fork q)) (philo t'))
                 !! p
               = (map (fun q => (id q, left_fork q, right_fork q)) (philo t))
                   !! p) by now rewrite H.
  change (map ?g ?l) with (g <$> l) in Hp. rewrite !list_lookup_fmap in Hp.
  destruct (philo t' !! p) as [q'|], (philo t !! p) as [q|];
    cbn in Hp; try discriminate; [|easy].
  injection Hp as H1 H2 H3. easy.
Qed.

Lemma setting_fields t t' :
  setting t' = setting t ->
  philosopher_count t' = philosopher_count t
  /\ time_to_die t' = time_to_die t /\ time_to_eat t' = time_to_eat t
  /\ time_to_sleep t' = time_to_sleep t /\ start_time t' = start_time t
  /\ must_eat_count t' = must_eat_count t.
Proof. unfold setting. intros H. injection H as -> -> -> -> -> ->. easy. Qed.

Lemma logged_app es es' : logged (es ++ es') = logged es ++ logged es'.
Proof. apply flat_map_app. Qed.

Lemma said_app es es' : said (es ++ es') = said es ++ said es'.
Proof. apply flat_map_app. Qed.

(** C4, as the code has it. A philosopher found starved while the flag is
    down: the monitor prints the line of DIE and raises the flag after it.
    The last philosopher found fed: the monitor raises the flag first, so
    that [print_action] leaves the line of END out and prints the notice
    alone. Whoever calls [print_action] with the flag up prints no line;
    with the flag down, and not raised meanwhile, the line is printed. *)
Theorem death_is_announced_completion_only_noticed env p w :
  let r := is_someone_dead_or_full env p w in
  (starved env p w = true ->
   end_flag (table w) = 0 -> flag_raised env (3 + calls w) = false ->
   emitted r =
     [Locked eat_padlock; Locked print_padlock; Locked end_padlock;
      Unlocked end_padlock;
      Log (clock_ms env (5 + calls w) - start_time (table w))
        (id (deref p (table w))) DIE;
      Unlocked print_padlock; Locked end_padlock; Unlocked end_padlock;
      Unlocked eat_padlock]
   /\ end_flag (table (after r)) = 1
   /\ outcome_of r = Returned true)
  /\ (starved env p w = false -> fed env p w = true ->
      all_fed env w = true ->
      emitted r =
        [Locked eat_padlock; Locked end_padlock; Unlocked end_padlock;
         Locked print_padlock; Locked end_padlock; Unlocked end_padlock;
         Unlocked print_padlock; Say END_MSG; Unlocked eat_padlock]
      /\ end_flag (table (after r)) = 1
      /\ outcome_of r = Returned true)
  /\ (forall q action w',
        end_flag (table w') <> 0 ->
        logged (emitted (print_action env q action w')) = [])
  /\ (forall q action w',
        end_flag (table w') = 0 -> flag_raised env (S (calls w')) = false ->
        logged (emitted (print_action env q action w')) =
          [(clock_ms env (3 + calls w') - start_time (table w'),
            id (deref q (table w')), action)]).
Proof.
  cbv zeta. split; [|split; [|split]].
  - intros Hs Hflag Hquiet.
    rewrite is_someone_dead_or_full_starved by assumption. cbv zeta.
    cbn [emitted after table outcome_of].
    pose proof (meals_seen_frame env (calls w) (table w)) as Hm.
    cbv zeta in Hm. destruct Hm as (Hset & Hseats & _ & Hend & _).
    apply setting_fields in Hset as (_ & _ & _ & _ & Hstart & _).
    destruct (seats_deref p _ _ Hseats) as (Hid & _ & _).
    assert (Ht1 : flag_seen env (3 + calls w)
                    (meals_seen env (calls w) (table w))
                  = meals_seen env (calls w) (table w)).
    { unfold flag_seen, interference at 1. now rewrite Hquiet. }
    rewrite Ht1, Hend, Hflag, Hstart, Hid. cbn [Z.eqb negb app].
    repeat split.
  - intros Hs Hf Ha.
    rewrite is_someone_dead_or_full_all_fed by assumption. cbv zeta.
    cbn [emitted after table outcome_of].
    rewrite flag_seen_raised. repeat split.
  - intros q action w' Hup. rewrite print_action_run. cbv zeta.
    cbn [emitted]. rewrite flag_seen_end_flag.
    destruct (flag_raised env (S (calls w'))).
    + cbn [Z.eqb negb]. rewrite !logged_app.
      now destruct (starts_with_e action).
    + apply Z.eqb_neq in Hup. rewrite Hup. cbn [negb].
      rewrite !logged_app. now destruct (starts_with_e action).
  - intros q action w' Hdown Hquiet. rewrite print_action_run. cbv zeta.
    cbn [emitted].
    assert (Ht : flag_seen env (S (calls w')) (table w') = table w').
    { unfold flag_seen, interference. now rewrite Hquiet. }
    rewrite Ht, Hdown. cbn [Z.eqb negb]. rewrite !logged_app.
    now destruct (starts_with_e action).
Qed.

Lemma death_is_announced_completion_only_noticed_witness :
  logged (emitted (is_someone_dead_or_full calm 0 starving))
    = [(205, 1, DIE)]
  /\ said (emitted (is_someone_dead_or_full calm 1 sated)) = [END_MSG]
  /\ logged (emitted (is_someone_dead_or_full calm 1 sated)) = [].
Proof.
  destruct (death_is_announced_completion_only_noticed calm 0%nat starving)
    as (Hdeath & _).
  destruct (death_is_announced_completion_only_noticed calm 1%nat sated)
    as (_ & Hquota & _).
  destruct Hdeath as (-> & _); [reflexivity | reflexivity | reflexivity |].
  destruct Hquota as (-> & _); [reflexivity | reflexivity | reflexivity |].
  repeat split.
Defined.

(** ** Computations that touch no fork *)

Lemma forks_locked_app es es' :
  forks_locked (es ++ es') = forks_locked es ++ forks_locked es'.
Proof. apply flat_map_app. Qed.

Lemma forks_unlocked_app es es' :
  forks_unlocked (es ++ es') = forks_unlocked es ++ forks_unlocked es'.
Proof. apply flat_map_app. Qed.

Lemma quiet_ret {A} (a : A) : quiet (ret a).
Proof. intros w. easy. Qed.

Lemma quiet_spin {A} : quiet (@spin A).
Proof. intros w. easy. Qed.

Lemma quiet_exit {A} s : quiet (@exit A s).
Proof. intros w. easy. Qed.

Lemma quiet_read {A} (f : t_table -> A) : quiet (read f).
Proof. intros w. easy. Qed.

Lemma quiet_bind {A B} (c : M A) (f : A -> M B) :
  quiet c -> (forall a, quiet (f a)) -> quiet (bind c f).
Proof.
  intros Hc Hf w. destruct (Hc w) as (H1 & H2 & H3 & H4).
  unfold bind. destruct (outcome_of (c w)) as [a| |];
    cbn [emitted after]; try easy.
  destruct (Hf a (after (c w))) as (G1 & G2 & G3 & G4).
  rewrite forks_locked_app, forks_unlocked_app, H1, H2, G1, G2, G3, G4.
  easy.
Qed.

Lemma quiet_write_table f :
  (forall t, setting (f t) = setting t /\ seats (f t) = seats t) ->
  quiet (write_table f).
Proof. intros Hf w. destruct (Hf (table w)). easy. Qed.

Lemma quiet_lock env m :
  (forall i, m <> fork_padlock i) -> quiet (pthread_mutex_lock env m).
Proof.
  intros Hm w. unfold pthread_mutex_lock. cbn [emitted after table].
  destruct m as [i| | |]; [now destruct (Hm i) | easy | |].
  - destruct (meals_seen_frame env (calls w) (table w)) as (? & ? & _).
    easy.
  - destruct (flag_seen_frame env (calls w) (table w)) as (? & Hp & _).
    unfold seats. unfold flag_seen in Hp. rewrite Hp. easy.
Qed.

Lemma quiet_unlock m :
  (forall i, m <> fork_padlock i) -> quiet (pthread_mutex_unlock m).
Proof.
  intros Hm w. destruct m as [i| | |]; [now destruct (Hm i) | easy..].
Qed.

Lemma quiet_get_current_time env : quiet (get_current_time env).
Proof. intros w. easy. Qed.

Lemma quiet_usleep us : quiet (usleep us).
Proof. intros w. easy. Qed.

Lemma quiet_is_dinner_over env p end_ : quiet (is_dinner_over env p end_).
Proof.
  unfold is_dinner_over.
  apply quiet_bind; [now apply quiet_lock | intros _].
  apply quiet_bind; [apply quiet_read | intros flag].
  destruct (end_ || negb (flag =? 0)).
  - apply quiet_bind.
    + destruct end_; [now apply quiet_write_table | apply quiet_ret].
    + intros _. apply quiet_bind; [now apply quiet_unlock | intros _].
      apply quiet_ret.
  - apply quiet_bind; [now apply quiet_unlock | intros _]. apply quiet_ret.
Qed.

Lemma quiet_print_action env p action : quiet (print_action env p action).
Proof.
  unfold print_action.
  apply quiet_bind; [now apply quiet_lock | intros _].
  apply quiet_bind; [apply quiet_is_dinner_over | intros over].
  apply quiet_bind.
  - destruct (negb over); [|apply quiet_ret].
    apply quiet_bind; [apply quiet_get_current_time | intros now].
    apply quiet_bind; [apply quiet_read | intros start].
    apply quiet_bind; [apply quiet_read | intros i]. intros w. easy.
  - intros _. apply quiet_bind; [now apply quiet_unlock | intros _].
    destruct (starts_with_e action); [intros w; easy | apply quiet_ret].
Qed.

Lemma quiet_advance_time_from env p start time_to fuel :
  quiet (advance_time_from env fuel p start time_to).
Proof.
  induction fuel as [|fuel IH]; cbn [advance_time_from];
    [apply quiet_spin|].
  apply quiet_bind; [apply quiet_is_dinner_over | intros over].
  destruct over; [apply quiet_ret|].
  apply quiet_bind; [apply quiet_get_current_time | intros now].
  destruct (now - start <? time_to); [|apply quiet_ret].
  apply quiet_bind; [apply quiet_usleep | intros _]. exact IH.
Qed.

Lemma quiet_advance_time env fuel p time_to :
  quiet (advance_time env fuel p time_to).
Proof.
  unfold advance_time.
  apply quiet_bind; [apply quiet_get_current_time | intros start].
  apply quiet_advance_time_from.
Qed.

(** ** The eating phase ([dinner_time]) *)

Lemma rem2_even i : (Z.rem i 2 =? 0) = Z.even i.
Proof.
  destruct (Z.even i) eqn:E.
  - apply Z.eqb_eq. apply Z.even_spec in E as [k ->].
    rewrite Z.mul_comm. now apply Z.rem_mul.
  - apply Z.eqb_neq. intros H.
    apply Z.rem_divide in H; [|discriminate]. destruct H as [k ->].
    rewrite Z.even_mul in E. apply orb_false_iff in E as [_ E].
    discriminate.
Qed.

Lemma releases_bind_quiet {A B} p s (c : M A) (f : A -> M B) :
  quiet c -> (forall a, releases p s (f a)) -> releases p s (bind c f).
Proof.
  intros Hc Hf w Hs. destruct (Hc w) as (H1 & H2 & H3 & H4).
  unfold bind, returned. destruct (outcome_of (c w)) as [a| |] eqn:E;
    cbn [emitted after outcome_of]; try easy.
  destruct (seats_deref p _ _ H4) as (Hi & Hl & Hr).
  destruct (Hf a (after (c w))) as (G1 & G2 & G3 & G4).
  { now rewrite Hi, Hl, Hr. }
  rewrite forks_locked_app, forks_unlocked_app, H1, H2, G1, G2, G3, G4.
  easy.
Qed.

Lemma dinner_time_tail_releases env fuel p s :
  releases p s
    (print_action env p TAKE ;;
     print_action env p TAKE ;;
     print_action env p EAT ;;
     eat <- read time_to_eat ;;
     advance_time env fuel p eat ;;
     pthread_mutex_lock env eat_padlock ;;
     write_table
       (set_philo p (fun q => set_meal_count (meal_count q + 1) q)) ;;
     now <- get_current_time env ;;
     write_table (set_philo p (set_last_meal now)) ;;
     pthread_mutex_unlock eat_padlock ;;
     r <- read (fun t => right_fork (deref p t)) ;;
     pthread_mutex_unlock (fork_padlock r) ;;
     l <- read (fun t => left_fork (deref p t)) ;;
     pthread_mutex_unlock (fork_padlock l)).
Proof.
  do 3 (apply releases_bind_quiet; [apply quiet_print_action | intros _]).
  apply releases_bind_quiet; [apply quiet_read | intros eat].
  apply releases_bind_quiet; [apply quiet_advance_time | intros _].
  apply releases_bind_quiet; [now apply quiet_lock | intros _].
  apply releases_bind_quiet.
  { apply quiet_write_table. intros t. split; [reflexivity|].
    now apply set_philo_seats. }
  intros _.
  apply releases_bind_quiet; [apply quiet_get_current_time | intros now].
  apply releases_bind_quiet.
  { apply quiet_write_table. intros t. split; [reflexivity|].
    now apply set_philo_seats. }
  intros _.
  apply releases_bind_quiet; [now apply quiet_unlock | intros _].
  intros w Hs. subst s. cbn. easy.
Qed.

(** The forks of one eating phase: both are locked before anything else,
    in the order the parity of the id gives; they are unlocked, the right
    one first, when the phase is through. *)
Lemma dinner_time_forks env fuel p w :
  let q := deref p (table w) in
  let r := dinner_time env fuel p w in
  forks_locked (emitted r) = acquisition_order q
  /\ forks_unlocked (emitted r) =
       (if returned r then [right_fork q; left_fork q] else [])
  /\ setting (table (after r)) = setting (table w)
  /\ seats (table (after r)) = seats (table w).
Proof.
  cbv zeta.
  pose proof (dinner_time_tail_releases env fuel p
                (id (deref p (table w)), left_fork (deref p (table w)),
                 right_fork (deref p (table w)))
                (mk_world (table w) (S (S (calls w)))) eq_refl) as Htail.
  cbn [table fst snd] in Htail. destruct Htail as (G1 & G2 & G3 & G4).
  unfold acquisition_order. rewrite <- rem2_even.
  destruct (Z.rem (id (deref p (table w))) 2 =? 0) eqn:E;
    (eassert (H : dinner_time env fuel p w = _);
     [ unfold dinner_time;
       eapply run_bind; [reflexivity | run_simpl];
       eapply run_bind; [run_all | apply result_eta]
     | rewrite H ]);
    unfold returned in *; cbn [emitted after outcome_of table calls];
    rewrite !forks_locked_app, !forks_unlocked_app, G1, G2, G3, G4;
    cbn [forks_locked forks_unlocked flat_map app]; easy.
Qed.

(** ** The life of a philosopher ([dinner_routine]) *)

Lemma acquisition_order_seats p t t' :
  seats t' = seats t ->
  acquisition_order (deref p t') = acquisition_order (deref p t).
Proof.
  intros H. destruct (seats_deref p _ _ H) as (Hi & Hl & Hr).
  unfold acquisition_order. now rewrite Hi, Hl, Hr.
Qed.

Lemma cycles_quiet {A} p o (c : M A) : quiet c -> cycles p o c.
Proof. intros Hc w _. exists 0%nat. now destruct (Hc w). Qed.

Lemma cycles_bind_quiet {A B} p o (c : M A) (f : A -> M B) :
  quiet c -> (forall a, cycles p o (f a)) -> cycles p o (bind c f).
Proof.
  intros Hc Hf w Ho. destruct (Hc w) as (H1 & _ & _ & H4).
  unfold bind. destruct (outcome_of (c w)) as [a| |];
    cbn [emitted]; try (exists 0%nat; assumption).
  destruct (Hf a (after (c w))) as [n Hn].
  { now rewrite (acquisition_order_seats p _ _ H4). }
  exists n. now rewrite forks_locked_app, H1.
Qed.

Lemma cycles_bind_dinner_time {B} env fuel p o (f : unit -> M B) :
  (forall a, cycles p o (f a)) -> cycles p o (bind (dinner_time env fuel p) f).
Proof.
  intros Hf w Ho.
  destruct (dinner_time_forks env fuel p w) as (H1 & _ & _ & H4).
  rewrite Ho in H1.
  unfold bind. destruct (outcome_of (dinner_time env fuel p w)) as [a| |];
    cbn [emitted];
    try (exists 1%nat; rewrite H1; cbn; now rewrite app_nil_r).
  destruct (Hf a (after (dinner_time env fuel p w))) as [n Hn].
  { now rewrite (acquisition_order_seats p _ _ H4). }
  exists (S n). now rewrite forks_locked_app, H1, Hn.
Qed.

Lemma quiet_lone_philosopher env fuel : quiet (lone_philosopher env fuel).
Proof.
  unfold lone_philosopher.
  apply quiet_bind; [apply quiet_print_action | intros _].
  apply quiet_bind; [apply quiet_read | intros die].
  apply quiet_bind; [apply quiet_advance_time | intros _].
  apply quiet_bind; [apply quiet_print_action | intros _].
  apply quiet_bind; [apply quiet_is_dinner_over | intros _].
  apply quiet_ret.
Qed.

Lemma dinner_routine_from_cycles env p o fuel :
  cycles p o (dinner_routine_from env fuel p).
Proof.
  induction fuel as [|fuel IH]; cbn [dinner_routine_from].
  - apply cycles_quiet, quiet_spin.
  - apply cycles_bind_quiet; [apply quiet_read | intros n].
    destruct (n =? 1).
    + apply cycles_quiet.
      apply quiet_bind; [apply quiet_lone_philosopher | intros _].
      apply quiet_ret.
    + apply cycles_bind_quiet; [apply quiet_is_dinner_over | intros over].
      destruct over; [apply cycles_quiet, quiet_ret|].
      apply cycles_bind_quiet; [apply quiet_print_action | intros _].
      apply cycles_bind_dinner_time. intros _.
      apply cycles_bind_quiet; [apply quiet_print_action | intros _].
      apply cycles_bind_quiet; [apply quiet_read | intros sleep].
      apply cycles_bind_quiet; [apply quiet_advance_time | intros _].
      apply cycles_bind_quiet; [apply quiet_read | intros n'].
      apply cycles_bind_quiet.
      { destruct (negb (Z.rem n' 2 =? 0)); [|apply quiet_ret].
        apply quiet_bind; [apply quiet_read | intros eat].
        apply quiet_advance_time. }
      intros _. exact IH.
Qed.

Lemma dinner_routine_cycles env fuel p o :
  cycles p o (dinner_routine env fuel p).
Proof.
  unfold dinner_routine.
  apply cycles_bind_quiet; [apply quiet_read | intros i].
  apply cycles_bind_quiet.
  { destruct (Z.rem i 2 =? 0); [|apply quiet_ret].
    apply quiet_bind; [apply quiet_read | intros eat].
    apply quiet_advance_time. }
  intros _. apply dinner_routine_from_cycles.
Qed.

(** C1. In every eating phase the two forks are locked in the order of
    the parity of the philosopher's id, left then right on an even id and
    right then left on an odd one, whatever the clock and the other
    threads do; and the forks a philosopher locks in its life are this
    pair, in this order, once per eating phase. *)
Theorem forks_are_taken_by_parity env fuel p w :
  let q := deref p (table w) in
  forks_locked (emitted (dinner_time env fuel p w)) =
    (if Z.even (id q) then [left_fork q; right_fork q]
     else [right_fork q; left_fork q])
  /\ exists phases,
       forks_locked (emitted (dinner_routine env fuel p w)) =
         concat (replicate phases
                   (if Z.even (id q) then [left_fork q; right_fork q]
                    else [right_fork q; left_fork q])).
Proof.
  cbv zeta. split.
  - now destruct (dinner_time_forks env fuel p w) as (H & _).
  - now apply (dinner_routine_cycles env fuel p _ w).
Qed.

(** ** Waiting ([advance_time]) *)

(** One round of the loop of [advance_time]. *)
Lemma advance_time_from_round env fuel p start time_to w :
  advance_time_from env (S fuel) p start time_to w =
    let t := flag_seen env (calls w) (table w) in
    if negb (end_flag t =? 0) then
      mk_result [Locked end_padlock; Unlocked end_padlock]
        (mk_world t (2 + calls w)) (Returned tt)
    else if clock_ms env (2 + calls w) - start <? time_to then
      let r := advance_time_from env fuel p start time_to
                 (mk_world t (4 + calls w)) in
      mk_result ([Locked end_padlock; Unlocked end_padlock; Slept 100]
                 ++ emitted r) (after r) (outcome_of r)
    else
      mk_result [Locked end_padlock; Unlocked end_padlock]
        (mk_world t (3 + calls w)) (Returned tt).
Proof.
  cbv zeta. cbn [Nat.add advance_time_from].
  destruct (end_flag (flag_seen env (calls w) (table w)) =? 0) eqn:E;
    cbn [negb]; [|run].
  destruct (clock_ms env (S (S (calls w))) - start <? time_to) eqn:E';
    [|run].
  run.
Qed.

Lemma advance_time_from_returns env p start time_to n :
  (forall k, (n <= k)%nat -> start + time_to <= clock_ms env k) ->
  forall d fuel w,
    (n <= calls w + d)%nat -> (d < fuel)%nat ->
    returned (advance_time_from env fuel p start time_to w) = true
    /\ (calls (after (advance_time_from env fuel p start time_to w))
        <= 4 * S d + calls w)%nat.
Proof.
  intros Hclock. induction d as [|d IH]; intros fuel w Hn Hfuel;
    (destruct fuel as [|fuel]; [lia|]);
    rewrite advance_time_from_round; cbv zeta;
    destruct (negb _); try (split; [reflexivity | cbn; lia]);
    destruct (clock_ms env (2 + calls w) - start <? time_to) eqn:E;
    try (split; [reflexivity | cbn; lia]).
  - specialize (Hclock (2 + calls w)%nat ltac:(lia)). lia.
  - match goal with
    | |- context [advance_time_from env fuel p start time_to ?w'] =>
        destruct (IH fuel w') as [Hr Hk]; [cbn; lia | lia |];
        cbn [calls] in Hk
    end.
    unfold returned in *. cbn [outcome_of after].
    split; [assumption | lia].
Qed.

Lemma advance_time_returns env fuel p time_to w n :
  (forall k, (n <= k)%nat ->
             clock_ms env (calls w) + time_to <= clock_ms env k) ->
  (n < fuel)%nat ->
  returned (advance_time env fuel p time_to w) = true
  /\ (calls (after (advance_time env fuel p time_to w))
      <= 4 * S n + S (calls w))%nat.
Proof.
  intros Hclock Hfuel. unfold advance_time.
  erewrite run_bind_then by apply get_current_time_run.
  destruct (advance_time_from_returns env p _ time_to n Hclock
              n fuel (mk_world (table w) (S (calls w)))) as [Hr Hk];
    [cbn; lia | lia |]; cbn [calls] in Hk.
  unfold returned in *. cbn [outcome_of after]. split; [assumption | lia].
Qed.

(** ** Termination *)

Lemma prompt_ret {A} (a : A) : prompt 0 (ret a).
Proof. intros w. split; [reflexivity | cbn; lia]. Qed.

Lemma prompt_read {A} (f : t_table -> A) : prompt 0 (read f).
Proof. intros w. split; [reflexivity | cbn; lia]. Qed.

Lemma prompt_write_table f : prompt 0 (write_table f).
Proof. intros w. split; [reflexivity | cbn; lia]. Qed.

Lemma prompt_syscall {A} e (a : A) : prompt 1 (syscall e a).
Proof. intros w. split; [reflexivity | cbn; lia]. Qed.

Lemma prompt_lock env m : prompt 1 (pthread_mutex_lock env m).
Proof. intros w. split; [reflexivity | cbn; lia]. Qed.

Lemma prompt_get_current_time env : prompt 1 (get_current_time env).
Proof. intros w. split; [reflexivity | cbn; lia]. Qed.

Lemma prompt_weaken {A} k k' (c : M A) :
  (k <= k')%nat -> prompt k c -> prompt k' c.
Proof. intros Hk Hc w. destruct (Hc w). split; [assumption | lia]. Qed.

Lemma prompt_bind {A B} k k' (c : M A) (f : A -> M B) :
  prompt k c -> (forall a, prompt k' (f a)) -> prompt (k + k') (bind c f).
Proof.
  intros Hc Hf w. destruct (Hc w) as [Hr Hk]. unfold returned in *.
  unfold bind. destruct (outcome_of (c w)) as [a| |]; try discriminate.
  cbn [outcome_of after]. destruct (Hf a (after (c w))) as [Hr' Hk'].
  split; [assumption | lia].
Qed.

Lemma prompt_is_dinner_over env p end_ : prompt 2 (is_dinner_over env p end_).
Proof.
  intros w. destruct end_.
  - rewrite is_dinner_over_raise. split; [reflexivity | cbn; lia].
  - rewrite is_dinner_over_read. split; [reflexivity | cbn; lia].
Qed.

Lemma prompt_print_action env p action : prompt 7 (print_action env p action).
Proof.
  intros w. rewrite print_action_run. cbv zeta.
  split; [reflexivity|]. cbn [after calls].
  destruct (starts_with_e action), (negb _); lia.
Qed.

Lemma quiet_steady {A} (c : M A) : quiet c -> steady c.
Proof. intros Hc w. now destruct (Hc w) as (_ & _ & H & _). Qed.

Lemma finishes_by_prompt {A} k K E (c : M A) : prompt k c -> finishes_by K E c.
Proof. intros Hc w _ _. now destruct (Hc w). Qed.

Lemma finishes_by_bind {A B} k K E (c : M A) (f : A -> M B) :
  prompt k c -> steady c -> (forall a, finishes_by (k + K) E (f a)) ->
  finishes_by K E (bind c f).
Proof.
  intros Hc Hs Hf w HK HE. destruct (Hc w) as [Hr Hk].
  unfold returned in *. unfold bind.
  destruct (outcome_of (c w)) as [a| |]; try discriminate.
  cbn [outcome_of]. apply (Hf a); [lia | now rewrite Hs].
Qed.

Lemma finishes_by_read {A B} K E (g : t_table -> A) (f : A -> M B) :
  (forall t, setting t = E -> finishes_by K E (f (g t))) ->
  finishes_by K E (bind (read g) f).
Proof. intros Hf w HK HE. apply (Hf (table w) HE w HK HE). Qed.

Lemma finishes_by_advance_time {B} env fuel p K E time_to n k'
    (f : unit -> M B) :
  (forall j k, (j <= K)%nat -> (n <= k)%nat ->
               clock_ms env j + time_to <= clock_ms env k) ->
  (n < fuel)%nat -> (forall a, prompt k' (f a)) ->
  finishes_by K E (bind (advance_time env fuel p time_to) f).
Proof.
  intros Hclock Hfuel Hf w HK HE.
  destruct (advance_time_returns env fuel p time_to w n) as [Hr _];
    [intros k Hk; now apply Hclock | assumption |].
  unfold returned in *. unfold bind.
  destruct (outcome_of (advance_time env fuel p time_to w)) as [a| |];
    try discriminate.
  cbn [outcome_of]. now destruct (Hf a (after (advance_time env fuel p time_to w))).
Qed.

(** The eating phase is through once the clock has moved [time_to_eat]
    past the readings of its first calls, given the fuel to wait for it. *)
Lemma dinner_time_returns env fuel p w n :
  (forall j k, (j <= 23 + calls w)%nat -> (n <= k)%nat ->
               clock_ms env j + time_to_eat (table w) <= clock_ms env k) ->
  (n < fuel)%nat ->
  returned (dinner_time env fuel p w) = true.
Proof.
  intros Hclock Hfuel.
  assert (H : finishes_by (calls w) (setting (table w))
                (dinner_time env fuel p)); [|now apply H].
  unfold dinner_time.
  apply finishes_by_read. intros t _.
  apply finishes_by_bind with (k := 2%nat).
  { destruct (Z.rem (id (deref p t)) 2 =? 0);
      intros w'; (split; [reflexivity | cbn; lia]). }
  { destruct (Z.rem (id (deref p t)) 2 =? 0); intros w'; reflexivity. }
  intros _.
  do 3 (apply finishes_by_bind with (k := 7%nat);
        [ apply prompt_print_action
        | apply quiet_steady, quiet_print_action | intros _ ]).
  apply finishes_by_read. intros t' Ht'.
  apply setting_fields in Ht' as (_ & _ & -> & _).
  apply finishes_by_advance_time with (n := n) (k' := 5%nat);
    [ intros j k Hj Hk; apply Hclock; lia | assumption | intros _ ].
  apply (prompt_bind 1 4); [apply prompt_lock | intros _].
  apply (prompt_bind 0 4); [apply prompt_write_table | intros _].
  apply (prompt_bind 1 3); [apply prompt_get_current_time | intros now].
  apply (prompt_bind 0 3); [apply prompt_write_table | intros _].
  apply (prompt_bind 1 2); [apply prompt_syscall | intros _].
  apply (prompt_bind 0 2); [apply prompt_read | intros r].
  apply (prompt_bind 1 1); [apply prompt_syscall | intros _].
  apply (prompt_bind 0 1); [apply prompt_read | intros l].
  apply prompt_syscall.
Qed.

(** The forks of an eating phase are given back when the phase is through,
    never before, the right fork first and then the left one, whatever the
    parity of the id: the reverse of the order of locking on an even id,
    the same order on an odd one. The phase is through, given the fuel,
    once the clock has moved [time_to_eat] past its readings of the first
    calls of the phase. *)
Theorem forks_are_released_right_then_left env fuel p w :
  let q := deref p (table w) in
  let r := dinner_time env fuel p w in
  forks_unlocked (emitted r) =
    (if returned r then [right_fork q; left_fork q] else [])
  /\ (returned r = true -> Z.even (id q) = true ->
      forks_unlocked (emitted r) = rev (forks_locked (emitted r)))
  /\ (returned r = true -> Z.even (id q) = false ->
      forks_unlocked (emitted r) = forks_locked (emitted r))
  /\ (forall n,
        (forall j k, (j <= 23 + calls w)%nat -> (n <= k)%nat ->
                     clock_ms env j + time_to_eat (table w)
                     <= clock_ms env k) ->
        (n < fuel)%nat -> returned r = true).
Proof.
  cbv zeta. destruct (dinner_time_forks env fuel p w) as (Hl & Hu & _).
  rewrite Hl, Hu. unfold acquisition_order.
  split; [reflexivity|]. split; [|split].
  - intros -> ->. reflexivity.
  - intros -> ->. reflexivity.
  - intros n Hclock Hfuel. now apply dinner_time_returns with (n := n).
Qed.

Lemma forks_are_released_right_then_left_witness :
  let r := dinner_time calm 40 0 two_seated in
  returned r = true
  /\ forks_locked (emitted r) = [1; 0]
  /\ forks_unlocked (emitted r) = [1; 0].
Proof.
  cbv zeta.
  destruct (forks_are_released_right_then_left calm 40 0%nat two_seated)
    as (Hu & _ & Hodd & Hret).
  assert (Hr : returned (dinner_time calm 40 0 two_seated) = true).
  { apply (Hret 31%nat); [|lia].
    intros j k Hj Hk. unfold clock_ms, calm. cbn [gettimeofday tv_sec tv_usec].
    cbn [two_seated table calls time_to_eat] in *.
    rewrite !Z.quot_mul by lia. lia. }
  split; [exact Hr|].
  specialize (Hodd Hr eq_refl). rewrite <- Hodd.
  rewrite Hu, Hr. split; reflexivity.
Defined.

(** ** The order of the locks *)

Lemma holds_app h es es' :
  holds h (es ++ es') =
    match holds h es with
    | Some h1 => holds h1 es'
    | None => None
    end.
Proof.
  revert h. induction es as [|e es IH]; intros h; [reflexivity|].
  destruct e; cbn [app holds]; try apply IH.
  - destruct (may_lock h m); [apply IH | reflexivity].
  - destruct (give_back m h); [apply IH | reflexivity].
Qed.

Lemma mutex_eqb_refl m : mutex_eqb m m = true.
Proof. destruct m; cbn; [apply Z.eqb_refl | reflexivity..]. Qed.

Lemma below_weaken n n' h : (n <= n')%nat -> below n h = true -> below n' h = true.
Proof.
  unfold below. intros Hn. rewrite !forallb_forall. intros H m Hm.
  specialize (H m Hm). apply Nat.ltb_lt in H. apply Nat.ltb_lt. lia.
Qed.

Lemma below_push n n' m h :
  below n h = true -> (n <= n')%nat -> (rank m < n')%nat ->
  below n' (m :: h) = true.
Proof.
  intros Hh Hn Hm. cbn [below forallb]. apply andb_true_iff. split.
  - now apply Nat.ltb_lt.
  - now apply (below_weaken n n').
Qed.

Lemma seat_seats p t t' : seats t' = seats t -> seat p t' = seat p t.
Proof.
  intros H. destruct (seats_deref p _ _ H) as (Hi & Hl & Hr).
  unfold seat. now rewrite Hi, Hl, Hr.
Qed.

Lemma locks_bind {A B} p s h h1 h2 (c : M A) (f : A -> M B) :
  locks p s h c h1 -> (forall a, locks p s h1 (f a) h2) ->
  locks p s h (bind c f) h2.
Proof.
  intros Hc Hf w Hs. destruct (Hc w Hs) as [(k1 & Hk1 & Hr1) Hs1].
  unfold bind, returned in *.
  destruct (outcome_of (c w)) as [a| |]; cbn [emitted after outcome_of];
    try (split; [exists k1; split; [assumption | discriminate]
                | assumption]).
  specialize (Hr1 eq_refl). subst k1.
  destruct (Hf a (after (c w)) Hs1) as [(k2 & Hk2 & Hr2) Hs2].
  split; [|assumption]. exists k2. rewrite holds_app, Hk1. now split.
Qed.

(** A computation that emits nothing and leaves the seats. *)
Lemma locks_silent {A} p s h (c : M A) :
  (forall w, emitted (c w) = [] /\ seats (table (after (c w))) = seats (table w)) ->
  locks p s h c h.
Proof.
  intros Hc w Hs. destruct (Hc w) as [He Hseats]. rewrite He.
  split; [exists h; now split|]. now rewrite (seat_seats p _ _ Hseats).
Qed.

Lemma locks_ret {A} p s h (a : A) : locks p s h (ret a) h.
Proof. now apply locks_silent. Qed.

Lemma locks_spin {A} p s h h' : locks p s h (@spin A) h'.
Proof. intros w Hs. split; [exists h; split; [reflexivity | discriminate] | assumption]. Qed.

Lemma locks_exit {A} p s h h' st : locks p s h (@exit A st) h'.
Proof. intros w Hs. split; [exists h; split; [reflexivity | discriminate] | assumption]. Qed.

Lemma locks_read {A} p s h (f : t_table -> A) : locks p s h (read f) h.
Proof. now apply locks_silent. Qed.

Lemma locks_get_current_time env p s h : locks p s h (get_current_time env) h.
Proof. now apply locks_silent. Qed.

Lemma locks_write_table p s h f :
  (forall t, seats (f t) = seats t) -> locks p s h (write_table f) h.
Proof. intros Hf. apply locks_silent. intros w. split; [reflexivity | apply Hf]. Qed.

Lemma locks_syscall {A} p s h e (a : A) :
  match e with Locked _ | Unlocked _ => False | _ => True end ->
  locks p s h (syscall e a) h.
Proof.
  intros He w Hs. split; [|assumption]. exists h.
  split; [|reflexivity]. now destruct e.
Qed.

Lemma locks_lock env p s h m :
  may_lock h m = true -> locks p s h (pthread_mutex_lock env m) (m :: h).
Proof.
  intros Hm w Hs. cbn [pthread_mutex_lock emitted after table holds].
  rewrite Hm. split; [exists (m :: h); now split|]. rewrite <- Hs.
  apply seat_seats. destruct m; try reflexivity.
  - now destruct (meals_seen_frame env (calls w) (table w)) as (_ & ? & _).
  - destruct (flag_seen_frame env (calls w) (table w)) as (_ & Hp & _).
    unfold seats. unfold flag_seen in Hp. now rewrite Hp.
Qed.

Lemma locks_unlock p s h h' m :
  give_back m h = Some h' -> locks p s h (pthread_mutex_unlock m) h'.
Proof.
  intros Hm w Hs. cbn [pthread_mutex_unlock syscall emitted after table holds].
  rewrite Hm. split; [exists h'; now split | assumption].
Qed.

Lemma give_back_head m h : give_back m (m :: h) = Some h.
Proof. cbn. now rewrite mutex_eqb_refl. Qed.

Lemma locks_is_dinner_over env p s h q end_ :
  below 3 h = true -> locks p s h (is_dinner_over env q end_) h.
Proof.
  intros Hh. unfold is_dinner_over.
  eapply locks_bind; [now apply locks_lock | intros _].
  eapply locks_bind; [apply locks_read | intros flag].
  destruct (end_ || negb (flag =? 0)).
  - eapply locks_bind.
    { destruct end_; [now apply locks_write_table | apply locks_ret]. }
    intros _. eapply locks_bind; [|intros _; apply locks_ret].
    apply locks_unlock, give_back_head.
  - eapply locks_bind; [|intros _; apply locks_ret].
    apply locks_unlock, give_back_head.
Qed.

Lemma locks_print_action env p s h q action :
  below 2 h = true -> locks p s h (print_action env q action) h.
Proof.
  intros Hh. unfold print_action.
  eapply locks_bind; [apply locks_lock; exact Hh | intros _].
  eapply locks_bind.
  { apply locks_is_dinner_over. apply (below_push 2); [exact Hh | lia | cbn; lia]. }
  intros over. eapply locks_bind.
  { instantiate (1 := print_padlock :: h).
    destruct (negb over); [|apply locks_ret].
    eapply locks_bind; [apply locks_get_current_time | intros now].
    eapply locks_bind; [apply locks_read | intros start].
    eapply locks_bind; [apply locks_read | intros i].
    now apply locks_syscall. }
  intros _. eapply locks_bind; [apply locks_unlock, give_back_head|].
  intros _. destruct (starts_with_e action);
    [now apply locks_syscall | apply locks_ret].
Qed.

Lemma locks_advance_time_from env p s h q start time_to fuel :
  below 3 h = true ->
  locks p s h (advance_time_from env fuel q start time_to) h.
Proof.
  intros Hh. induction fuel as [|fuel IH]; cbn [advance_time_from].
  - intros w Hs. split; [exists h; now split | assumption].
  - eapply locks_bind; [now apply locks_is_dinner_over | intros over].
    destruct over; [apply locks_ret|].
    eapply locks_bind; [apply locks_get_current_time | intros now].
    destruct (now - start <? time_to); [|apply locks_ret].
    eapply locks_bind; [now apply locks_syscall | intros _]. exact IH.
Qed.

Lemma locks_advance_time env p s h q time_to fuel :
  below 3 h = true -> locks p s h (advance_time env fuel q time_to) h.
Proof.
  intros Hh. unfold advance_time.
  eapply locks_bind; [apply locks_get_current_time | intros start].
  now apply locks_advance_time_from.
Qed.

Lemma locks_bind_read {A B} p s h h' (g : t_table -> A) (f : A -> M B) :
  (forall t, seat p t = s -> locks p s h (f (g t)) h') ->
  locks p s h (bind (read g) f) h'.
Proof.
  intros H w Hs. destruct (H (table w) Hs w Hs) as [(h1 & Hh & Hr) Hs'].
  unfold bind, read, returned in *. cbn [outcome_of after emitted app].
  split; [exists h1; now split | assumption].
Qed.

Lemma give_back_second l r :
  exists h, give_back (fork_padlock r) [fork_padlock l; fork_padlock r]
            = Some [h]
            /\ give_back (fork_padlock l) [h] = Some [].
Proof.
  cbn. destruct (r =? l) eqn:E.
  - apply Z.eqb_eq in E. subst. exists (fork_padlock l). cbn.
    now rewrite Z.eqb_refl.
  - rewrite Z.eqb_refl. exists (fork_padlock l). cbn. now rewrite Z.eqb_refl.
Qed.

Ltac seat_read H :=
  let Hi := fresh in let Hl := fresh in let Hr := fresh in
  injection H as Hi Hl Hr; rewrite ?Hi, ?Hl, ?Hr; clear Hi Hl Hr.

Lemma locks_dinner_time env fuel p s : locks p s [] (dinner_time env fuel p) [].
Proof.
  destruct s as [[i l] r]. unfold dinner_time.
  apply locks_bind_read. intros t Ht. seat_read Ht.
  assert (Hgo : exists top other,
    locks p (i, l, r) []
      (if Z.rem i 2 =? 0
       then l0 <- read (fun t0 => left_fork (deref p t0));;
            pthread_mutex_lock env (fork_padlock l0);;
            r0 <- read (fun t0 => right_fork (deref p t0));;
            pthread_mutex_lock env (fork_padlock r0)
       else r0 <- read (fun t0 => right_fork (deref p t0));;
            pthread_mutex_lock env (fork_padlock r0);;
            l0 <- read (fun t0 => left_fork (deref p t0));;
            pthread_mutex_lock env (fork_padlock l0))
      [top; other]
    /\ below 1 [top; other] = true
    /\ exists h, give_back (fork_padlock r) [top; other] = Some [h]
                 /\ give_back (fork_padlock l) [h] = Some []).
  { destruct (Z.rem i 2 =? 0).
    - exists (fork_padlock r), (fork_padlock l). split; [|split].
      + apply locks_bind_read. intros t0 Ht0. seat_read Ht0.
        eapply locks_bind; [now apply locks_lock | intros _].
        apply locks_bind_read. intros t1 Ht1. seat_read Ht1.
        now apply locks_lock.
      + reflexivity.
      + exists (fork_padlock l). cbn. now rewrite !Z.eqb_refl.
    - exists (fork_padlock l), (fork_padlock r). split; [|split].
      + apply locks_bind_read. intros t0 Ht0. seat_read Ht0.
        eapply locks_bind; [now apply locks_lock | intros _].
        apply locks_bind_read. intros t1 Ht1. seat_read Ht1.
        now apply locks_lock.
      + reflexivity.
      + apply give_back_second. }
  destruct Hgo as (top & other & Hgo & Hbelow & h & Hr & Hl).
  eapply locks_bind; [exact Hgo | intros _].
  do 3 (eapply locks_bind;
        [apply locks_print_action;
         apply (below_weaken 1 2); [lia | exact Hbelow] | intros _]).
  eapply locks_bind; [apply locks_read | intros eat].
  eapply locks_bind;
    [apply locks_advance_time;
     apply (below_weaken 1 3); [lia | exact Hbelow] | intros _].
  eapply locks_bind; [apply locks_lock; exact Hbelow | intros _].
  eapply locks_bind.
  { apply locks_write_table. intros t'. now apply set_philo_seats. }
  intros _.
  eapply locks_bind; [apply locks_get_current_time | intros now].
  eapply locks_bind.
  { apply locks_write_table. intros t'. now apply set_philo_seats. }
  intros _.
  eapply locks_bind; [apply locks_unlock, give_back_head | intros _].
  apply locks_bind_read. intros t0 Ht0. seat_read Ht0.
  eapply locks_bind; [apply locks_unlock; exact Hr | intros _].
  apply locks_bind_read. intros t1 Ht1. seat_read Ht1.
  apply locks_unlock. exact Hl.
Qed.

Lemma locks_lone_philosopher env fuel p s :
  locks p s [] (lone_philosopher env fuel) [].
Proof.
  unfold lone_philosopher.
  eapply locks_bind; [now apply locks_print_action | intros _].
  eapply locks_bind; [apply locks_read | intros die].
  eapply locks_bind; [now apply locks_advance_time | intros _].
  eapply locks_bind; [now apply locks_print_action | intros _].
  eapply locks_bind; [now apply locks_is_dinner_over | intros _].
  apply locks_ret.
Qed.

Lemma locks_dinner_routine_from env p s fuel :
  locks p s [] (dinner_routine_from env fuel p) [].
Proof.
  induction fuel as [|fuel IH]; cbn [dinner_routine_from];
    [apply locks_spin|].
  eapply locks_bind; [apply locks_read | intros n].
  destruct (n =? 1).
  - eapply locks_bind; [apply locks_lone_philosopher | intros _].
    apply locks_ret.
  - eapply locks_bind; [now apply locks_is_dinner_over | intros over].
    destruct over; [apply locks_ret|].
    eapply locks_bind; [now apply locks_print_action | intros _].
    eapply locks_bind; [apply locks_dinner_time | intros _].
    eapply locks_bind; [now apply locks_print_action | intros _].
    eapply locks_bind; [apply locks_read | intros sleep].
    eapply locks_bind; [now apply locks_advance_time | intros _].
    eapply locks_bind; [apply locks_read | intros n'].
    eapply locks_bind.
    { instantiate (1 := []).
      destruct (negb (Z.rem n' 2 =? 0)); [|apply locks_ret].
      eapply locks_bind; [apply locks_read | intros eat].
      now apply locks_advance_time. }
    intros _. exact IH.
Qed.

Lemma locks_dinner_routine env fuel p s :
  locks p s [] (dinner_routine env fuel p) [].
Proof.
  unfold dinner_routine.
  eapply locks_bind; [apply locks_read | intros i].
  eapply locks_bind.
  { instantiate (1 := []).
    destruct (Z.rem i 2 =? 0); [|apply locks_ret].
    eapply locks_bind; [apply locks_read | intros eat].
    now apply locks_advance_time. }
  intros _. apply locks_dinner_routine_from.
Qed.

Lemma locks_is_someone_dead_or_full env p s q :
  locks p s [] (is_someone_dead_or_full env q) [].
Proof.
  unfold is_someone_dead_or_full.
  eapply locks_bind; [now apply locks_lock | intros _].
  eapply locks_bind; [apply locks_get_current_time | intros now].
  eapply locks_bind; [apply locks_read | intros last].
  eapply locks_bind; [apply locks_read | intros die].
  destruct (now - last >=? die).
  - eapply locks_bind; [now apply locks_print_action | intros _].
    eapply locks_bind; [now apply locks_is_dinner_over | intros _].
    eapply locks_bind; [apply locks_unlock, give_back_head | intros _].
    apply locks_ret.
  - eapply locks_bind; [apply locks_read | intros must].
    eapply locks_bind; [apply locks_read | intros meals].
    destruct ((must >? 0) && (meals >=? must)).
    + eapply locks_bind; [now apply locks_write_table | intros _].
      eapply locks_bind; [apply locks_read | intros full].
      eapply locks_bind; [apply locks_read | intros n].
      destruct (full >=? n).
      * eapply locks_bind; [now apply locks_is_dinner_over | intros _].
        eapply locks_bind; [now apply locks_print_action | intros _].
        eapply locks_bind; [apply locks_unlock, give_back_head | intros _].
        apply locks_ret.
      * eapply locks_bind; [apply locks_unlock, give_back_head | intros _].
        apply locks_ret.
    + eapply locks_bind; [apply locks_unlock, give_back_head | intros _].
      apply locks_ret.
Qed.

Lemma locks_dinner_monitor_pass env p s fuel : forall i continue_flag,
  locks p s [] (dinner_monitor_pass env fuel i continue_flag) [].
Proof.
  induction fuel as [|fuel IH]; intros i continue_flag;
    cbn [dinner_monitor_pass]; [apply locks_spin|]. cbv zeta.
  eapply locks_bind; [apply locks_read | intros n].
  destruct (i + 1 <? n); [|apply locks_ret].
  destruct (negb (continue_flag =? 0)); [|apply IH].
  eapply locks_bind; [apply locks_is_someone_dead_or_full | intros stop].
  destruct stop; apply IH.
Qed.

Lemma locks_unset_rules_from p s h fuel : forall i,
  locks p s h (unset_rules_from fuel i) h.
Proof.
  induction fuel as [|fuel IH]; intros i; cbn [unset_rules_from];
    [apply locks_spin|]. cbv zeta.
  eapply locks_bind; [apply locks_read | intros n].
  destruct (i + 1 <? n); [|apply locks_ret].
  eapply locks_bind; [now apply locks_syscall | intros _]. apply IH.
Qed.

Lemma locks_end_dinner_from p s h fuel : forall i,
  locks p s h (end_dinner_from fuel i) h.
Proof.
  induction fuel as [|fuel IH]; intros i; cbn [end_dinner_from];
    [apply locks_spin|]. cbv zeta.
  eapply locks_bind; [apply locks_read | intros n].
  destruct (i + 1 <? n); [|apply locks_ret].
  eapply locks_bind; [now apply locks_syscall | intros _]. apply IH.
Qed.

Lemma locks_end_dinner p s h fuel : locks p s h (end_dinner fuel) h.
Proof.
  unfold end_dinner, unset_rules, clean_table.
  eapply locks_bind; [apply locks_end_dinner_from | intros _].
  eapply locks_bind.
  { eapply locks_bind; [apply locks_unset_rules_from | intros _].
    eapply locks_bind; [now apply locks_syscall | intros _].
    eapply locks_bind; [now apply locks_syscall | intros _].
    now apply locks_syscall. }
  intros _. eapply locks_bind; [now apply locks_syscall | intros _].
  now apply locks_syscall.
Qed.

Lemma locks_dinner_monitor_from env p s fuel : forall continue_flag,
  locks p s [] (dinner_monitor_from env fuel continue_flag) [].
Proof.
  induction fuel as [|fuel IH]; intros continue_flag;
    cbn [dinner_monitor_from]; [apply locks_spin|].
  destruct (negb (continue_flag =? 0)); [|apply locks_ret].
  eapply locks_bind; [now apply locks_write_table | intros _].
  eapply locks_bind; [apply locks_dinner_monitor_pass | intros cf].
  eapply locks_bind; [now apply locks_syscall | intros _]. apply IH.
Qed.

Lemma locks_dinner_monitor env fuel p s :
  locks p s [] (dinner_monitor env fuel) [].
Proof.
  unfold dinner_monitor.
  eapply locks_bind; [apply locks_dinner_monitor_from | intros _].
  apply locks_end_dinner.
Qed.

Lemma give_back_nested m : forall h h',
  give_back m h = Some h' -> nested h = true -> nested h' = true.
Proof.
  assert (Hbelow : forall n h h', give_back m h = Some h' ->
                     below n h = true -> below n h' = true).
  { intros n. induction h as [|m' h IH]; intros h' Hg Hb; [discriminate|].
    cbn in Hg, Hb. apply andb_true_iff in Hb as [Hb1 Hb2].
    destruct (mutex_eqb m m'); [now injection Hg as <- |].
    destruct (give_back m h) as [rest|]; [|discriminate].
    injection Hg as <-. cbn. rewrite Hb1. now apply IH. }
  assert (Hlen : forall h h', give_back m h = Some h' ->
                   S (List.length h') = List.length h).
  { induction h as [|m' h IH]; intros h' Hg; [discriminate|].
    cbn in Hg. destruct (mutex_eqb m m'); [now injection Hg as <- |].
    destruct (give_back m h) as [rest|]; [|discriminate].
    injection Hg as <-. cbn. now rewrite (IH rest). }
  induction h as [|m' h IH]; intros h' Hg Hn; [discriminate|].
  cbn in Hg, Hn. apply andb_true_iff in Hn as [Hm Hn].
  destruct (mutex_eqb m m'); [now injection Hg as <- |].
  destruct (give_back m h) as [rest|] eqn:E; [|discriminate].
  injection Hg as <-. cbn. rewrite (IH rest eq_refl Hn), andb_true_r.
  unfold may_lock in *. destruct m'.
  - apply andb_true_iff in Hm as [Hm1 Hm2]. apply andb_true_iff. split.
    + now apply (Hbelow _ h).
    + apply Nat.leb_le. apply Nat.leb_le in Hm2.
      specialize (Hlen h rest E). lia.
  - now apply (Hbelow _ h).
  - now apply (Hbelow _ h).
  - now apply (Hbelow _ h).
Qed.

Lemma holds_nested es : forall h h',
  holds h es = Some h' -> nested h = true -> nested h' = true.
Proof.
  induction es as [|e es IH]; intros h h' Hh Hn; cbn in Hh.
  - now injection Hh as <-.
  - destruct e; try (now apply (IH h)).
    + destruct (may_lock h m) eqn:E; [|discriminate].
      apply (IH (m :: h)); [assumption|]. cbn. now rewrite E.
    + destruct (give_back m h) as [rest|] eqn:E; [|discriminate].
      apply (IH rest); [assumption|]. now apply (give_back_nested m h).
Qed.

Lemma holds_prefix h es es' h2 :
  holds h (es ++ es') = Some h2 -> exists h1, holds h es = Some h1.
Proof.
  rewrite holds_app. destruct (holds h es) as [h1|]; [eauto | discriminate].
Qed.

(** At every point of the life of a philosopher and of the monitor, the
    locks the thread holds were taken in the order forks, [eat_padlock],
    [print_padlock], [end_padlock], no more than two forks among them, and
    every lock it gives back it held; when the thread returns it holds
    none. *)
Theorem locks_are_taken_in_order env fuel p w :
  let philosopher := dinner_routine env fuel p w in
  let monitor := dinner_monitor env fuel w in
  (forall es es', emitted philosopher = es ++ es' ->
     exists held, holds [] es = Some held /\ nested held = true)
  /\ (returned philosopher = true -> holds [] (emitted philosopher) = Some [])
  /\ (forall es es', emitted monitor = es ++ es' ->
        exists held, holds [] es = Some held /\ nested held = true)
  /\ (returned monitor = true -> holds [] (emitted monitor) = Some []).
Proof.
  cbv zeta.
  destruct (locks_dinner_routine env fuel p (seat p (table w)) w eq_refl)
    as [(h1 & Hh1 & Hr1) _].
  destruct (locks_dinner_monitor env fuel p (seat p (table w)) w eq_refl)
    as [(h2 & Hh2 & Hr2) _].
  split; [|split; [|split]].
  - intros es es' Hes. rewrite Hes in Hh1.
    destruct (holds_prefix _ _ _ _ Hh1) as [held Hheld].
    exists held. split; [assumption|]. now apply (holds_nested es []).
  - intros Hr. now rewrite Hh1, (Hr1 Hr).
  - intros es es' Hes. rewrite Hes in Hh2.
    destruct (holds_prefix _ _ _ _ Hh2) as [held Hheld].
    exists held. split; [assumption|]. now apply (holds_nested es []).
  - intros Hr. now rewrite Hh2, (Hr2 Hr).
Qed.

(** ** Once the flag is up *)

Lemma flag_seen_up env k t : end_flag t <> 0 -> end_flag (flag_seen env k t) <> 0.
Proof.
  intros H. rewrite flag_seen_end_flag. now destruct (flag_raised env k).
Qed.

Lemma hushed_bind {A B} (c : M A) (f : A -> M B) :
  hushed c -> (forall a, hushed (f a)) -> hushed (bind c f).
Proof.
  intros Hc Hf w Hup. destruct (Hc w Hup) as [Hl Hu]. unfold bind.
  destruct (outcome_of (c w)) as [a| |]; cbn [emitted after]; try easy.
  destruct (Hf a (after (c w)) Hu) as [Hl' Hu'].
  now rewrite logged_app, Hl, Hl'.
Qed.

Lemma hushed_silent {A} (c : M A) :
  (forall w, logged (emitted (c w)) = []
             /\ (end_flag (table w) <> 0 ->
                 end_flag (table (after (c w))) <> 0)) ->
  hushed c.
Proof. intros H w Hup. destruct (H w) as [Hl Hu]. auto. Qed.

Lemma hushed_ret {A} (a : A) : hushed (ret a).
Proof. now apply hushed_silent. Qed.

Lemma hushed_spin {A} : hushed (@spin A).
Proof. now apply hushed_silent. Qed.

Lemma hushed_read {A} (f : t_table -> A) : hushed (read f).
Proof. now apply hushed_silent. Qed.

Lemma hushed_get_current_time env : hushed (get_current_time env).
Proof. now apply hushed_silent. Qed.

Lemma hushed_write_table f :
  (forall t, end_flag t <> 0 -> end_flag (f t) <> 0) ->
  hushed (write_table f).
Proof. intros Hf. apply hushed_silent. intros w. split; [reflexivity | apply Hf]. Qed.

Lemma hushed_syscall {A} e (a : A) :
  match e with Log _ _ _ => False | _ => True end -> hushed (syscall e a).
Proof. intros He. apply hushed_silent. intros w. now destruct e. Qed.

Lemma hushed_lock env m : hushed (pthread_mutex_lock env m).
Proof.
  apply hushed_silent. intros w. split; [reflexivity|].
  cbn [pthread_mutex_lock after table]. destruct m; try easy.
  - destruct (meals_seen_frame env (calls w) (table w)) as (_ & _ & _ & He & _).
    unfold meals_seen in He. now rewrite He.
  - apply flag_seen_up.
Qed.

Lemma hushed_is_dinner_over env p end_ : hushed (is_dinner_over env p end_).
Proof.
  unfold is_dinner_over.
  apply hushed_bind; [apply hushed_lock | intros _].
  apply hushed_bind; [apply hushed_read | intros flag].
  destruct (end_ || negb (flag =? 0)).
  - apply hushed_bind.
    + destruct end_; [now apply hushed_write_table | apply hushed_ret].
    + intros _. apply hushed_bind; [now apply hushed_syscall | intros _].
      apply hushed_ret.
  - apply hushed_bind; [now apply hushed_syscall | intros _].
    apply hushed_ret.
Qed.

Lemma hushed_print_action env p action : hushed (print_action env p action).
Proof.
  intros w Hup. rewrite print_action_run. cbv zeta. cbn [emitted after table].
  pose proof (flag_seen_up env (S (calls w)) _ Hup) as Hup'.
  split; [|assumption]. apply Z.eqb_neq in Hup'. rewrite Hup'.
  cbn [negb]. rewrite !logged_app. now destruct (starts_with_e action).
Qed.

Lemma hushed_is_someone_dead_or_full env p :
  hushed (is_someone_dead_or_full env p).
Proof.
  unfold is_someone_dead_or_full.
  apply hushed_bind; [apply hushed_lock | intros _].
  apply hushed_bind; [apply hushed_get_current_time | intros now].
  apply hushed_bind; [apply hushed_read | intros last].
  apply hushed_bind; [apply hushed_read | intros die].
  destruct (now - last >=? die).
  - apply hushed_bind; [apply hushed_print_action | intros _].
    apply hushed_bind; [apply hushed_is_dinner_over | intros _].
    apply hushed_bind; [now apply hushed_syscall | intros _].
    apply hushed_ret.
  - apply hushed_bind; [apply hushed_read | intros must].
    apply hushed_bind; [apply hushed_read | intros meals].
    destruct ((must >? 0) && (meals >=? must)).
    + apply hushed_bind; [now apply hushed_write_table | intros _].
      apply hushed_bind; [apply hushed_read | intros full].
      apply hushed_bind; [apply hushed_read | intros n].
      destruct (full >=? n).
      * apply hushed_bind; [apply hushed_is_dinner_over | intros _].
        apply hushed_bind; [apply hushed_print_action | intros _].
        apply hushed_bind; [now apply hushed_syscall | intros _].
        apply hushed_ret.
      * apply hushed_bind; [now apply hushed_syscall | intros _].
        apply hushed_ret.
    + apply hushed_bind; [now apply hushed_syscall | intros _].
      apply hushed_ret.
Qed.

Lemma hushed_dinner_monitor_pass env fuel : forall i continue_flag,
  hushed (dinner_monitor_pass env fuel i continue_flag).
Proof.
  induction fuel as [|fuel IH]; intros i continue_flag;
    cbn [dinner_monitor_pass]; [apply hushed_spin|]. cbv zeta.
  apply hushed_bind; [apply hushed_read | intros n].
  destruct (i + 1 <? n); [|apply hushed_ret].
  destruct (negb (continue_flag =? 0)); [|apply IH].
  apply hushed_bind; [apply hushed_is_someone_dead_or_full | intros stop].
  destruct stop; apply IH.
Qed.

Lemma hushed_end_dinner fuel : hushed (end_dinner fuel).
Proof.
  assert (Hjoin : forall f i, hushed (end_dinner_from f i)).
  { induction f as [|f IH]; intros i; cbn [end_dinner_from];
      [apply hushed_spin|]. cbv zeta.
    apply hushed_bind; [apply hushed_read | intros n].
    destruct (i + 1 <? n); [|apply hushed_ret].
    apply hushed_bind; [now apply hushed_syscall | intros _]. apply IH. }
  assert (Hforks : forall f i, hushed (unset_rules_from f i)).
  { induction f as [|f IH]; intros i; cbn [unset_rules_from];
      [apply hushed_spin|]. cbv zeta.
    apply hushed_bind; [apply hushed_read | intros n].
    destruct (i + 1 <? n); [|apply hushed_ret].
    apply hushed_bind; [now apply hushed_syscall | intros _]. apply IH. }
  unfold end_dinner, unset_rules, clean_table.
  apply hushed_bind; [apply Hjoin | intros _].
  apply hushed_bind.
  { apply hushed_bind; [apply Hforks | intros _].
    apply hushed_bind; [now apply hushed_syscall | intros _].
    apply hushed_bind; [now apply hushed_syscall | intros _].
    now apply hushed_syscall. }
  intros _. apply hushed_bind; [now apply hushed_syscall | intros _].
  now apply hushed_syscall.
Qed.

Lemma hushed_dinner_monitor env fuel : hushed (dinner_monitor env fuel).
Proof.
  assert (Hloop : forall f cf, hushed (dinner_monitor_from env f cf)).
  { induction f as [|f IH]; intros cf; cbn [dinner_monitor_from];
      [apply hushed_spin|].
    destruct (negb (cf =? 0)); [|apply hushed_ret].
    apply hushed_bind; [now apply hushed_write_table | intros _].
    apply hushed_bind; [apply hushed_dinner_monitor_pass | intros cf'].
    apply hushed_bind; [now apply hushed_syscall | intros _]. apply IH. }
  unfold dinner_monitor.
  apply hushed_bind; [apply Hloop | intros _]. apply hushed_end_dinner.
Qed.

Lemma winds_down_of {A} k (c : M A) :
  prompt k c -> quiet c -> hushed c -> winds_down k c.
Proof.
  intros Hp Hq Hh w Hup. destruct (Hp w) as [Hr Hk].
  destruct (Hq w) as (Hf & _). destruct (Hh w Hup) as [Hl Hu]. easy.
Qed.

Lemma winds_down_weaken {A} k k' (c : M A) :
  (k <= k')%nat -> winds_down k c -> winds_down k' c.
Proof.
  intros Hk Hc w Hup. destruct (Hc w Hup) as (? & ? & ? & ? & ?).
  repeat split; try assumption. lia.
Qed.

Lemma winds_down_bind {A B} k k' (c : M A) (f : A -> M B) :
  winds_down k c -> (forall a, winds_down k' (f a)) ->
  winds_down (k + k') (bind c f).
Proof.
  intros Hc Hf w Hup. destruct (Hc w Hup) as (Hr & Hk & Hf1 & Hl & Hu).
  unfold returned in *. unfold bind.
  destruct (outcome_of (c w)) as [a| |]; try discriminate.
  cbn [outcome_of after emitted].
  destruct (Hf a (after (c w)) Hu) as (Hr' & Hk' & Hf' & Hl' & Hu').
  rewrite forks_locked_app, logged_app, Hf1, Hl, Hf', Hl'.
  repeat split; try assumption. lia.
Qed.

Lemma winds_down_ret {A} (a : A) : winds_down 0 (ret a).
Proof.
  apply winds_down_of; [apply prompt_ret | apply quiet_ret | apply hushed_ret].
Qed.

Lemma winds_down_read {A} (f : t_table -> A) : winds_down 0 (read f).
Proof.
  apply winds_down_of;
    [apply prompt_read | apply quiet_read | apply hushed_read].
Qed.

Lemma winds_down_print_action env p action :
  winds_down 7 (print_action env p action).
Proof.
  apply winds_down_of; [apply prompt_print_action | apply quiet_print_action
                       | apply hushed_print_action].
Qed.

Lemma winds_down_is_dinner_over env p end_ :
  winds_down 2 (is_dinner_over env p end_).
Proof.
  apply winds_down_of; [apply prompt_is_dinner_over
                       | apply quiet_is_dinner_over
                       | apply hushed_is_dinner_over].
Qed.

(** With the flag up [advance_time] does not wait. *)
Lemma winds_down_advance_time env fuel p time_to :
  (1 <= fuel)%nat -> winds_down 3 (advance_time env fuel p time_to).
Proof.
  intros Hfuel w Hup. destruct fuel as [|fuel]; [lia|].
  unfold advance_time.
  erewrite run_bind_then by apply get_current_time_run.
  rewrite advance_time_from_round. cbv zeta. cbn [table calls].
  pose proof (flag_seen_up env (S (calls w)) _ Hup) as Hup'.
  pose proof Hup' as Hup''. apply Z.eqb_neq in Hup''. rewrite Hup''.
  cbn [negb emitted after outcome_of table calls]. unfold returned.
  cbn [outcome_of]. repeat split; try assumption. lia.
Qed.

(** With the flag up [is_dinner_over] answers yes. *)
Lemma winds_down_bind_is_dinner_over {B} env p k (f : bool -> M B) :
  winds_down k (f true) ->
  winds_down (2 + k) (bind (is_dinner_over env p false) f).
Proof.
  intros Hf w Hup.
  erewrite run_bind_then by apply is_dinner_over_read.
  pose proof (flag_seen_up env (calls w) _ Hup) as Hup'.
  pose proof Hup' as Hup''. apply Z.eqb_neq in Hup''. rewrite Hup''.
  cbn [negb].
  destruct (Hf (mk_world (flag_seen env (calls w) (table w))
                  (S (S (calls w)))) Hup') as (Hr & Hk & Hf' & Hl & Hu).
  unfold returned in *. cbn [outcome_of after emitted calls] in *.
  rewrite forks_locked_app, logged_app, Hf', Hl.
  repeat split; try assumption. lia.
Qed.

Lemma winds_down_dinner_routine env fuel p :
  (2 <= fuel)%nat -> winds_down 24 (dinner_routine env fuel p).
Proof.
  intros Hfuel. unfold dinner_routine.
  apply (winds_down_bind 0 24); [apply winds_down_read | intros i].
  apply (winds_down_bind 3 21).
  { destruct (Z.rem i 2 =? 0); [|apply (winds_down_weaken 0); [lia|];
                                  apply winds_down_ret].
    apply (winds_down_bind 0 3); [apply winds_down_read | intros eat].
    apply winds_down_advance_time. lia. }
  intros _. destruct fuel as [|fuel]; [lia|]. cbn [dinner_routine_from].
  apply (winds_down_bind 0 21); [apply winds_down_read | intros n].
  destruct (n =? 1).
  - apply (winds_down_bind 21 0); [|intros _; apply winds_down_ret].
    unfold lone_philosopher.
    apply (winds_down_bind 7 14); [apply winds_down_print_action | intros _].
    apply (winds_down_bind 0 14); [apply winds_down_read | intros die].
    apply (winds_down_bind 3 11);
      [apply winds_down_advance_time; lia | intros _].
    apply (winds_down_bind 7 4); [apply winds_down_print_action | intros _].
    apply (winds_down_bind 2 2); [apply winds_down_is_dinner_over|intros _].
    apply (winds_down_weaken 0); [lia | apply winds_down_ret].
  - apply (winds_down_weaken 2); [lia|].
    apply (winds_down_bind_is_dinner_over env p 0). apply winds_down_ret.
Qed.

(** With the flag up when it starts, a philosopher returns without a
    line and without a fork, within 24 system calls; the monitor prints
    no line either. Nothing lowers the flag. *)
Theorem once_the_flag_is_up env fuel p w :
  end_flag (table w) <> 0 ->
  let philosopher := dinner_routine env fuel p w in
  let monitor := dinner_monitor env fuel w in
  ((2 <= fuel)%nat ->
   returned philosopher = true
   /\ (calls (after philosopher) <= 24 + calls w)%nat
   /\ forks_locked (emitted philosopher) = []
   /\ logged (emitted philosopher) = []
   /\ end_flag (table (after philosopher)) <> 0)
  /\ logged (emitted monitor) = []
  /\ end_flag (table (after monitor)) <> 0.
Proof.
  intros Hup. cbv zeta. split.
  - intros Hfuel. now apply winds_down_dinner_routine.
  - now apply hushed_dinner_monitor.
Qed.

Lemma once_the_flag_is_up_witness :
  returned (dinner_routine calm 2 1 two_dismissed) = true
  /\ logged (emitted (dinner_routine calm 2 1 two_dismissed)) = [].
Proof.
  destruct (once_the_flag_is_up calm 2 1%nat two_dismissed) as [H _].
  - discriminate.
  - destruct H as (Hr & _ & _ & Hl & _); [lia|]. now split.
Defined.

(** ** Initialising the mutexes ([set_rules]) *)

Lemma upto_S n : upto (S n) = upto n ++ [Z.of_nat n].
Proof. unfold upto. now rewrite seq_S, map_app. Qed.

Lemma downfrom_S n : downfrom (S n) = Z.of_nat n :: downfrom n.
Proof. unfold downfrom. now rewrite upto_S, rev_app_distr. Qed.

Lemma alive_app ms es es' :
  alive ms (es ++ es') =
    match alive ms es with
    | Some ms' => alive ms' es'
    | None => None
    end.
Proof.
  revert ms. induction es as [|e es IH]; intros ms; [reflexivity|].
  destruct e as [m|m|m r|m|? ? ?|?|? ?|? ?|?|? ?|?|?|];
    cbn [app alive]; try apply IH.
  - destruct (r =? 0); [|apply IH].
    destruct (existsb (mutex_eqb m) ms); [reflexivity | apply IH].
  - destruct (give_back m ms); [apply IH | reflexivity].
Qed.

(** [unset_previous_forks_rules(table, n - 1)] destroys the forks from
    [n - 1] down to 0. *)
Lemma unset_previous_forks_rules_run n : forall fuel w,
  (n < fuel)%nat ->
  unset_previous_forks_rules fuel (Z.of_nat n - 1) w =
    mk_result (map (fun i => MutexDestroy (fork_padlock i)) (downfrom n))
      (mk_world (table w) (n + calls w)) (Returned tt).
Proof.
  induction n as [|n IH]; intros fuel w Hfuel;
    (destruct fuel as [|fuel]; [lia|]); cbn [unset_previous_forks_rules].
  - change (Z.of_nat 0 - 1 <? 0) with true. cbv iota. now destruct w.
  - destruct (Z.of_nat (S n) - 1 <? 0) eqn:E; [apply Z.ltb_lt in E; lia|].
    replace (Z.of_nat (S n) - 1 - 1) with (Z.of_nat n - 1) by lia.
    replace (Z.of_nat (S n) - 1) with (Z.of_nat n) by lia.
    rewrite downfrom_S.
    erewrite run_bind; [| reflexivity | apply IH; lia].
    cbn [table calls map app]. do 2 f_equal. lia.
Qed.

Lemma set_forks_rules_from_succeeds env : forall d j fuel w,
  Z.of_nat (j + d) = philosopher_count (table w) ->
  (forall i, (j <= i < j + d)%nat ->
             mutex_init_result env (fork_padlock (Z.of_nat i)) = 0) ->
  (d < fuel)%nat ->
  set_forks_rules_from env fuel (Z.of_nat j - 1) w =
    mk_result
      (map (fun i => MutexInit (fork_padlock (Z.of_nat i)) 0) (seq j d))
      (mk_world (table w) (d + calls w)) (Returned tt).
Proof.
  induction d as [|d IH]; intros j fuel w HN Hok Hfuel;
    (destruct fuel as [|fuel]; [lia|]); cbn [set_forks_rules_from];
    cbv zeta; replace (Z.of_nat j - 1 + 1) with (Z.of_nat j) by lia.
  - erewrite run_bind; [| reflexivity |].
    2:{ cbv beta. destruct (Z.of_nat j <? philosopher_count (table w)) eqn:E;
          [apply Z.ltb_lt in E; lia | reflexivity]. }
    now destruct w.
  - erewrite run_bind; [| reflexivity |].
    2:{ cbv beta. destruct (Z.of_nat j <? philosopher_count (table w)) eqn:E;
          [|apply Z.ltb_ge in E; lia].
        eapply run_bind; [reflexivity|]. cbv beta.
        rewrite (Hok j) by lia. cbn [Z.eqb negb].
        replace (Z.of_nat j) with (Z.of_nat (S j) - 1) at 1 by lia.
        apply IH; [cbn [table]; lia | intros i Hi; apply Hok; lia | lia]. }
    cbn [seq map app table calls]. rewrite (Hok j) by lia.
    do 2 f_equal. lia.
Qed.

Lemma set_forks_rules_from_fails env : cooperative env -> forall d j fuel w,
  Z.of_nat (j + d) < philosopher_count (table w) ->
  (forall i, (j <= i < j + d)%nat ->
             mutex_init_result env (fork_padlock (Z.of_nat i)) = 0) ->
  mutex_init_result env (fork_padlock (Z.of_nat (j + d))) <> 0 ->
  (j + d + d + 2 <= fuel)%nat ->
  set_forks_rules_from env fuel (Z.of_nat j - 1) w =
    mk_result
      (map (fun i => MutexInit (fork_padlock (Z.of_nat i)) 0) (seq j d)
       ++ [MutexInit (fork_padlock (Z.of_nat (j + d)))
             (mutex_init_result env (fork_padlock (Z.of_nat (j + d))))]
       ++ fork_message
       ++ map (fun i => MutexDestroy (fork_padlock i)) (downfrom (j + d))
       ++ [MutexDestroy print_padlock; MutexDestroy eat_padlock;
           MutexDestroy end_padlock])
      (mk_world (table w) (d + (5 + (j + d + calls w)))) (Exited EXIT_FAILURE).
Proof.
  intros Hco. induction d as [|d IH]; intros j fuel w HN Hok Hbad Hfuel;
    (destruct fuel as [|fuel]; [lia|]); cbn [set_forks_rules_from];
    cbv zeta; replace (Z.of_nat j - 1 + 1) with (Z.of_nat j) by lia;
    (erewrite run_bind; [| reflexivity |]);
    try (cbv beta;
         destruct (Z.of_nat j <? philosopher_count (table w)) eqn:E;
         [|apply Z.ltb_ge in E; lia]).
  2:{ eapply run_bind; [reflexivity|]. cbv beta.
      replace (j + 0)%nat with j in * by lia.
      apply Z.eqb_neq in Hbad. rewrite Hbad. cbn [negb].
      eapply run_bind;
        [apply ft_putstr_fd_ok; [assumption | lia | discriminate]|].
      eapply run_bind.
      { replace (Z.of_nat j - 1) with (Z.of_nat j - 1) by lia.
        apply unset_previous_forks_rules_run. lia. }
      run_all. }
  3:{ eapply run_bind; [reflexivity|]. cbv beta.
      rewrite (Hok j) by lia. cbn [Z.eqb negb].
      replace (Z.of_nat j) with (Z.of_nat (S j) - 1) at 1 by lia.
      replace (j + S d)%nat with (S j + d)%nat in * by lia.
      apply IH; [cbn [table]; lia | intros i Hi; apply Hok; lia
                | assumption | lia]. }
  - replace (j + 0)%nat with j by lia. cbn [seq map app table calls].
    unfold fork_message. cbn [app].
    do 2 f_equal. lia.
  - replace (j + S d)%nat with (S j + d)%nat by lia.
    cbn [seq map app table calls]. rewrite (Hok j) by lia.
    do 2 f_equal. lia.
Qed.

Lemma set_forks_rules_from_none env fuel j w :
  philosopher_count (table w) <= Z.of_nat j ->
  set_forks_rules_from env (S fuel) (Z.of_nat j - 1) w = ret tt w.
Proof.
  intros HN. cbn [set_forks_rules_from]. cbv zeta.
  replace (Z.of_nat j - 1 + 1) with (Z.of_nat j) by lia.
  erewrite run_bind; [| reflexivity |].
  2:{ cbv beta. destruct (Z.of_nat j <? philosopher_count (table w)) eqn:E;
        [apply Z.ltb_lt in E; lia | reflexivity]. }
  now destruct w.
Qed.

Lemma first_failure (f : nat -> Z) n :
  (forall i, (i < n)%nat -> f i = 0) \/
  exists k, (k < n)%nat /\ f k <> 0 /\ forall i, (i < k)%nat -> f i = 0.
Proof.
  induction n as [|n [IH|(k & Hk & Hbad & Hok)]].
  - left. intros i Hi. lia.
  - destruct (Z.eq_dec (f n) 0) as [E|E].
    + left. intros i Hi. destruct (Nat.eq_dec i n) as [->|]; [assumption|].
      apply IH. lia.
    + right. exists n. repeat split; [lia | assumption | assumption].
  - right. exists k. repeat split; [lia | assumption | assumption].
Qed.

Lemma fork_not_alive n ms :
  existsb (mutex_eqb (fork_padlock (Z.of_nat n))) ms = false ->
  existsb (mutex_eqb (fork_padlock (Z.of_nat n)))
    (map fork_padlock (downfrom n) ++ ms) = false.
Proof.
  intros Hms. rewrite existsb_app, Hms, orb_false_r.
  apply not_true_is_false. intros H.
  apply existsb_exists in H as (m & Hin & Heq).
  apply in_map_iff in Hin as (i & <- & Hin).
  unfold downfrom, upto in Hin. apply in_rev, in_map_iff in Hin.
  destruct Hin as (k & <- & Hk). apply in_seq in Hk.
  cbn [mutex_eqb] in Heq. apply Z.eqb_eq in Heq. lia.
Qed.

Lemma alive_forks_initialised n : forall ms,
  (forall i, existsb (mutex_eqb (fork_padlock i)) ms = false) ->
  alive ms (map (fun i => MutexInit (fork_padlock (Z.of_nat i)) 0) (seq 0 n)) =
    Some (map fork_padlock (downfrom n) ++ ms).
Proof.
  induction n as [|n IH]; intros ms Hms; [reflexivity|].
  rewrite seq_S, map_app, alive_app, IH by assumption.
  cbn [map alive Nat.add Z.eqb].
  rewrite fork_not_alive by apply Hms.
  now rewrite downfrom_S.
Qed.

Lemma alive_forks_destroyed n : forall ms,
  alive (map fork_padlock (downfrom n) ++ ms)
    (map (fun i => MutexDestroy (fork_padlock i)) (downfrom n)) = Some ms.
Proof.
  induction n as [|n IH]; intros ms; [reflexivity|].
  rewrite downfrom_S. cbn [map app alive give_back mutex_eqb].
  rewrite Z.eqb_refl. apply IH.
Qed.



(** ** Seating the philosophers ([welcome_philosophers]) *)

Lemma set_philo_fields p f t :
  setting (set_philo p f t) = setting t
  /\ table_meal_count (set_philo p f t) = table_meal_count t
  /\ is_full (set_philo p f t) = is_full t
  /\ end_flag (set_philo p f t) = end_flag t.
Proof. now destruct t. Qed.

(** The five assignments of one round of the loop. *)
Lemma seat_assigned p i l r s t :
  (p < length (philo t))%nat ->
  set_philo p (set_last_meal s)
    (set_philo p (set_meal_count 0)
       (set_philo p (set_right_fork r)
          (set_philo p (set_left_fork l) (set_philo p (set_id i) t)))) =
  set_philo_array (<[p := mk_philo i 0 l r s]> (philo t)) t.
Proof.
  intros Hp. unfold set_philo, set_philo_array, deref.
  cbn [philo philosopher_count time_to_die time_to_eat time_to_sleep
       start_time must_eat_count table_meal_count is_full end_flag].
  rewrite !list_lookup_insert_eq by (rewrite ?length_insert; exact Hp).
  cbn [default]. rewrite !list_insert_insert_eq. reflexivity.
Qed.

Lemma welcome_philosophers_from_run n : forall d j fuel w,
  (j + d)%nat = n ->
  philosopher_count (table w) = Z.of_nat n ->
  length (philo (table w)) = n ->
  (d < fuel)%nat ->
  welcome_philosophers_from fuel (Z.of_nat j - 1) w =
    mk_result []
      (mk_world
         (set_philo_array
            (take j (philo (table w))
             ++ map (seated n (start_time (table w)))
                  (map Z.of_nat (seq j d)))
            (table w))
         (calls w))
      (Returned tt).
Proof.
  induction d as [|d IH]; intros j fuel w Hjd HN Hlen Hfuel;
    (destruct fuel as [|fuel]; [lia|]); cbn [welcome_philosophers_from];
    cbv zeta; replace (Z.of_nat j - 1 + 1) with (Z.of_nat j) by lia;
    (erewrite run_bind; [| reflexivity |]).
  2:{ cbv beta. rewrite HN.
      destruct (Z.of_nat j <? Z.of_nat n) eqn:E;
        [apply Z.ltb_lt in E; lia | reflexivity]. }
  3:{ cbv beta. rewrite HN.
      destruct (Z.of_nat j <? Z.of_nat n) eqn:E;
        [|apply Z.ltb_ge in E; lia].
      rewrite Nat2Z.id.
      do 2 (eapply run_bind; [reflexivity|]; cbv beta).
      eapply run_bind; [reflexivity|]; cbv beta.
      do 2 (eapply run_bind; [reflexivity|]; cbv beta).
      eapply run_bind; [reflexivity|]; cbv beta.
      eapply run_bind; [reflexivity|]; cbv beta.
      cbn [table calls].
      replace (Z.of_nat j) with (Z.of_nat (S j) - 1) at 1 by lia.
      apply IH; cbn [table]; [lia | | | lia].
      - now destruct w as [[]].
      - unfold set_philo. cbn [philo]. rewrite !length_insert. exact Hlen. }
  - cbn [seq map app]. rewrite app_nil_r.
    rewrite firstn_all2 by lia. now destruct w as [[]].
  - cbn [app table calls]. f_equal. f_equal.
    replace (start_time _) with (start_time (table w))
      by now destruct w as [[]].
    replace (philosopher_count
               (set_philo j (set_left_fork (Z.of_nat j))
                  (set_philo j (set_id (Z.of_nat j + 1)) (table w))))
      with (Z.of_nat n) by (rewrite <- HN; now destruct w as [[]]).
    rewrite seat_assigned by lia.
    unfold set_philo_array.
    cbn [philo philosopher_count time_to_die time_to_eat time_to_sleep
         start_time must_eat_count table_meal_count is_full end_flag].
    f_equal.
    rewrite (take_S_r _ _ (seated n (start_time (table w)) (Z.of_nat j)))
      by (apply list_lookup_insert_eq; lia).
    rewrite take_insert_ge by lia.
    cbn [seq map]. rewrite <- app_assoc. reflexivity.
Qed.

Lemma welcome_philosophers_run env fuel w :
  malloc_philo_ok env = true -> malloc_forks_ok env = true ->
  0 <= philosopher_count (table w) ->
  (Z.to_nat (philosopher_count (table w)) < fuel)%nat ->
  let now := clock_ms env (2 + calls w) in
  welcome_philosophers env fuel w =
    mk_result [Malloc true; Malloc true]
      (mk_world
         (set_philo_array
            (ring (Z.to_nat (philosopher_count (table w))) now)
            (set_start_time now (table w)))
         (3 + calls w))
      (Returned tt).
Proof.
  intros Hphilo Hforks HN Hfuel now.
  set (n := Z.to_nat (philosopher_count (table w))) in *.
  unfold welcome_philosophers. rewrite Hphilo, Hforks. etransitivity.
  - do 5 (eapply run_bind; [reflexivity|]; cbv beta iota).
    eapply run_bind; [apply get_current_time_run|]; cbv beta.
    eapply run_bind; [reflexivity|]; cbv beta.
    apply (welcome_philosophers_from_run n n 0); cbn [table philo].
    + lia.
    + destruct w as [[]]. cbn in *. lia.
    + destruct w as [[]]. cbn [table philo set_start_time set_philo_array].
      apply length_replicate.
    + lia.
  - cbn [app table calls]. destruct w as [[]]. reflexivity.
Qed.

(** X8. With both arrays allocated, [welcome_philosophers] reads the clock
    once, for [start_time], and seats the philosophers in a ring:
    philosopher [i] (from 0) has the id [i + 1], the left fork [i], the
    right fork [(i + 1) % philosopher_count], no meal yet and its last
    meal at [start_time]. *)
Theorem welcome_philosophers_seats_a_ring env fuel w :
  malloc_philo_ok env = true -> malloc_forks_ok env = true ->
  0 <= philosopher_count (table w) ->
  (Z.to_nat (philosopher_count (table w)) < fuel)%nat ->
  let now := clock_ms env (2 + calls w) in
  welcome_philosophers env fuel w =
    mk_result [Malloc true; Malloc true]
      (mk_world
         (set_philo_array
            (ring (Z.to_nat (philosopher_count (table w))) now)
            (set_start_time now (table w)))
         (3 + calls w))
      (Returned tt).
Proof. apply welcome_philosophers_run. Qed.

Lemma welcome_philosophers_seats_a_ring_witness :
  philo (table (after (welcome_philosophers calm 4 three_expected))) =
    [mk_philo 1 0 0 1 2; mk_philo 2 0 1 2 2; mk_philo 3 0 2 0 2].
Proof.
  rewrite (welcome_philosophers_seats_a_ring calm 4 three_expected).
  - reflexivity.
  - reflexivity.
  - reflexivity.
  - cbn. lia.
  - cbn. lia.
Defined.

Lemma ring_lookup n start i :
  (i < n)%nat -> ring n start !! i = Some (seated n start (Z.of_nat i)).
Proof.
  intros Hi. unfold ring, upto. rewrite !list_lookup_fmap.
  rewrite lookup_seq_lt by exact Hi. reflexivity.
Qed.

(** X9. At the table [welcome_philosophers] leaves, the right fork of a
    philosopher is the left fork of the next one around the table, the
    last philosopher sharing with the first; the two forks of a
    philosopher are one and the same only when it sits alone. *)
Theorem neighbours_share_a_fork env fuel w i :
  malloc_philo_ok env = true -> malloc_forks_ok env = true ->
  (Z.to_nat (philosopher_count (table w)) < fuel)%nat ->
  0 <= i < philosopher_count (table w) ->
  let t := table (after (welcome_philosophers env fuel w)) in
  let me := deref (Z.to_nat i) t in
  let next := deref (Z.to_nat ((i + 1) mod philosopher_count t)) t in
  id me = i + 1
  /\ left_fork me = i
  /\ right_fork me = left_fork next
  /\ (left_fork me = right_fork me <-> philosopher_count t = 1).
Proof.
  intros Hphilo Hforks Hfuel Hi.
  rewrite welcome_philosophers_run by (assumption || lia).
  cbn [after table]. cbv zeta.
  set (now := clock_ms _ _). set (N := philosopher_count (table w)) in *.
  assert (HN : philosopher_count
                 (set_philo_array (ring (Z.to_nat N) now)
                    (set_start_time now (table w))) = N)
    by (subst N; now destruct w as [[]]).
  rewrite HN. unfold deref. cbn [philo set_philo_array].
  assert (Hnext : 0 <= (i + 1) mod N < N) by (apply Z.mod_pos_bound; lia).
  rewrite !ring_lookup by lia. rewrite !Z2Nat.id by lia.
  unfold default, Datatypes.id, seated. cbn [id left_fork right_fork].
  rewrite Z.rem_mod_nonneg by lia.
  replace (Z.of_nat (Z.to_nat N)) with N by lia.
  split; [reflexivity|]. split; [reflexivity|]. split; [reflexivity|].
  split.
  - intros E. destruct (Z.eq_dec (i + 1) N) as [Hlast|Hlast].
    + rewrite Hlast, Z.mod_same in E by lia. lia.
    + rewrite Z.mod_small in E by lia. lia.
  - intros E. rewrite E in *. assert (i = 0) by lia. now subst i.
Qed.

Lemma neighbours_share_a_fork_witness :
  let t := table (after (welcome_philosophers calm 4 three_expected)) in
  right_fork (deref 2 t) = left_fork (deref 0 t).
Proof.
  cbv zeta.
  apply (neighbours_share_a_fork calm 4 three_expected 2);
    solve [reflexivity | cbn; lia].
Defined.

(** X10. When either [malloc] fails, [welcome_philosophers] writes its
    message on the standard error, frees both pointers and exits with
    [EXIT_FAILURE]: no mutex is initialised and no thread created. *)
Theorem welcome_philosophers_out_of_memory env fuel w :
  cooperative env -> (2 <= fuel)%nat ->
  malloc_philo_ok env && malloc_forks_ok env = false ->
  let r := welcome_philosophers env fuel w in
  emitted r =
    [Malloc (malloc_philo_ok env); Malloc (malloc_forks_ok env);
     Wrote 2 ("Couldn't get the philosophers or forks" ++ nl); Free; Free]
  /\ outcome_of r = Exited EXIT_FAILURE.
Proof.
  intros Hco Hfuel Hbad. cbv zeta.
  unfold welcome_philosophers, clean_table.
  destruct (malloc_philo_ok env), (malloc_forks_ok env);
    try discriminate Hbad;
    match goal with
    | |- context [emitted (?c w)] =>
        eassert (H : c w = _) by (etransitivity; [run_all | reflexivity]);
        rewrite H
    end; split; reflexivity.
Qed.

Lemma welcome_philosophers_out_of_memory_witness :
  outcome_of (welcome_philosophers out_of_memory 2 three_expected) =
    Exited EXIT_FAILURE.
Proof.
  apply (welcome_philosophers_out_of_memory out_of_memory 2 three_expected).
  - intros k n. reflexivity.
  - lia.
  - reflexivity.
Defined.

(** ** What a computation may do *)

Lemma tame_weaken {A} (P Q : event -> bool) (X Y : bool) (c : M A) :
  tame P X c -> (forall e, P e = true -> Q e = true) ->
  (X = true -> Y = true) -> tame Q Y c.
Proof.
  intros Hc HPQ HXY w. destruct (Hc w) as (H1 & H2 & H3).
  split; [|split; [assumption|]].
  - rewrite forallb_forall in *. auto.
  - intros s Hs. eauto.
Qed.

Lemma tame_bind {A B} P X (c : M A) (f : A -> M B) :
  tame P X c -> (forall a, tame P X (f a)) -> tame P X (bind c f).
Proof.
  intros Hc Hf w. destruct (Hc w) as (H1 & H2 & H3).
  unfold bind. destruct (outcome_of (c w)) as [a|s|] eqn:E;
    cbn [emitted after outcome_of]; [|now eauto..].
  destruct (Hf a (after (c w))) as (G1 & G2 & G3).
  rewrite forallb_app, H1, G1, G2, H2. auto.
Qed.

Lemma tame_ret {A} P X (a : A) : tame P X (ret a).
Proof. intros w. easy. Qed.

Lemma tame_spin {A} P X : tame P X (@spin A).
Proof. intros w. easy. Qed.

Lemma tame_exit {A} P s : tame P true (@exit A s).
Proof. intros w. easy. Qed.

Lemma tame_read {A} P X (f : t_table -> A) : tame P X (read f).
Proof. intros w. easy. Qed.

Lemma tame_write_table P X f :
  (forall t, setting (f t) = setting t) -> tame P X (write_table f).
Proof. intros Hf w. cbn. rewrite Hf. easy. Qed.

Lemma tame_syscall {A} P X e (a : A) :
  P e = true -> tame P X (syscall e a).
Proof. intros He w. cbn. rewrite He. easy. Qed.

Lemma tame_lock env P X m :
  P (Locked m) = true -> tame P X (pthread_mutex_lock env m).
Proof.
  intros He w. cbn [pthread_mutex_lock emitted after outcome_of forallb table].
  rewrite He. split; [reflexivity|]. split; [|easy].
  destruct m as [i| | |]; try reflexivity.
  - apply (meals_seen_frame env (calls w) (table w)).
  - apply (flag_seen_frame env (calls w) (table w)).
Qed.

Lemma tame_get_current_time env P X : tame P X (get_current_time env).
Proof. intros w. easy. Qed.

Ltac tame_leaf :=
  first [ apply tame_ret | apply tame_spin | apply tame_read
        | apply tame_get_current_time
        | apply tame_exit
        | apply tame_lock; reflexivity
        | apply tame_syscall; reflexivity
        | apply tame_write_table; intros []; reflexivity ].

(** The functions that have their own lemma register below. *)
Ltac tame_known := fail.

Ltac tame_go :=
  repeat (cbv zeta;
          lazymatch goal with
          | |- tame _ _ (bind _ _) => apply tame_bind; [|intros ?]
          | |- tame _ _ (if ?b then _ else _) => destruct b
          | |- _ => first [ tame_known | tame_leaf ]
          end).

Lemma tame_is_dinner_over env p end_ :
  tame end_event false (is_dinner_over env p end_).
Proof. unfold is_dinner_over. destruct end_; tame_go. Qed.

Lemma end_event_advance e : end_event e = true -> advance_event e = true.
Proof. destruct e as [[]|[]| | | | | | | | | | |]; easy. Qed.

Lemma end_event_monitor e : end_event e = true -> monitor_event e = true.
Proof. destruct e as [[]|[]| | | | | | | | | | |]; easy. Qed.

Lemma monitor_event_plain e : monitor_event e = true -> plain e = true.
Proof. destruct e; easy. Qed.

Lemma write_event_plain e : write_event e = true -> plain e = true.
Proof. destruct e; easy. Qed.

Lemma tame_advance_time_from env p start time_to : forall fuel,
  tame advance_event false (advance_time_from env fuel p start time_to).
Proof.
  induction fuel as [|fuel IH]; cbn [advance_time_from]; [apply tame_spin|].
  apply tame_bind; [|intros over].
  { apply (tame_weaken end_event _ false); auto using end_event_advance.
    apply tame_is_dinner_over. }
  destruct over; [apply tame_ret|].
  apply tame_bind; [apply tame_get_current_time | intros now].
  destruct (now - start <? time_to); [|apply tame_ret].
  apply tame_bind; [now apply tame_syscall | intros _]. apply IH.
Qed.

Lemma tame_print_action env p action :
  tame monitor_event false (print_action env p action).
Proof.
  unfold print_action.
  apply tame_bind; [now apply tame_lock | intros _].
  apply tame_bind; [|intros over].
  { apply (tame_weaken end_event _ false); auto using end_event_monitor.
    apply tame_is_dinner_over. }
  unfold printf_lld_d_s, printf_s, pthread_mutex_unlock. tame_go.
Qed.

Lemma tame_is_dinner_over_monitor env p end_ :
  tame monitor_event false (is_dinner_over env p end_).
Proof.
  apply (tame_weaken end_event _ false); auto using end_event_monitor.
  apply tame_is_dinner_over.
Qed.

Ltac tame_known ::=
  first [ apply tame_print_action | apply tame_is_dinner_over_monitor ].

Lemma tame_is_someone_dead_or_full env p :
  tame monitor_event false (is_someone_dead_or_full env p).
Proof.
  unfold is_someone_dead_or_full, pthread_mutex_unlock. tame_go.
Qed.

Lemma tame_dinner_monitor_pass env : forall fuel i continue_flag,
  tame monitor_event false (dinner_monitor_pass env fuel i continue_flag).
Proof.
  induction fuel as [|fuel IH]; intros i continue_flag;
    cbn [dinner_monitor_pass]; [apply tame_spin|]. cbv zeta.
  apply tame_bind; [apply tame_read | intros n].
  destruct (i + 1 <? n); [|apply tame_ret].
  destruct (negb (continue_flag =? 0)); [|apply IH].
  apply tame_bind; [apply tame_is_someone_dead_or_full | intros stop].
  destruct stop; apply IH.
Qed.

Lemma tame_dinner_monitor_from env : forall fuel continue_flag,
  tame monitor_event false (dinner_monitor_from env fuel continue_flag).
Proof.
  induction fuel as [|fuel IH]; intros continue_flag;
    cbn [dinner_monitor_from]; [apply tame_spin|].
  destruct (negb (continue_flag =? 0)); [|apply tame_ret].
  apply tame_bind; [apply tame_write_table; now intros [] | intros _].
  apply tame_bind; [apply tame_dinner_monitor_pass | intros flag].
  apply tame_bind; [now apply tame_syscall | intros _]. apply IH.
Qed.

(** ** Mutexes initialised and destroyed, over the whole run *)

Lemma alive_plain es : forall ms,
  forallb plain es = true -> alive ms es = Some ms.
Proof.
  induction es as [|e es IH]; intros ms H; [reflexivity|].
  cbn [forallb] in H. apply andb_true_iff in H as [He Hes].
  destruct e; try discriminate He; cbn [alive]; now apply IH.
Qed.

Lemma tidy_bind {A B} N ms ms1 ms2 (c : M A) (f : A -> M B) :
  tidy N ms c ms1 -> (forall a, tidy N ms1 (f a) ms2) ->
  tidy N ms (bind c f) ms2.
Proof.
  intros Hc Hf w HN. destruct (Hc w HN) as [H1 H2].
  unfold bind. destruct (outcome_of (c w)) as [a|s|];
    cbn [emitted after outcome_of]; [|now split..].
  destruct (Hf a (after (c w)) H1) as [G1 G2]. split; [assumption|].
  rewrite alive_app, H2.
  destruct (outcome_of (f a (after (c w)))); assumption.
Qed.

Lemma tidy_tame {A} N P ms (c : M A) :
  tame P false c -> (forall e, P e = true -> plain e = true) ->
  tidy N ms c ms.
Proof.
  intros Hc HP w HN. destruct (Hc w) as (H1 & H2 & H3).
  apply setting_fields in H2 as (-> & _). split; [assumption|].
  assert (Hplain : forallb plain (emitted (c w)) = true).
  { rewrite forallb_forall in *. auto. }
  destruct (outcome_of (c w)) as [a|s|]; [now apply alive_plain | | exact I].
  now specialize (H3 s eq_refl).
Qed.

Lemma tidy_tame_none {A} N P X (c : M A) :
  tame P X c -> (forall e, P e = true -> plain e = true) ->
  tidy N [] c [].
Proof.
  intros Hc HP w HN. destruct (Hc w) as (H1 & H2 & _).
  apply setting_fields in H2 as (-> & _). split; [assumption|].
  assert (Hplain : forallb plain (emitted (c w)) = true).
  { rewrite forallb_forall in *. auto. }
  destruct (outcome_of (c w)); try exact I; now apply alive_plain.
Qed.

Lemma tidy_ret {A} N ms (a : A) : tidy N ms (ret a) ms.
Proof. intros w HN. now split. Qed.

Lemma tidy_spin {A} N ms ms' : tidy N ms (@spin A) ms'.
Proof. intros w HN. now split. Qed.

Lemma tidy_exit {A} N s ms' : tidy N [] (@exit A s) ms'.
Proof. intros w HN. now split. Qed.

Lemma tidy_read {A} N ms (f : t_table -> A) : tidy N ms (read f) ms.
Proof. intros w HN. now split. Qed.

(** What is read of [philosopher_count] is [N]. *)
Lemma tidy_read_count {B} N ms ms' (f : Z -> M B) :
  tidy N ms (f N) ms' ->
  tidy N ms (bind (read philosopher_count) f) ms'.
Proof.
  intros Hf w HN. unfold bind, read. cbn [outcome_of after emitted app].
  rewrite HN. destruct (Hf w HN) as [H1 H2]. split; [assumption|].
  destruct (outcome_of (f N w)); assumption.
Qed.

Lemma tidy_write_table N ms f :
  (forall t, philosopher_count (f t) = philosopher_count t) ->
  tidy N ms (write_table f) ms.
Proof. intros Hf w HN. cbn. rewrite Hf. now split. Qed.

Lemma tidy_syscall {A} N ms e (a : A) :
  plain e = true -> tidy N ms (syscall e a) ms.
Proof. intros He w HN. split; [assumption|]. cbn. now destruct e. Qed.

Lemma tidy_destroy N m ms ms' :
  give_back m ms = Some ms' -> tidy N ms (pthread_mutex_destroy m) ms'.
Proof. intros Hm w HN. split; [assumption|]. cbn. now rewrite Hm. Qed.

(** [pthread_mutex_init] of a mutex that is not initialised: the mutex is,
    if the call returns 0. *)
Lemma tidy_init {B} env N m ms ms' (f : Z -> M B) :
  existsb (mutex_eqb m) ms = false ->
  tidy N (if mutex_init_result env m =? 0 then m :: ms else ms)
    (f (mutex_init_result env m)) ms' ->
  tidy N ms (bind (pthread_mutex_init env m) f) ms'.
Proof.
  intros Hm Hf w HN. unfold bind, pthread_mutex_init, syscall.
  cbn [outcome_of after emitted app].
  destruct (Hf (mk_world (table w) (S (calls w))) HN) as [H1 H2].
  split; [assumption|]. cbn [alive]. rewrite Hm.
  destruct (mutex_init_result env m =? 0);
    destruct (outcome_of (f _ _)); assumption.
Qed.

Ltac tidy_leaf :=
  first [ apply tidy_ret | apply tidy_spin | apply tidy_read
        | apply tidy_exit
        | apply tidy_syscall; reflexivity
        | apply tidy_write_table; intros []; reflexivity ].

(** ** The messages ([ft_putstr_fd]) *)

Lemma tame_sys_write env X fd buf :
  fd = 2 -> tame write_event X (sys_write env fd buf).
Proof.
  intros -> w. cbn [sys_write emitted after outcome_of forallb table].
  destruct (fst _ =? -1); easy.
Qed.

Lemma tame_ft_putstr_fd_from env str : forall fuel total_written len,
  tame write_event true (ft_putstr_fd_from env fuel 2 str total_written len).
Proof.
  induction fuel as [|fuel IH]; intros total_written len;
    cbn [ft_putstr_fd_from]; [apply tame_spin|].
  destruct (total_written <? len); [|apply tame_ret].
  apply tame_bind; [now apply tame_sys_write | intros r].
  destruct (fst r =? -1); [|apply IH].
  destruct (snd r =? EINTR); [apply IH | apply tame_exit].
Qed.

Lemma tame_ft_putstr_fd env fuel str :
  tame write_event true (ft_putstr_fd env fuel 2 str).
Proof. apply tame_ft_putstr_fd_from. Qed.

Lemma sys_write_cooperative env fd buf w :
  cooperative env ->
  sys_write env fd buf w =
    mk_result [Wrote fd (substring 0 (String.length buf) buf)]
      (mk_world (table w) (S (calls w)))
      (Returned (Z.of_nat (String.length buf), 0)).
Proof.
  intros Hco. unfold sys_write. rewrite Hco. cbn [fst snd].
  destruct (Z.of_nat _ =? -1) eqn:E; [apply Z.eqb_eq in E; lia|].
  now rewrite Nat2Z.id.
Qed.

(** Where [write] does not fail, [ft_putstr_fd] does not exit. *)
Lemma tame_ft_putstr_fd_from_cooperative env str :
  cooperative env -> forall fuel total_written len,
  tame write_event false
    (ft_putstr_fd_from env fuel 2 str total_written len).
Proof.
  intros Hco. induction fuel as [|fuel IH]; intros total_written len;
    cbn [ft_putstr_fd_from]; [apply tame_spin|].
  destruct (total_written <? len); [|apply tame_ret].
  intros w.
  rewrite (run_bind_then _ _ w _ _ _ (sys_write_cooperative _ _ _ _ Hco)).
  cbn [fst snd emitted after outcome_of table].
  destruct (Z.of_nat _ =? -1) eqn:E; [apply Z.eqb_eq in E; lia|].
  match goal with
  | |- context [ft_putstr_fd_from env fuel 2 str ?t len ?w'] =>
      destruct (IH t len w') as (H1 & H2 & H3)
  end.
  cbn [app forallb write_event Z.eqb Pos.eqb andb]. auto.
Qed.

Lemma tame_ft_putstr_fd_cooperative env fuel str :
  cooperative env -> tame write_event false (ft_putstr_fd env fuel 2 str).
Proof. intros Hco. now apply tame_ft_putstr_fd_from_cooperative. Qed.

Lemma tidy_ft_putstr_fd env N ms fuel str :
  cooperative env -> tidy N ms (ft_putstr_fd env fuel 2 str) ms.
Proof.
  intros Hco. apply (tidy_tame N write_event);
    auto using tame_ft_putstr_fd_cooperative, write_event_plain.
Qed.

(** ** The forks, destroyed from the first *)

Lemma give_back_skip x l rest :
  forallb (fun m => negb (mutex_eqb x m)) l = true ->
  give_back x (l ++ x :: rest) = Some (l ++ rest).
Proof.
  induction l as [|m l IH]; cbn [app give_back forallb]; intros H.
  - now rewrite mutex_eqb_refl.
  - apply andb_true_iff in H as [Hm Hl]. apply negb_true_iff in Hm.
    now rewrite Hm, IH.
Qed.

Lemma forks_from_step j n :
  (j < n)%nat ->
  forks_from j n = forks_from (S j) n ++ [fork_padlock (Z.of_nat j)].
Proof.
  intros Hj. unfold forks_from.
  replace (n - j)%nat with (S (n - S j)) by lia.
  cbn [seq map rev]. now rewrite map_app.
Qed.

Lemma forks_from_all j n : (n <= j)%nat -> forks_from j n = [].
Proof.
  intros Hj. unfold forks_from. now replace (n - j)%nat with 0%nat by lia.
Qed.

Lemma forks_from_0 n : forks_from 0 n = map fork_padlock (downfrom n).
Proof. unfold forks_from, downfrom, upto. now rewrite Nat.sub_0_r. Qed.

Lemma give_back_fork j n rest :
  (j < n)%nat ->
  give_back (fork_padlock (Z.of_nat j)) (forks_from j n ++ rest) =
    Some (forks_from (S j) n ++ rest).
Proof.
  intros Hj. rewrite forks_from_step, <- app_assoc by exact Hj.
  apply give_back_skip. apply forallb_forall. intros m Hm.
  unfold forks_from in Hm. apply in_map_iff in Hm as (i & <- & Hi).
  apply in_rev, in_map_iff in Hi. destruct Hi as (k & <- & Hk).
  apply in_seq in Hk. cbn [mutex_eqb]. apply negb_true_iff, Z.eqb_neq. lia.
Qed.

Lemma tidy_unset_rules_from N rest : forall fuel j,
  tidy N (forks_from j (Z.to_nat N) ++ rest)
    (unset_rules_from fuel (Z.of_nat j - 1)) rest.
Proof.
  induction fuel as [|fuel IH]; intros j; cbn [unset_rules_from];
    [apply tidy_spin|].
  cbv zeta. replace (Z.of_nat j - 1 + 1) with (Z.of_nat j) by lia.
  apply tidy_read_count. destruct (Z.of_nat j <? N) eqn:E.
  - apply Z.ltb_lt in E.
    apply (tidy_bind _ _ (forks_from (S j) (Z.to_nat N) ++ rest)).
    + apply tidy_destroy, give_back_fork. lia.
    + intros _. replace (Z.of_nat j) with (Z.of_nat (S j) - 1) by lia.
      apply IH.
  - apply Z.ltb_ge in E. rewrite forks_from_all by lia. apply tidy_ret.
Qed.

Lemma tidy_unset_rules N fuel :
  tidy N (all_mutexes (Z.to_nat N)) (unset_rules fuel) [].
Proof.
  unfold unset_rules, all_mutexes. rewrite <- forks_from_0.
  apply (tidy_bind _ _ table_locks);
    [apply (tidy_unset_rules_from N table_locks fuel 0) | intros _].
  apply (tidy_bind _ _ [end_padlock; eat_padlock]);
    [now apply tidy_destroy | intros _].
  apply (tidy_bind _ _ [end_padlock]); [now apply tidy_destroy | intros _].
  now apply tidy_destroy.
Qed.

Lemma tame_end_dinner_from : forall fuel i,
  tame plain false (end_dinner_from fuel i).
Proof.
  induction fuel as [|fuel IH]; intros i; cbn [end_dinner_from];
    [apply tame_spin|].
  cbv zeta. apply tame_bind; [apply tame_read | intros n].
  destruct (i + 1 <? n); [|apply tame_ret].
  apply tame_bind; [now apply tame_syscall | intros _]. apply IH.
Qed.

(** [end_dinner] destroys all the mutexes of the table. *)
Lemma tidy_end_dinner N fuel :
  tidy N (all_mutexes (Z.to_nat N)) (end_dinner fuel) [].
Proof.
  unfold end_dinner, clean_table.
  apply (tidy_bind _ _ (all_mutexes (Z.to_nat N))).
  { apply (tidy_tame N plain); [apply tame_end_dinner_from | auto]. }
  intros _. apply (tidy_bind _ _ []); [apply tidy_unset_rules | intros _].
  apply (tidy_bind _ _ []); [|intros _]; now apply tidy_syscall.
Qed.

(** ** Mutexes initialised and destroyed by [set_rules] *)

Lemma tidy_unset_previous_forks_rules N rest : forall fuel j,
  tidy N (map fork_padlock (downfrom j) ++ rest)
    (unset_previous_forks_rules fuel (Z.of_nat j - 1)) rest.
Proof.
  induction fuel as [|fuel IH]; intros j; cbn [unset_previous_forks_rules];
    [apply tidy_spin|].
  destruct j as [|j].
  - change (Z.of_nat 0 - 1 <? 0) with true. apply tidy_ret.
  - destruct (Z.of_nat (S j) - 1 <? 0) eqn:E; [apply Z.ltb_lt in E; lia|].
    replace (Z.of_nat (S j) - 1 - 1) with (Z.of_nat j - 1) by lia.
    replace (Z.of_nat (S j) - 1) with (Z.of_nat j) by lia.
    rewrite downfrom_S. cbn [map app].
    apply (tidy_bind _ _ (map fork_padlock (downfrom j) ++ rest));
      [|intros _; apply IH].
    apply tidy_destroy. cbn [give_back mutex_eqb]. now rewrite Z.eqb_refl.
Qed.

Lemma tidy_set_forks_rules_from env N :
  cooperative env -> forall fuel j,
  (j <= Z.to_nat N)%nat ->
  tidy N (map fork_padlock (downfrom j) ++ table_locks)
    (set_forks_rules_from env fuel (Z.of_nat j - 1))
    (all_mutexes (Z.to_nat N)).
Proof.
  intros Hco. induction fuel as [|fuel IH]; intros j Hj;
    cbn [set_forks_rules_from]; [apply tidy_spin|].
  cbv zeta. replace (Z.of_nat j - 1 + 1) with (Z.of_nat j) by lia.
  apply tidy_read_count. destruct (Z.of_nat j <? N) eqn:E.
  - apply Z.ltb_lt in E. apply tidy_init; [now apply fork_not_alive|].
    destruct (mutex_init_result env (fork_padlock (Z.of_nat j)) =? 0);
      cbn [negb].
    + replace (Z.of_nat j) with (Z.of_nat (S j) - 1) by lia.
      rewrite app_comm_cons.
      change (fork_padlock (Z.of_nat (S j) - 1)) with
        (fork_padlock (Z.of_nat (S j) - 1)).
      replace (Z.of_nat (S j) - 1) with (Z.of_nat j) at 1 by lia.
      change (fork_padlock (Z.of_nat j) :: map fork_padlock (downfrom j))
        with (map fork_padlock (Z.of_nat j :: downfrom j)).
      rewrite <- downfrom_S. apply IH. lia.
    + apply (tidy_bind _ _ (map fork_padlock (downfrom j) ++ table_locks));
        [now apply tidy_ft_putstr_fd | intros _].
      apply (tidy_bind _ _ table_locks);
        [apply tidy_unset_previous_forks_rules | intros _].
      apply (tidy_bind _ _ [end_padlock; eat_padlock]);
        [now apply tidy_destroy | intros _].
      apply (tidy_bind _ _ [end_padlock]);
        [now apply tidy_destroy | intros _].
      apply (tidy_bind _ _ []); [now apply tidy_destroy | intros _].
      apply tidy_exit.
  - apply Z.ltb_ge in E. replace j with (Z.to_nat N) by lia. apply tidy_ret.
Qed.

Lemma tidy_set_rules env N fuel :
  cooperative env ->
  tidy N [] (set_rules env fuel) (all_mutexes (Z.to_nat N)).
Proof.
  intros Hco. unfold set_rules, set_forks_rules.
  apply tidy_init; [reflexivity|].
  apply (tidy_bind _ _ [print_padlock]).
  { destruct (mutex_init_result env print_padlock =? 0); cbn [negb];
      [apply tidy_ret|].
    apply (tidy_bind _ _ []); [now apply tidy_ft_putstr_fd | intros _].
    apply tidy_exit. }
  intros _. apply tidy_init; [reflexivity|].
  apply (tidy_bind _ _ [eat_padlock; print_padlock]).
  { destruct (mutex_init_result env eat_padlock =? 0); cbn [negb];
      [apply tidy_ret|].
    apply (tidy_bind _ _ [print_padlock]);
      [now apply tidy_ft_putstr_fd | intros _].
    apply (tidy_bind _ _ []); [now apply tidy_destroy | intros _].
    apply tidy_exit. }
  intros _. apply tidy_init; [reflexivity|].
  apply (tidy_bind _ _ table_locks).
  { destruct (mutex_init_result env end_padlock =? 0); cbn [negb];
      [apply tidy_ret|].
    apply (tidy_bind _ _ [eat_padlock; print_padlock]);
      [now apply tidy_ft_putstr_fd | intros _].
    apply (tidy_bind _ _ [eat_padlock]); [now apply tidy_destroy | intros _].
    apply (tidy_bind _ _ []); [now apply tidy_destroy | intros _].
    apply tidy_exit. }
  intros _. apply (tidy_set_forks_rules_from env N Hco fuel 0). lia.
Qed.

(** ** The whole run *)

Lemma tidy_seat_philosophers_from env N :
  cooperative env -> forall fuel i,
  tidy N (all_mutexes (Z.to_nat N)) (seat_philosophers_from env fuel i)
    (all_mutexes (Z.to_nat N)).
Proof.
  intros Hco. induction fuel as [|fuel IH]; intros i;
    cbn [seat_philosophers_from]; [apply tidy_spin|].
  cbv zeta. apply tidy_read_count.
  destruct (i + 1 <? N); [|apply tidy_ret].
  apply (tidy_bind _ _ (all_mutexes (Z.to_nat N)));
    [now apply tidy_syscall | intros err].
  destruct (negb (err =? 0)); [|apply IH].
  apply (tidy_bind _ _ (all_mutexes (Z.to_nat N)));
    [now apply tidy_ft_putstr_fd | intros _].
  apply (tidy_bind _ _ []); [apply tidy_end_dinner | intros _].
  apply tidy_exit.
Qed.

Lemma tidy_dinner_monitor env N fuel :
  tidy N (all_mutexes (Z.to_nat N)) (dinner_monitor env fuel) [].
Proof.
  unfold dinner_monitor.
  apply (tidy_bind _ _ (all_mutexes (Z.to_nat N)));
    [|intros _; apply tidy_end_dinner].
  apply (tidy_tame N monitor_event);
    [apply tame_dinner_monitor_from | apply monitor_event_plain].
Qed.

Lemma tidy_welcome_philosophers_from N : forall fuel i,
  tidy N [] (welcome_philosophers_from fuel i) [].
Proof.
  induction fuel as [|fuel IH]; intros i; cbn [welcome_philosophers_from];
    [apply tidy_spin|].
  cbv zeta. apply tidy_read_count.
  destruct (i + 1 <? N); [|apply tidy_ret].
  repeat (apply (tidy_bind _ _ []); [tidy_leaf | intros ?]).
  apply IH.
Qed.

Lemma tidy_welcome_philosophers env N fuel :
  tidy N [] (welcome_philosophers env fuel) [].
Proof.
  unfold welcome_philosophers, clean_table, malloc, free.
  apply (tidy_bind _ _ []); [tidy_leaf | intros got_philo].
  apply (tidy_bind _ _ []); [tidy_leaf | intros n].
  apply (tidy_bind _ _ []); [destruct got_philo; tidy_leaf | intros _].
  apply (tidy_bind _ _ []); [tidy_leaf | intros got_forks].
  apply (tidy_bind _ _ []).
  { destruct (negb got_philo || negb got_forks); [|apply tidy_ret].
    apply (tidy_bind _ _ []).
    - apply (tidy_tame_none N write_event true);
        [apply tame_ft_putstr_fd | apply write_event_plain].
    - intros _. repeat (apply (tidy_bind _ _ []); [tidy_leaf | intros ?]).
      tidy_leaf. }
  intros _. apply (tidy_bind _ _ []).
  { apply (tidy_tame N plain); [apply tame_get_current_time | auto]. }
  intros now. apply (tidy_bind _ _ []); [tidy_leaf | intros _].
  apply tidy_welcome_philosophers_from.
Qed.

Lemma tame_check_syntax env fuel : forall s,
  tame write_event true (check_syntax env fuel s).
Proof.
  induction s as [|c s IH]; cbn [check_syntax]; [apply tame_ret|].
  destruct ((char c <? char "0") || (char c >? char "9")); [|apply IH].
  repeat (apply tame_bind; [apply tame_ft_putstr_fd | intros ?]).
  apply tame_exit.
Qed.

Lemma tame_check_value env fuel value i :
  tame write_event true (check_value env fuel value i).
Proof.
  unfold check_value.
  repeat first
    [ apply tame_ft_putstr_fd | apply tame_exit | apply tame_ret
    | apply tame_bind; [|intros ?]
    | match goal with
      | |- tame _ _ (if ?b then _ else _) => destruct b
      end ].
Qed.

Lemma tame_validate_arguments_from env argc argv : forall fuel i,
  tame write_event true (validate_arguments_from env fuel i argc argv).
Proof.
  induction fuel as [|fuel IH]; intros i; cbn [validate_arguments_from];
    [apply tame_spin|].
  destruct (i <? argc); [|apply tame_ret].
  apply tame_bind; [apply tame_check_syntax | intros _]. cbv zeta.
  apply tame_bind; [apply tame_check_value | intros _]. apply IH.
Qed.

(** [receive_guests] does nothing but write on the standard error. *)
Lemma tame_receive_guests env fuel argc argv :
  tame write_event true (receive_guests env fuel argc argv).
Proof.
  unfold receive_guests, validate_argument_count, validate_arguments.
  apply tame_bind; [|intros _; apply tame_validate_arguments_from].
  destruct ((argc <? 5) || (argc >? 6)); [|apply tame_ret].
  repeat (apply tame_bind; [apply tame_ft_putstr_fd | intros ?]).
  apply tame_exit.
Qed.

Lemma ended_bind {A B} (c : M A) (f : A -> M B) w ms ms1 :
  (forall a, outcome_of (c w) = Returned a ->
             alive ms (emitted (c w)) = Some ms1) ->
  (forall s, outcome_of (c w) = Exited s ->
             alive ms (emitted (c w)) = Some []) ->
  (forall a, outcome_of (c w) = Returned a ->
             outcome_of (f a (after (c w))) <> Running ->
             alive ms1 (emitted (f a (after (c w)))) = Some []) ->
  outcome_of (bind c f w) <> Running ->
  alive ms (emitted (bind c f w)) = Some [].
Proof.
  intros Hr He Hf. unfold bind.
  destruct (outcome_of (c w)) as [a|s|]; cbn [emitted outcome_of].
  - intros Hend. rewrite alive_app, (Hr a eq_refl). now apply Hf.
  - intros _. now apply (He s).
  - now intros [].
Qed.

(** X11. Whenever [main] ends, by [return] or by [exit] on any of its error
    paths, every mutex that was initialised has been destroyed, once; no
    mutex is initialised twice and none is destroyed that is not
    initialised. *)
Theorem main_destroys_the_mutexes_it_initialises env fuel argc argv w :
  cooperative env ->
  outcome_of (main env fuel argc argv w) <> Running ->
  alive [] (emitted (main env fuel argc argv w)) = Some [].
Proof.
  intros Hco.
  assert (Hrest : tidy (ft_atoi (arg argv 1)) []
                    (welcome_philosophers env fuel ;;
                     set_rules env fuel ;;
                     seat_philosophers_at_the_table env fuel ;;
                     dinner_monitor env fuel ;;
                     ret EXIT_SUCCESS) []).
  { apply (tidy_bind _ _ []); [apply tidy_welcome_philosophers | intros _].
    apply (tidy_bind _ _ (all_mutexes (Z.to_nat (ft_atoi (arg argv 1)))));
      [now apply tidy_set_rules | intros _].
    apply (tidy_bind _ _ (all_mutexes (Z.to_nat (ft_atoi (arg argv 1))))).
    { unfold seat_philosophers_at_the_table.
      apply (tidy_bind _ _ (all_mutexes (Z.to_nat (ft_atoi (arg argv 1)))));
        [now apply tidy_seat_philosophers_from | intros _; apply tidy_ret]. }
    intros _. apply (tidy_bind _ _ []); [apply tidy_dinner_monitor|].
    intros _. apply tidy_ret. }
  assert (Hplain : alive [] (emitted (receive_guests env fuel argc argv w))
                   = Some []).
  { destruct (tame_receive_guests env fuel argc argv w) as (Hw & _ & _).
    apply alive_plain. rewrite forallb_forall in *.
    auto using write_event_plain. }
  unfold main. apply (ended_bind _ _ w [] []); [now intros | now intros |].
  intros _ _. generalize (after (receive_guests env fuel argc argv w)).
  intros w1. apply (ended_bind _ _ w1 [] []); [now intros | now intros |].
  intros _ _ Hend.
  match type of Hend with
  | outcome_of (?c ?w') <> _ => destruct (Hrest w' eq_refl) as [_ H]
  end.
  match type of H with
  | match ?o with _ => _ end =>
      destruct o; [exact H | exact H | now destruct Hend]
  end.
Qed.

Lemma main_destroys_the_mutexes_it_initialises_witness :
  alive [] (emitted (main after_one_round 10 6 two_one_meal blank)) = Some [].
Proof.
  apply (main_destroys_the_mutexes_it_initialises after_one_round).
  - intros k n. reflexivity.
  - vm_compute. discriminate.
Defined.

(** ** Waiting ([advance_time]) *)

Lemma advance_time_from_waits env p start time_to : forall fuel w,
  let r := advance_time_from env fuel p start time_to w in
  returned r = true ->
  end_flag (table (after r)) <> 0
  \/ time_to <= clock_ms env (calls (after r) - 1) - start.
Proof.
  induction fuel as [|fuel IH]; intros w; [discriminate|].
  cbv zeta. rewrite advance_time_from_round. cbv zeta.
  destruct (end_flag (flag_seen env (calls w) (table w)) =? 0) eqn:E;
    cbn [negb].
  2:{ intros _. left. cbn [after table]. now apply Z.eqb_neq. }
  destruct (clock_ms env (2 + calls w) - start <? time_to) eqn:E'.
  - unfold returned. cbn [outcome_of after]. apply IH.
  - intros _. right. cbn [after calls]. apply Z.ltb_ge in E'.
    now replace (3 + calls w - 1)%nat with (2 + calls w)%nat by lia.
Qed.

Lemma advance_time_returned env fuel p time_to w :
  let r := advance_time env fuel p time_to w in
  returned r = true ->
  end_flag (table (after r)) <> 0
  \/ time_to <= clock_ms env (calls (after r) - 1) - clock_ms env (calls w).
Proof.
  cbv zeta. unfold advance_time.
  rewrite (run_bind_then _ _ w _ _ _ (get_current_time_run env w)).
  unfold returned. cbn [outcome_of after].
  apply advance_time_from_waits.
Qed.

Lemma tame_advance_time env fuel p time_to :
  tame advance_event false (advance_time env fuel p time_to).
Proof.
  unfold advance_time.
  apply tame_bind; [apply tame_get_current_time | intros start].
  apply tame_advance_time_from.
Qed.



(** ** What holds when a computation returns *)

Lemma hoare_bind {A B} pre mid post (c : M A) (f : A -> M B) :
  hoare pre c mid -> (forall a, hoare (mid a) (f a) post) ->
  hoare pre (bind c f) post.
Proof.
  intros Hc Hf w Hpre b. unfold bind.
  destruct (outcome_of (c w)) as [a|s|] eqn:E;
    cbn [outcome_of after]; [|discriminate..].
  apply (Hf a); now apply Hc.
Qed.

Lemma hoare_weaken {A} (pre pre' : world -> Prop)
    (post post' : A -> world -> Prop) (c : M A) :
  hoare pre' c post' -> (forall w, pre w -> pre' w) ->
  (forall a w, post' a w -> post a w) -> hoare pre c post.
Proof. intros Hc Hpre Hpost w Hw a Ha. apply Hpost, Hc; auto. Qed.

Lemma hoare_ret {A} (pre : world -> Prop) (a : A) :
  hoare pre (ret a) (fun a' w => a' = a /\ pre w).
Proof. intros w Hpre a' [= <-]. now split. Qed.

Lemma hoare_spin {A} pre post : hoare pre (@spin A) post.
Proof. intros w _ a. discriminate. Qed.

Lemma hoare_exit {A} pre post s : hoare pre (@exit A s) post.
Proof. intros w _ a. discriminate. Qed.

Lemma hoare_read {A} pre (f : t_table -> A) :
  hoare pre (read f) (fun a w => a = f (table w) /\ pre w).
Proof. intros w Hpre a [= <-]. now split. Qed.

Lemma hoare_hushed {A} (c : M A) :
  hushed c -> hoare flag_up c (fun _ => flag_up).
Proof. intros Hc w Hw a _. now apply Hc. Qed.

(** ** The monitor stops on the flag *)

Lemma is_someone_dead_or_full_stops env p :
  hoare (fun _ => True) (is_someone_dead_or_full env p)
    (fun stop w => stop = true -> flag_up w).
Proof.
  intros w _ stop. unfold flag_up.
  destruct (starved env p w) eqn:Hs.
  { rewrite is_someone_dead_or_full_starved by assumption. cbv zeta.
    intros _ _. cbn [after table]. now destruct (flag_seen _ _ _). }
  destruct (fed env p w) eqn:Hf.
  2:{ rewrite is_someone_dead_or_full_hungry by assumption.
      intros [= <-]. discriminate. }
  destruct (all_fed env w) eqn:Ha.
  2:{ rewrite is_someone_dead_or_full_fed by assumption.
      intros [= <-]. discriminate. }
  rewrite is_someone_dead_or_full_all_fed by assumption. cbv zeta.
  intros _ _. cbn [after table]. now rewrite flag_seen_raised.
Qed.

Lemma dinner_monitor_pass_stops env : forall fuel i continue_flag,
  hoare (fun w => continue_flag <> 0 \/ flag_up w)
    (dinner_monitor_pass env fuel i continue_flag)
    (fun continue_flag' w => continue_flag' <> 0 \/ flag_up w).
Proof.
  induction fuel as [|fuel IH]; intros i cf; cbn [dinner_monitor_pass];
    [apply hoare_spin|]. cbv zeta.
  eapply hoare_bind; [apply hoare_read | intros n]. cbv beta.
  destruct (i + 1 <? n).
  2:{ eapply hoare_weaken; [apply hoare_ret | |].
      - intros w Hw. exact Hw.
      - intros a w [-> [_ Hw]]. exact Hw. }
  destruct (cf =? 0) eqn:E; cbn [negb].
  { eapply hoare_weaken; [apply IH | | auto]. now intros w [_ Hw]. }
  apply Z.eqb_neq in E.
  apply (hoare_bind _ (fun stop w => stop = true -> flag_up w)).
  { eapply hoare_weaken;
      [apply is_someone_dead_or_full_stops | now intros
      | intros a w Hw; exact Hw]. }
  intros [|]; (eapply hoare_weaken; [apply IH | | auto]); cbv beta.
  - intros w Hw. right. now apply Hw.
  - intros w _. now left.
Qed.

Lemma dinner_monitor_from_stops env : forall fuel continue_flag,
  hoare (fun w => continue_flag <> 0 \/ flag_up w)
    (dinner_monitor_from env fuel continue_flag) (fun _ => flag_up).
Proof.
  induction fuel as [|fuel IH]; intros cf; cbn [dinner_monitor_from];
    [apply hoare_spin|].
  destruct (cf =? 0) eqn:E; cbn [negb].
  { apply Z.eqb_eq in E. intros w [Hcf|Hw] a _; [contradiction | exact Hw]. }
  apply Z.eqb_neq in E.
  apply (hoare_bind _ (fun _ w => cf <> 0 \/ flag_up w)).
  { intros w _ a _. now left. }
  intros _.
  apply (hoare_bind _ (fun cf' w => cf' <> 0 \/ flag_up w));
    [apply dinner_monitor_pass_stops | intros cf'].
  apply (hoare_bind _ (fun _ w => cf' <> 0 \/ flag_up w));
    [|intros _; apply IH].
  intros w Hw a _. exact Hw.
Qed.

(** X13. The monitor leaves its loop, and [dinner_monitor] joins the
    threads and returns, only with the end flag up; and all the loop does
    is to take and give back [eat_padlock], [print_padlock] and
    [end_padlock], never a fork, to print and to sleep 10 microseconds
    at a time. *)
Theorem dinner_monitor_returns_with_the_flag_up env fuel w :
  (returned (dinner_monitor_from env fuel 1 w) = true ->
   end_flag (table (after (dinner_monitor_from env fuel 1 w))) <> 0)
  /\ (returned (dinner_monitor env fuel w) = true ->
      end_flag (table (after (dinner_monitor env fuel w))) <> 0)
  /\ forallb monitor_event (emitted (dinner_monitor_from env fuel 1 w))
     = true.
Proof.
  assert (Hloop : hoare (fun _ => True) (dinner_monitor_from env fuel 1)
                    (fun _ => flag_up)).
  { eapply hoare_weaken;
      [apply dinner_monitor_from_stops | intros w' _; now left
      | intros a w' Hw; exact Hw]. }
  assert (Hall : hoare (fun _ => True) (dinner_monitor env fuel)
                   (fun _ => flag_up)).
  { unfold dinner_monitor.
    apply (hoare_bind _ (fun _ => flag_up)); [exact Hloop | intros _].
    apply hoare_hushed, hushed_end_dinner. }
  split; [|split].
  - unfold returned. specialize (Hloop w I).
    destruct (outcome_of (dinner_monitor_from env fuel 1 w)) as [a| |];
      try discriminate. intros _. now apply (Hloop a).
  - unfold returned. specialize (Hall w I).
    destruct (outcome_of (dinner_monitor env fuel w)) as [a| |];
      try discriminate. intros _. now apply (Hall a).
  - apply tame_dinner_monitor_from.
Qed.

(** ** The philosopher who sits alone ([lone_philosopher]) *)

Lemma advance_event_logged es :
  forallb advance_event es = true -> logged es = [].
Proof.
  induction es as [|e es IH]; [reflexivity|]. cbn [forallb].
  intros H. apply andb_true_iff in H as [He Hes].
  destruct e; try discriminate He; cbn [logged flat_map app]; now apply IH.
Qed.

Lemma advance_time_logged env fuel p time_to w :
  logged (emitted (advance_time env fuel p time_to w)) = [].
Proof. apply advance_event_logged, tame_advance_time. Qed.

Lemma hushed_advance_time env fuel p time_to :
  hushed (advance_time env fuel p time_to).
Proof.
  intros w Hup. split; [apply advance_time_logged|].
  unfold advance_time.
  rewrite (run_bind_then _ _ w _ _ _ (get_current_time_run env w)).
  cbn [after]. destruct fuel as [|fuel]; [exact Hup|].
  rewrite advance_time_from_round. cbv zeta. cbn [table calls].
  pose proof (flag_seen_up env (S (calls w)) _ Hup) as Hup'.
  apply Z.eqb_neq in Hup'. rewrite Hup'. cbn [negb after table].
  now apply Z.eqb_neq.
Qed.

Lemma hoare_any {A} pre (c : M A) : hoare pre c (fun _ _ => True).
Proof. now intros w _ a _. Qed.

Lemma lone_philosopher_raises env fuel w :
  returned (lone_philosopher env fuel w) = true ->
  end_flag (table (after (lone_philosopher env fuel w))) = 1.
Proof.
  assert (H : hoare (fun _ => True) (lone_philosopher env fuel)
                (fun _ w' => end_flag (table w') = 1)).
  { unfold lone_philosopher.
    apply (hoare_bind _ (fun _ _ => True)); [apply hoare_any | intros _].
    apply (hoare_bind _ (fun _ _ => True)); [apply hoare_any | intros die].
    apply (hoare_bind _ (fun _ _ => True)); [apply hoare_any | intros _].
    apply (hoare_bind _ (fun _ _ => True)); [apply hoare_any | intros _].
    apply (hoare_bind _ (fun _ w' => end_flag (table w') = 1)).
    - intros w' _ a _. now rewrite is_dinner_over_raise.
    - intros _ w' Hw' a _. exact Hw'. }
  unfold returned. specialize (H w I).
  destruct (outcome_of (lone_philosopher env fuel w)) as [a| |];
    try discriminate. intros _. now apply (H a).
Qed.



(** ** What a computation leaves as it is *)

Lemma preserves_bind {A B C} (f : t_table -> C) (c : M A) (g : A -> M B) :
  preserves f c -> (forall a, preserves f (g a)) -> preserves f (bind c g).
Proof.
  intros Hc Hg w. unfold bind.
  destruct (outcome_of (c w)) as [a|s|]; cbn [after]; [|apply Hc..].
  now rewrite Hg, Hc.
Qed.

Lemma preserves_ret {A C} (f : t_table -> C) (a : A) : preserves f (ret a).
Proof. now intros w. Qed.

Lemma preserves_spin {A C} (f : t_table -> C) : preserves f (@spin A).
Proof. now intros w. Qed.

Lemma preserves_read {A C} (f : t_table -> C) (g : t_table -> A) :
  preserves f (read g).
Proof. now intros w. Qed.

Lemma preserves_syscall {A C} (f : t_table -> C) e (a : A) :
  preserves f (syscall e a).
Proof. now intros w. Qed.

Lemma preserves_get_current_time {C} env (f : t_table -> C) :
  preserves f (get_current_time env).
Proof. now intros w. Qed.

Lemma preserves_write_table {C} (f : t_table -> C) g :
  (forall t, f (g t) = f t) -> preserves f (write_table g).
Proof. intros Hg w. apply Hg. Qed.

(** Only under [eat_padlock] do the philosophers change. *)
Lemma preserves_philo_lock env m :
  m <> eat_padlock -> preserves philo (pthread_mutex_lock env m).
Proof.
  intros Hm w. destruct m as [i| | |]; try reflexivity; [contradiction|].
  apply (flag_seen_frame env (calls w) (table w)).
Qed.

Lemma preserves_philo_is_dinner_over env p end_ :
  preserves philo (is_dinner_over env p end_).
Proof.
  unfold is_dinner_over, pthread_mutex_unlock.
  apply preserves_bind; [now apply preserves_philo_lock | intros _].
  apply preserves_bind; [apply preserves_read | intros flag].
  destruct (end_ || negb (flag =? 0)).
  - apply preserves_bind.
    + destruct end_; [now apply preserves_write_table | apply preserves_ret].
    + intros _. apply preserves_bind; [apply preserves_syscall | intros _].
      apply preserves_ret.
  - apply preserves_bind; [apply preserves_syscall | intros _].
    apply preserves_ret.
Qed.

Lemma preserves_philo_print_action env p action :
  preserves philo (print_action env p action).
Proof.
  intros w. rewrite print_action_run. cbv zeta. cbn [after table].
  apply (flag_seen_frame env (S (calls w)) (table w)).
Qed.

Lemma preserves_philo_advance_time_from env p start time_to : forall fuel,
  preserves philo (advance_time_from env fuel p start time_to).
Proof.
  induction fuel as [|fuel IH]; cbn [advance_time_from];
    [apply preserves_spin|].
  apply preserves_bind; [apply preserves_philo_is_dinner_over | intros over].
  destruct over; [apply preserves_ret|].
  apply preserves_bind; [apply preserves_get_current_time | intros now].
  destruct (now - start <? time_to); [|apply preserves_ret].
  apply preserves_bind; [apply preserves_syscall | intros _]. apply IH.
Qed.

Lemma preserves_philo_advance_time env fuel p time_to :
  preserves philo (advance_time env fuel p time_to).
Proof.
  unfold advance_time.
  apply preserves_bind; [apply preserves_get_current_time | intros start].
  apply preserves_philo_advance_time_from.
Qed.

Lemma hoare_preserves {A C} (f : t_table -> C) (c : M A) x :
  preserves f c ->
  hoare (fun w => f (table w) = x) c (fun _ w => f (table w) = x).
Proof. intros Hc w Hw a _. now rewrite Hc. Qed.

(** ** The meal is counted ([dinner_time]) *)

(** The meals of the others leave a philosopher's own entry alone. *)
Lemma other_meals_deref p ms : forall t,
  ~ In p (map fst ms) ->
  deref p (fold_left other_meal ms t) = deref p t.
Proof.
  induction ms as [|m ms IH]; intros t Hp; [reflexivity|].
  cbn [fold_left map In] in *. rewrite IH by tauto.
  unfold other_meal, set_philo, deref. cbn [philo].
  rewrite list_lookup_insert_ne by tauto. reflexivity.
Qed.

(** What [dinner_time] does under [eat_padlock]. *)
Lemma dinner_time_counts env p w :
  (p < length (philo (table w)))%nat ->
  let q := deref p (table w) in
  let c :=
    write_table
      (set_philo p (fun q => set_meal_count (meal_count q + 1) q)) ;;
    now <- get_current_time env ;;
    write_table (set_philo p (set_last_meal now)) ;;
    pthread_mutex_unlock eat_padlock ;;
    r <- read (fun t => right_fork (deref p t)) ;;
    pthread_mutex_unlock (fork_padlock r) ;;
    l <- read (fun t => left_fork (deref p t)) ;;
    pthread_mutex_unlock (fork_padlock l) in
  outcome_of (c w) = Returned tt
  /\ calls (after (c w)) = (4 + calls w)%nat
  /\ deref p (table (after (c w))) =
       set_last_meal (clock_ms env (calls w))
         (set_meal_count (meal_count q + 1) q).
Proof.
  intros Hp. cbv zeta.
  match goal with
  | |- outcome_of (?c w) = _ /\ _ => eassert (H : c w = _)
  end.
  { etransitivity; [|reflexivity].
    eapply run_bind; [reflexivity|]. cbv beta.
    eapply run_bind; [apply get_current_time_run|]. cbv beta.
    eapply run_bind; [reflexivity|]. cbv beta.
    eapply run_bind; [reflexivity|]. cbv beta.
    eapply run_bind; [reflexivity|]. cbv beta.
    eapply run_bind; [reflexivity|]. cbv beta.
    eapply run_bind; [reflexivity|]. cbv beta. reflexivity. }
  rewrite H. cbn [outcome_of after calls table].
  split; [reflexivity|]. split; [reflexivity|].
  unfold set_philo, deref. cbn [philo].
  rewrite !list_lookup_insert_eq by (rewrite ?length_insert; exact Hp).
  reflexivity.
Qed.



(** ** The arguments ([receive_guests], [set_table]) *)

Lemma hoare_never {A B} pre post (c : M A) (f : A -> M B) :
  hoare pre c (fun _ _ => False) -> hoare pre (bind c f) post.
Proof.
  intros Hc. apply (hoare_bind _ (fun _ _ => False)); [exact Hc|].
  intros a w [].
Qed.

(** A message, then [exit]: no return. *)
Lemma hoare_complain {A} env pre post fuel str (c : M A) :
  hoare (fun _ => True) c (fun _ _ => False) ->
  hoare pre (ft_putstr_fd env fuel 2 str ;; c) post.
Proof.
  intros Hc w Hpre a. unfold bind.
  destruct (outcome_of (ft_putstr_fd env fuel 2 str w)); [|discriminate..].
  cbn [outcome_of]. intros H. now destruct (Hc _ I a H).
Qed.

Lemma hoare_pure {A} (P : Prop) post (c : M A) :
  (P -> hoare (fun _ => True) c post) -> hoare (fun _ => P) c post.
Proof. intros Hc w HP. now apply Hc. Qed.

Lemma check_syntax_returns env fuel s :
  hoare (fun _ => True) (check_syntax env fuel s)
    (fun _ _ => digits_only s = true).
Proof.
  induction s as [|c s IH]; cbn [check_syntax digits_only].
  - now intros w _ a _.
  - unfold is_digit.
    destruct ((char c <? char "0") || (char c >? char "9")).
    + apply hoare_complain, hoare_complain, hoare_exit.
    + exact IH.
Qed.

Lemma check_value_returns env fuel s i :
  digits_only s = true ->
  hoare (fun _ => True) (check_value env fuel (ft_atoi s) i)
    (fun _ _ => passes i s = true).
Proof.
  intros Hs. unfold check_value, passes. cbv zeta. rewrite Hs.
  destruct (ft_atoi s =? -1);
    [apply hoare_never, hoare_complain, hoare_exit|].
  destruct ((i =? 1) && ((ft_atoi s <=? 0) || (ft_atoi s >? MAX_PHILO))).
  { apply (hoare_bind _ (fun _ _ => True)); [apply hoare_any | intros _].
    apply hoare_never, hoare_complain, hoare_complain, hoare_exit. }
  destruct ((i =? 5) && (ft_atoi s <=? 0)).
  { do 2 (apply (hoare_bind _ (fun _ _ => True));
          [apply hoare_any | intros _]).
    apply hoare_never, hoare_complain, hoare_complain, hoare_exit. }
  destruct (((i >? 1) && (i <? 5)) && (ft_atoi s <? 1)).
  { do 3 (apply (hoare_bind _ (fun _ _ => True));
          [apply hoare_any | intros _]).
    apply hoare_complain, hoare_complain, hoare_complain, hoare_exit. }
  now intros w _ a _.
Qed.

Lemma validate_arguments_from_returns env argc argv : forall fuel i,
  hoare (fun _ => True) (validate_arguments_from env fuel i argc argv)
    (fun _ _ => forall j, i <= j < argc -> passes j (arg argv j) = true).
Proof.
  induction fuel as [|fuel IH]; intros i; cbn [validate_arguments_from];
    [apply hoare_spin|].
  destruct (i <? argc) eqn:E.
  2:{ intros w _ a _ j Hj. apply Z.ltb_ge in E. lia. }
  apply (hoare_bind _ (fun _ _ => digits_only (arg argv i) = true));
    [apply check_syntax_returns | intros _]. cbv zeta.
  apply hoare_pure. intros Hdig.
  apply (hoare_bind _ (fun _ _ => passes i (arg argv i) = true));
    [now apply check_value_returns | intros _].
  intros w Hi a Ha j Hj.
  destruct (Z.eq_dec j i) as [->|Hne]; [exact Hi|].
  apply (IH (i + 1) w I a Ha). lia.
Qed.

Lemma receive_guests_returns env fuel argc argv :
  hoare (fun _ => True) (receive_guests env fuel argc argv)
    (fun _ _ => acceptable argc argv = true).
Proof.
  unfold receive_guests, validate_argument_count, validate_arguments,
    acceptable.
  destruct ((argc <? 5) || (argc >? 6)) eqn:E.
  { apply hoare_never. do 5 apply hoare_complain. apply hoare_exit. }
  apply (hoare_bind _ (fun _ _ => True)); [apply hoare_any | intros _].
  eapply hoare_weaken; [apply validate_arguments_from_returns | auto |].
  cbv beta. intros a w H.
  apply orb_false_iff in E as [E1 E2].
  apply andb_true_iff. split; [apply andb_true_iff; lia|].
  apply forallb_forall. intros j Hj. apply H.
  unfold positions in Hj. apply in_map_iff in Hj as (k & <- & Hk).
  apply in_seq in Hk. lia.
Qed.

Lemma passes_range i s :
  passes i s = true ->
  0 <= ft_atoi s <= INT_MAX
  /\ (i = 1 -> 1 <= ft_atoi s <= MAX_PHILO)
  /\ (1 < i <= 5 -> 1 <= ft_atoi s).
Proof.
  unfold passes. cbv zeta. intros H.
  repeat (apply andb_true_iff in H as [H ?]).
  repeat match goal with
         | H : negb _ = true |- _ => apply negb_true_iff in H
         end.
  assert (Hspec : ft_atoi s =
            if INT_MAX <? decimal_value s then -1 else decimal_value s).
  { apply ft_atoi_from_spec; [unfold INT_MAX; lia | assumption]. }
  assert (Hpos : 0 <= decimal_value s).
  { apply decimal_value_from_mono; [lia | assumption]. }
  assert (Hrange : 0 <= ft_atoi s <= INT_MAX).
  { rewrite Hspec in *. destruct (INT_MAX <? decimal_value s) eqn:E; lia. }
  split; [exact Hrange|]. split.
  - intros ->. change (1 =? 1) with true in *. cbn [andb] in *. lia.
  - intros Hi. destruct (Z.eq_dec i 5) as [->|Hne].
    + change (5 =? 5) with true in *. cbn [andb] in *. lia.
    + assert (Hin : (i >? 1) && (i <? 5) = true) by lia.
      rewrite Hin in *. cbn [andb] in *. lia.
Qed.

(** X17. Whenever [receive_guests] returns, whatever [write] did, the
    arguments are four or five strings of digits in range, and the table
    [set_table] makes of them has 1 to 200 philosophers, times of 1 ms or
    more, a quota of 1 or more, or none (-1) without the fifth argument,
    and the end flag down. *)
Theorem set_table_after_validation env fuel argc argv w :
  let r := receive_guests env fuel argc argv w in
  returned r = true ->
  acceptable argc argv = true
  /\ well_set argc (table (after (set_table argc argv (after r)))).
Proof.
  cbv zeta. unfold returned. intros Hr.
  assert (Hok : acceptable argc argv = true).
  { pose proof (receive_guests_returns env fuel argc argv w I) as H.
    destruct (outcome_of (receive_guests env fuel argc argv w)) as [a| |];
      try discriminate. now apply (H a). }
  split; [exact Hok|].
  unfold acceptable in Hok.
  apply andb_true_iff in Hok as [Hargc Hall].
  apply andb_true_iff in Hargc as [H5 H6].
  rewrite forallb_forall in Hall.
  assert (Hpass : forall j, 1 <= j < argc -> passes j (arg argv j) = true).
  { intros j Hj. apply Hall. unfold positions.
    apply in_map_iff. exists (Z.to_nat j). split; [lia|].
    apply in_seq. lia. }
  unfold well_set, set_table, write_table.
  cbn [after table philosopher_count time_to_die time_to_eat time_to_sleep
       must_eat_count end_flag].
  pose proof (passes_range 1 _ (Hpass 1 ltac:(lia))) as (_ & H1 & _).
  pose proof (passes_range 2 _ (Hpass 2 ltac:(lia))) as (H2 & _ & H2').
  pose proof (passes_range 3 _ (Hpass 3 ltac:(lia))) as (H3 & _ & H3').
  pose proof (passes_range 4 _ (Hpass 4 ltac:(lia))) as (H4 & _ & H4').
  repeat split; try lia.
  destruct (argc =? 6) eqn:E; [|reflexivity].
  pose proof (passes_range 5 _ (Hpass 5 ltac:(lia))) as (H5a & _ & H5').
  lia.
Qed.

Lemma set_table_after_validation_witness :
  well_set 6
    (table (after (set_table 6 two_one_meal
                     (after (receive_guests calm 7 6 two_one_meal blank))))).
Proof.
  apply (set_table_after_validation calm 7 6 two_one_meal blank).
  reflexivity.
Defined.

Lemma forallb_false {A} (f : A -> bool) l :
  forallb f l = false -> exists x, In x l /\ f x = false.
Proof.
  induction l as [|x l IH]; cbn [forallb]; [discriminate|].
  destruct (f x) eqn:E; cbn [andb]; intros H.
  - destruct (IH H) as (y & Hy & Hf). exists y. split; [now right | exact Hf].
  - exists x. split; [now left | exact E].
Qed.

Lemma check_value_fails env fuel i s w :
  cooperative env -> (2 <= fuel)%nat ->
  digits_only s = true -> passes i s = false ->
  exists evs k,
    check_value env fuel (ft_atoi s) i w =
      mk_result evs (mk_world (table w) k) (Exited EXIT_FAILURE)
    /\ evs <> [].
Proof.
  intros Hco Hfuel Hs Hpass. unfold passes in Hpass. cbv zeta in Hpass.
  rewrite Hs in Hpass. cbn [andb] in Hpass.
  unfold check_value.
  destruct (ft_atoi s =? -1) eqn:E1.
  { eexists. eexists. split; [|shelve].
    eapply run_bind_exit. run. Unshelve. discriminate. }
  destruct ((i =? 1) && ((ft_atoi s <=? 0) || (ft_atoi s >? MAX_PHILO)))
    eqn:E2.
  { eexists. eexists. split; [|shelve].
    eapply run_bind; [reflexivity|]. eapply run_bind_exit. run.
    Unshelve. discriminate. }
  destruct ((i =? 5) && (ft_atoi s <=? 0)) eqn:E3.
  { eexists. eexists. split; [|shelve].
    do 2 (eapply run_bind; [reflexivity|]). eapply run_bind_exit. run.
    Unshelve. discriminate. }
  destruct (((i >? 1) && (i <? 5)) && (ft_atoi s <? 1)) eqn:E4.
  { eexists. eexists. split; [|shelve].
    do 3 (eapply run_bind; [reflexivity|]). run.
    Unshelve. discriminate. }
  discriminate Hpass.
Qed.

Lemma validate_arguments_from_passes env argc argv : forall fuel i w,
  (Z.to_nat (argc - i) < fuel)%nat ->
  (forall j, i <= j < argc -> passes j (arg argv j) = true) ->
  validate_arguments_from env fuel i argc argv w = ret tt w.
Proof.
  induction fuel as [|fuel IH]; intros i w Hfuel Hpass; [lia|].
  cbn [validate_arguments_from].
  destruct (i <? argc) eqn:E; [|reflexivity]. apply Z.ltb_lt in E.
  assert (Hi : passes i (arg argv i) = true) by (apply Hpass; lia).
  assert (Hdig : digits_only (arg argv i) = true).
  { unfold passes in Hi. cbv zeta in Hi.
    now repeat (apply andb_true_iff in Hi as [Hi _]). }
  erewrite run_bind; [| now apply check_syntax_passes |].
  2:{ cbv zeta. eapply run_bind; [now apply check_value_passes|].
      apply IH; [lia | intros j Hj; apply Hpass; lia]. }
  reflexivity.
Qed.

Lemma validate_arguments_from_rejects env argc argv :
  cooperative env -> forall fuel i w,
  (2 <= fuel)%nat -> (Z.to_nat (argc - i) < fuel)%nat ->
  (exists j, i <= j < argc /\ passes j (arg argv j) = false) ->
  exists evs k,
    validate_arguments_from env fuel i argc argv w =
      mk_result evs (mk_world (table w) k) (Exited EXIT_FAILURE)
    /\ evs <> [].
Proof.
  intros Hco. induction fuel as [|fuel IH];
    intros i w Hfuel2 Hfuel (j & Hj & Hbad); [lia|].
  cbn [validate_arguments_from].
  destruct (i <? argc) eqn:E; [|apply Z.ltb_ge in E; lia].
  destruct (digits_only (arg argv i)) eqn:Hdig.
  2:{ eexists. eexists. split; [|shelve].
      eapply run_bind_exit. now apply check_syntax_rejects.
      Unshelve. discriminate. }
  destruct (passes i (arg argv i)) eqn:Hi.
  2:{ destruct (check_value_fails env (S fuel) i _ w Hco Hfuel2 Hdig Hi)
        as (evs & k & Hrun & Hne).
      exists evs, k. split; [|exact Hne]. change evs with ([] ++ evs).
      eapply run_bind; [now apply check_syntax_passes|]. cbv zeta.
      eapply run_bind_exit. exact Hrun. }
  assert (Hji : j <> i) by congruence.
  assert (Hlater : exists j', i + 1 <= j' < argc
                              /\ passes j' (arg argv j') = false).
  { exists j. split; [lia | exact Hbad]. }
  destruct (IH (i + 1) w ltac:(lia) ltac:(lia) Hlater)
    as (evs & k & Hrun & Hne).
  exists evs, k. split; [|exact Hne]. change evs with ([] ++ [] ++ evs).
  eapply run_bind; [now apply check_syntax_passes|]. cbv zeta.
  eapply run_bind; [now apply check_value_passes|]. exact Hrun.
Qed.



(** ** Writing a string ([ft_putstr_fd]) *)

Lemma substring_nil n m : substring n m EmptyString = EmptyString.
Proof. now destruct n, m. Qed.

Lemma substring_none s : forall n, substring n 0 s = EmptyString.
Proof. induction s as [|c s IH]; intros [|n]; cbn [substring]; auto. Qed.

Lemma substring_substring s : forall a b v,
  (v <= b)%nat -> substring 0 v (substring a b s) = substring a v s.
Proof.
  induction s as [|c s IH]; intros a b v Hv.
  - now rewrite !substring_nil.
  - destruct a as [|a]; cbn [substring].
    + destruct b as [|b]; [now replace v with 0%nat by lia|].
      destruct v as [|v]; [reflexivity|]. cbn [substring].
      f_equal. apply (IH 0%nat). lia.
    + now apply IH.
Qed.

Lemma substring_app s : forall a b c,
  (substring a b s ++ substring (a + b) c s)%string = substring a (b + c) s.
Proof.
  induction s as [|ch s IH]; intros a b c.
  - now rewrite !substring_nil.
  - destruct a as [|a]; cbn [substring Nat.add].
    + destruct b as [|b]; cbn [Nat.add String.append]; [reflexivity|].
      f_equal. apply (IH 0%nat).
    + apply IH.
Qed.

Lemma substring_length s : forall a b,
  (a + b <= String.length s)%nat -> String.length (substring a b s) = b.
Proof.
  induction s as [|c s IH]; intros a b H; cbn [String.length] in H.
  - rewrite substring_nil. cbn [String.length]. lia.
  - destruct a as [|a]; cbn [substring].
    + destruct b as [|b]; [reflexivity|]. cbn [String.length].
      f_equal. apply (IH 0%nat). lia.
    + apply IH. lia.
Qed.

Lemma ft_putstr_fd_from_writes env fd str :
  sane env -> forall fuel t w,
  (t <= String.length str)%nat ->
  let r := ft_putstr_fd_from env fuel fd str (Z.of_nat t) (ft_strlen str) w in
  table (after r) = table w
  /\ (exists n, (t <= n <= String.length str)%nat
                /\ written fd (emitted r) = substring t (n - t) str
                /\ (forall v, outcome_of r = Returned v ->
                              v = ft_strlen str /\ n = String.length str))
  /\ (forall s, outcome_of r = Exited s ->
        s = EXIT_FAILURE
        /\ exists errno, errno <> EINTR /\ In (WriteFailed fd errno) (emitted r)).
Proof.
  intros Hsane. unfold ft_strlen.
  induction fuel as [|fuel IH]; intros t w Ht; cbv zeta;
    cbn [ft_putstr_fd_from].
  { split; [reflexivity|]. split; [|discriminate].
    exists t. rewrite Nat.sub_diag, substring_none.
    repeat split; [lia.. | discriminate | discriminate]. }
  destruct (Z.of_nat t <? Z.of_nat (String.length str)) eqn:E.
  2:{ apply Z.ltb_ge in E. split; [reflexivity|]. split; [|discriminate].
      exists t. rewrite Nat.sub_diag, substring_none.
      repeat split; try lia; injection H as <-; lia. }
  apply Z.ltb_lt in E.
  rewrite Nat2Z.id.
  replace (Z.to_nat (Z.of_nat (String.length str) - Z.of_nat t))
    with (String.length str - t)%nat by lia.
  set (buf := substring t (String.length str - t) str).
  assert (Hbuf : String.length buf = (String.length str - t)%nat)
    by (apply substring_length; lia).
  unfold bind, sys_write. cbn [outcome_of after emitted].
  set (r := write_result env (calls w) (Z.of_nat (String.length buf))).
  destruct (Hsane (calls w) (Z.of_nat (String.length buf)) ltac:(lia))
    as [Hfail|Hv]; fold r in Hfail || fold r in Hv.
  - rewrite Hfail. cbn [Z.eqb Pos.eqb].
    destruct (snd r =? EINTR) eqn:Eerr.
    + destruct (IH t (mk_world (table w) (S (calls w))) Ht)
        as (Htab & (n & Hn & Hw & Hret) & Hexit).
      cbv zeta in *. cbn [emitted after outcome_of app written].
      split; [exact Htab|]. split.
      * exists n. auto.
      * intros s Hs. destruct (Hexit s Hs) as (-> & errno & He & Hin).
        split; [reflexivity|]. exists errno. split; [exact He | now right].
    + cbn [exit emitted after outcome_of app written table].
      split; [reflexivity|]. split.
      * exists t. rewrite Nat.sub_diag, substring_none.
        repeat split; [lia.. | discriminate | discriminate].
      * intros s [= <-]. split; [reflexivity|].
        exists (snd r). split; [now apply Z.eqb_neq | now left].
  - destruct (fst r =? -1) eqn:E1; [apply Z.eqb_eq in E1; lia|].
    replace (Z.of_nat t + fst r) with (Z.of_nat (t + Z.to_nat (fst r)))
      by lia.
    destruct (IH (t + Z.to_nat (fst r))%nat
                (mk_world (table w) (S (calls w))) ltac:(lia))
      as (Htab & (n & Hn & Hw & Hret) & Hexit).
    cbv zeta in *. cbn [emitted after outcome_of app written].
    rewrite Z.eqb_refl.
    split; [exact Htab|]. split.
    + exists n. split; [lia|]. split; [|exact Hret].
      rewrite Hw. unfold buf. rewrite substring_substring by lia.
      rewrite substring_app. f_equal. lia.
    + intros s Hs. destruct (Hexit s Hs) as (-> & errno & He & Hin).
      split; [reflexivity|]. exists errno. split; [exact He | now right].
Qed.

(** X18. Where [write] returns -1 or a count that is no more than it was
    offered, what [ft_putstr_fd] has written on [fd] is at any time a
    prefix of the string: after a short write it goes on from where the
    write stopped, and after a write interrupted ([EINTR]) it tries again.
    When it returns, the whole string is written, once, and its length is
    returned; it exits, with [EXIT_FAILURE], only after a write that
    failed with another error. The table is not written. *)
Theorem ft_putstr_fd_writes_the_string env fuel fd str w :
  sane env ->
  let r := ft_putstr_fd env fuel fd str w in
  table (after r) = table w
  /\ (exists n, written fd (emitted r) = substring 0 n str)
  /\ (forall v, outcome_of r = Returned v ->
                v = ft_strlen str /\ written fd (emitted r) = str)
  /\ (forall s, outcome_of r = Exited s ->
        s = EXIT_FAILURE
        /\ exists errno, errno <> EINTR /\ In (WriteFailed fd errno) (emitted r)).
Proof.
  intros Hsane. cbv zeta. unfold ft_putstr_fd.
  destruct (ft_putstr_fd_from_writes env fd str Hsane fuel 0%nat w
              ltac:(lia)) as (Htab & (n & Hn & Hw & Hret) & Hexit).
  cbv zeta in *. change (Z.of_nat 0) with 0 in *.
  split; [exact Htab|]. split; [|split; [|exact Hexit]].
  - exists (n - 0)%nat. exact Hw.
  - intros v Hv. destruct (Hret v Hv) as [-> ->]. split; [reflexivity|].
    rewrite Hw, Nat.sub_0_r. apply substring_all.
Qed.

Lemma ft_putstr_fd_writes_the_string_witness :
  written 2 (emitted (ft_putstr_fd choppy 10 2 "Usage: " blank))
    = "Usage: "%string.
Proof.
  destruct (ft_putstr_fd_writes_the_string choppy 10 2 "Usage: " blank)
    as (_ & _ & H & _).
  - intros k n Hn. unfold choppy. cbn [write_result].
    destruct (k =? 0)%nat; cbn [fst]; lia.
  - now apply (H 7).
Defined.

(** ** The end of the dinner ([end_dinner]) *)

Lemma end_dinner_from_run : forall d j fuel w,
  philosopher_count (table w) = Z.of_nat (j + d) -> (d < fuel)%nat ->
  end_dinner_from fuel (Z.of_nat j - 1) w =
    mk_result (map Joined (seq j d)) (mk_world (table w) (d + calls w))
      (Returned tt).
Proof.
  induction d as [|d IH]; intros j fuel w HN Hfuel;
    (destruct fuel as [|fuel]; [lia|]); cbn [end_dinner_from]; cbv zeta;
    replace (Z.of_nat j - 1 + 1) with (Z.of_nat j) by lia;
    (erewrite run_bind; [| reflexivity |]).
  2:{ cbv beta. rewrite HN.
      destruct (Z.of_nat j <? Z.of_nat (j + 0)) eqn:E;
        [apply Z.ltb_lt in E; lia | reflexivity]. }
  3:{ cbv beta. rewrite HN.
      destruct (Z.of_nat j <? Z.of_nat (j + S d)) eqn:E;
        [|apply Z.ltb_ge in E; lia].
      rewrite Nat2Z.id.
      eapply run_bind; [reflexivity|]. cbv beta.
      replace (Z.of_nat j) with (Z.of_nat (S j) - 1) by lia.
      apply IH; [cbn [table]; rewrite HN; f_equal; lia | lia]. }
  - now destruct w.
  - cbn [seq map app table calls]. do 2 f_equal. lia.
Qed.

Lemma unset_rules_from_run : forall d j fuel w,
  philosopher_count (table w) = Z.of_nat (j + d) -> (d < fuel)%nat ->
  unset_rules_from fuel (Z.of_nat j - 1) w =
    mk_result
      (map (fun i => MutexDestroy (fork_padlock i)) (map Z.of_nat (seq j d)))
      (mk_world (table w) (d + calls w)) (Returned tt).
Proof.
  induction d as [|d IH]; intros j fuel w HN Hfuel;
    (destruct fuel as [|fuel]; [lia|]); cbn [unset_rules_from]; cbv zeta;
    replace (Z.of_nat j - 1 + 1) with (Z.of_nat j) by lia;
    (erewrite run_bind; [| reflexivity |]).
  2:{ cbv beta. rewrite HN.
      destruct (Z.of_nat j <? Z.of_nat (j + 0)) eqn:E;
        [apply Z.ltb_lt in E; lia | reflexivity]. }
  3:{ cbv beta. rewrite HN.
      destruct (Z.of_nat j <? Z.of_nat (j + S d)) eqn:E;
        [|apply Z.ltb_ge in E; lia].
      eapply run_bind; [reflexivity|]. cbv beta.
      replace (Z.of_nat j) with (Z.of_nat (S j) - 1) by lia.
      apply IH; [cbn [table]; rewrite HN; f_equal; lia | lia]. }
  - now destruct w.
  - cbn [seq map app table calls]. do 2 f_equal. lia.
Qed.

Lemma end_dinner_run n fuel w :
  philosopher_count (table w) = Z.of_nat n -> (n < fuel)%nat ->
  end_dinner fuel w =
    mk_result (teardown n) (mk_world (table w) (5 + (n + (n + calls w))))
      (Returned tt).
Proof.
  intros HN Hfuel. unfold end_dinner, unset_rules, clean_table, teardown.
  etransitivity.
  - eapply run_bind; [apply (end_dinner_from_run n 0); [exact HN | lia]|].
    eapply run_bind.
    { eapply run_bind;
        [apply (unset_rules_from_run n 0); [exact HN | lia]|].
      do 2 (eapply run_bind; [reflexivity|]). reflexivity. }
    eapply run_bind; reflexivity.
  - cbn [table calls Nat.add]. rewrite <- !app_assoc. reflexivity.
Qed.

(** X20. [end_dinner] joins the threads of all the philosophers, from the
    first, then destroys the fork mutexes from the first, then
    [print_padlock], [eat_padlock] and [end_padlock], then frees the two
    arrays: [2 * philosopher_count + 5] system calls, and the table is as
    it was. *)
Theorem end_dinner_joins_destroys_frees fuel w :
  0 <= philosopher_count (table w) ->
  (Z.to_nat (philosopher_count (table w)) < fuel)%nat ->
  let n := Z.to_nat (philosopher_count (table w)) in
  end_dinner fuel w =
    mk_result (teardown n) (mk_world (table w) (2 * n + 5 + calls w))
      (Returned tt).
Proof.
  intros HN Hfuel n. rewrite (end_dinner_run n) by (subst n; lia).
  do 2 f_equal. lia.
Qed.

Lemma end_dinner_joins_destroys_frees_witness :
  emitted (end_dinner 3 two_seated) =
    [Joined 0%nat; Joined 1%nat;
     MutexDestroy (fork_padlock 0); MutexDestroy (fork_padlock 1);
     MutexDestroy print_padlock; MutexDestroy eat_padlock;
     MutexDestroy end_padlock; Free; Free].
Proof.
  rewrite (end_dinner_joins_destroys_frees 3 two_seated).
  - reflexivity.
  - cbn. lia.
  - cbn. lia.
Defined.

(** ** The threads ([seat_philosophers_at_the_table]) *)

Lemma seat_philosophers_from_fails env n :
  cooperative env -> forall d j fuel w,
  philosopher_count (table w) = Z.of_nat n -> (j + d < n)%nat ->
  (forall i, (j <= i < j + d)%nat -> pthread_create_result env i = 0) ->
  pthread_create_result env (j + d) <> 0 ->
  (n + d + 2 <= fuel)%nat ->
  seat_philosophers_from env fuel (Z.of_nat j - 1) w =
    mk_result
      (map (fun i => Created i 0) (seq j d)
       ++ [Created (j + d) (pthread_create_result env (j + d));
           Wrote 2 ("Couldn't seat the philosophers" ++ nl)]
       ++ teardown n)
      (mk_world (table w) (d + (7 + (n + (n + calls w)))))
      (Exited EXIT_FAILURE).
Proof.
  intros Hco. induction d as [|d IH]; intros j fuel w HN Hj Hok Hbad Hfuel;
    (destruct fuel as [|fuel]; [lia|]); cbn [seat_philosophers_from];
    cbv zeta; replace (Z.of_nat j - 1 + 1) with (Z.of_nat j) by lia;
    (erewrite run_bind; [| reflexivity |]);
    try (cbv beta; rewrite HN;
         destruct (Z.of_nat j <? Z.of_nat n) eqn:E;
         [|apply Z.ltb_ge in E; lia]; rewrite Nat2Z.id).
  2:{ eapply run_bind; [reflexivity|]. cbv beta.
      replace (j + 0)%nat with j in * by lia.
      apply Z.eqb_neq in Hbad. rewrite Hbad. cbn [negb].
      eapply run_bind;
        [apply ft_putstr_fd_ok; [assumption | lia | discriminate]|].
      eapply run_bind; [apply (end_dinner_run n); [exact HN | lia]|].
      reflexivity. }
  3:{ eapply run_bind; [reflexivity|]. cbv beta.
      rewrite (Hok j) by lia. cbn [Z.eqb negb].
      replace (Z.of_nat j) with (Z.of_nat (S j) - 1) by lia.
      replace (j + S d)%nat with (S j + d)%nat in * by lia.
      apply IH; [exact HN | lia | intros i Hi; apply Hok; lia
                | assumption | lia]. }
  - replace (j + 0)%nat with j by lia. cbn [seq map app table calls].
    rewrite app_nil_r. do 2 f_equal. lia.
  - replace (j + S d)%nat with (S j + d)%nat by lia.
    cbn [seq map app table calls]. rewrite (Hok j) by lia.
    do 2 f_equal. lia.
Qed.



(** ** What the monitor announces *)

Lemma silent_app es es' : silent es -> silent es' -> silent (es ++ es').
Proof.
  intros [H1 H2] [G1 G2]. unfold silent.
  now rewrite logged_app, said_app, H1, H2, G1, G2.
Qed.

Lemma one_announcement_then es es' :
  one_announcement es -> silent es' -> one_announcement (es ++ es').
Proof.
  intros H [G1 G2]. unfold one_announcement, silent in *.
  rewrite logged_app, said_app, G1, G2, !app_nil_r. exact H.
Qed.

Lemma one_announcement_after es es' :
  silent es -> one_announcement es' -> one_announcement (es ++ es').
Proof.
  intros [G1 G2] H. unfold one_announcement, silent in *.
  rewrite logged_app, said_app, G1, G2. exact H.
Qed.

Lemma silent_one es : silent es -> one_announcement es.
Proof. intros H. now left. Qed.

(** One check: something is announced only if [true] is returned, and
    something is returned. *)
Lemma is_someone_dead_or_full_announces env p w :
  exists stop,
    outcome_of (is_someone_dead_or_full env p w) = Returned stop
    /\ one_announcement (emitted (is_someone_dead_or_full env p w))
    /\ (stop = false -> silent (emitted (is_someone_dead_or_full env p w))).
Proof.
  destruct (starved env p w) eqn:Hs.
  { rewrite is_someone_dead_or_full_starved by assumption. cbv zeta.
    exists true. split; [reflexivity|]. split; [|discriminate].
    cbn [emitted]. unfold one_announcement, silent.
    rewrite !logged_app, !said_app.
    destruct (negb _); cbn [logged said flat_map app]; [now left|].
    right. left. eauto. }
  destruct (fed env p w) eqn:Hf.
  2:{ rewrite is_someone_dead_or_full_hungry by assumption.
      exists false. split; [reflexivity|]. split; [now left | easy]. }
  destruct (all_fed env w) eqn:Ha.
  2:{ rewrite is_someone_dead_or_full_fed by assumption.
      exists false. split; [reflexivity|]. split; [now left | easy]. }
  rewrite is_someone_dead_or_full_all_fed by assumption. cbv zeta.
  exists true. split; [reflexivity|]. split; [|discriminate].
  right. right. now split.
Qed.

Lemma dinner_monitor_pass_announces env : forall fuel i continue_flag w,
  let r := dinner_monitor_pass env fuel i continue_flag w in
  one_announcement (emitted r)
  /\ (continue_flag = 0 ->
      silent (emitted r)
      /\ forall flag, outcome_of r = Returned flag -> flag = 0)
  /\ (forall flag, outcome_of r = Returned flag -> flag <> 0 ->
                   silent (emitted r)).
Proof.
  induction fuel as [|fuel IH]; intros i cf w; cbv zeta;
    cbn [dinner_monitor_pass].
  { split; [now left|]. split; [|discriminate].
    intros _. split; [easy | discriminate]. }
  cbv zeta. rewrite (run_bind_then _ _ w [] w _ eq_refl). cbn [app].
  destruct (i + 1 <? philosopher_count (table w)).
  2:{ cbn [ret emitted outcome_of]. split; [now left|]. split.
      - intros ->. split; [easy|]. now intros flag [= <-].
      - easy. }
  destruct (cf =? 0) eqn:E; cbn [negb].
  { apply Z.eqb_eq in E. subst cf.
    destruct (IH (i + 1) 0 w) as (H1 & H2 & H3). cbv zeta in *.
    auto. }
  apply Z.eqb_neq in E.
  destruct (is_someone_dead_or_full_announces env (Z.to_nat (i + 1)) w)
    as (stop & Hout & Hone & Hsilent).
  rewrite (bind_returned _ _ _ _ Hout). cbn [emitted outcome_of].
  set (w1 := after (is_someone_dead_or_full env (Z.to_nat (i + 1)) w)).
  destruct stop.
  - destruct (IH (i + 1) 0 w1) as (_ & H2 & _). cbv zeta in H2.
    destruct (H2 eq_refl) as [Hs Hflag].
    split; [now apply one_announcement_then|]. split; [contradiction|].
    intros flag Hret Hne. now specialize (Hflag flag Hret).
  - destruct (IH (i + 1) cf w1) as (H1 & _ & H3). cbv zeta in *.
    specialize (Hsilent eq_refl).
    split; [now apply one_announcement_after|]. split; [contradiction|].
    intros flag Hret Hne. apply silent_app; eauto.
Qed.

Lemma dinner_monitor_from_announces env : forall fuel continue_flag w,
  let r := dinner_monitor_from env fuel continue_flag w in
  one_announcement (emitted r)
  /\ (continue_flag = 0 -> silent (emitted r)).
Proof.
  induction fuel as [|fuel IH]; intros cf w; cbv zeta;
    cbn [dinner_monitor_from].
  { split; [now left | easy]. }
  destruct (cf =? 0) eqn:E; cbn [negb].
  { cbn [ret emitted]. split; [now left | easy]. }
  apply Z.eqb_neq in E.
  rewrite (run_bind_then _ _ w [] _ tt eq_refl). cbn [app].
  set (w0 := mk_world (set_is_full 0 (table w)) (calls w)).
  destruct (dinner_monitor_pass_announces env fuel (-1) cf w0)
    as (Hone & _ & Hsilent). cbv zeta in *.
  split; [|contradiction].
  destruct (outcome_of (dinner_monitor_pass env fuel (-1) cf w0))
    as [flag|s|] eqn:Hout.
  2:{ now rewrite (bind_exited _ _ _ _ Hout). }
  2:{ now rewrite (bind_running _ _ _ Hout). }
  rewrite (bind_returned _ _ _ _ Hout). cbn [emitted].
  set (w1 := after (dinner_monitor_pass env fuel (-1) cf w0)).
  rewrite (run_bind_then _ _ w1 [Slept 10] _ tt eq_refl). cbn [emitted].
  match goal with
  | |- context [dinner_monitor_from env fuel flag ?w2] =>
      destruct (IH flag w2) as (Hrest & Hrest0)
  end.
  cbv zeta in *.
  destruct (Z.eq_dec flag 0) as [->|Hne].
  - apply one_announcement_then; [exact Hone|].
    apply (silent_app [Slept 10]); [easy | now apply Hrest0].
  - apply one_announcement_after; [now apply (Hsilent flag)|].
    now apply (one_announcement_after [Slept 10]).
Qed.

Lemma tame_end_dinner fuel : tame teardown_event false (end_dinner fuel).
Proof.
  assert (Hjoin : forall f i, tame teardown_event false (end_dinner_from f i)).
  { induction f as [|f IH]; intros i; cbn [end_dinner_from];
      [apply tame_spin|]. cbv zeta.
    apply tame_bind; [apply tame_read | intros n].
    destruct (i + 1 <? n); [|apply tame_ret].
    apply tame_bind; [now apply tame_syscall | intros _]. apply IH. }
  assert (Hforks : forall f i,
            tame teardown_event false (unset_rules_from f i)).
  { induction f as [|f IH]; intros i; cbn [unset_rules_from];
      [apply tame_spin|]. cbv zeta.
    apply tame_bind; [apply tame_read | intros n].
    destruct (i + 1 <? n); [|apply tame_ret].
    apply tame_bind; [now apply tame_syscall | intros _]. apply IH. }
  unfold end_dinner, unset_rules, clean_table.
  apply tame_bind; [apply Hjoin | intros _].
  apply tame_bind.
  { apply tame_bind; [apply Hforks | intros _].
    repeat (apply tame_bind; [now apply tame_syscall | intros _]).
    now apply tame_syscall. }
  intros _. apply tame_bind; [now apply tame_syscall | intros _].
  now apply tame_syscall.
Qed.

Lemma teardown_event_silent es :
  forallb teardown_event es = true -> silent es.
Proof.
  induction es as [|e es IH]; [easy|]. cbn [forallb].
  intros H. apply andb_true_iff in H as [He Hes].
  destruct (IH Hes) as [H1 H2].
  destruct e; try discriminate He; now split.
Qed.

(** X21. In all its run the monitor announces one thing at most: either it
    prints one line, of a death ([DIE]), or it prints the notice of the
    quota ([END_MSG]), once and without a line of its own. *)
Theorem dinner_monitor_announces_once env fuel w :
  one_announcement (emitted (dinner_monitor env fuel w)).
Proof.
  unfold dinner_monitor.
  destruct (dinner_monitor_from_announces env fuel 1 w) as [Hone _].
  cbv zeta in Hone.
  destruct (outcome_of (dinner_monitor_from env fuel 1 w)) as [[]|s|] eqn:Hout.
  2:{ now rewrite (bind_exited _ _ _ _ Hout). }
  2:{ now rewrite (bind_running _ _ _ Hout). }
  rewrite (bind_returned _ _ _ _ Hout). cbn [emitted].
  apply one_announcement_then; [exact Hone|].
  apply teardown_event_silent. apply tame_end_dinner.
Qed.

(** ** The quota ([is_someone_dead_or_full], [dinner_monitor]) *)

Lemma checks_app es es' : checks (es ++ es') = (checks es + checks es')%nat.
Proof. unfold checks. now rewrite List.filter_app, List.length_app. Qed.

(** With the flag of the loop down, a pass checks nobody. *)
Lemma dinner_monitor_pass_idle env : forall fuel i w,
  emitted (dinner_monitor_pass env fuel i 0 w) = []
  /\ after (dinner_monitor_pass env fuel i 0 w) = w.
Proof.
  induction fuel as [|fuel IH]; intros i w; cbn [dinner_monitor_pass];
    [easy|].
  cbv zeta. rewrite (run_bind_then _ _ w [] w _ eq_refl). cbn [app].
  destruct (i + 1 <? philosopher_count (table w)); [|easy].
  cbn [Z.eqb negb]. destruct (IH (i + 1) w) as [H1 H2].
  cbn [emitted after]. now rewrite H1, H2.
Qed.

Lemma dinner_monitor_pass_notice env N : forall fuel k continue_flag w,
  philosopher_count (table w) = N ->
  is_full (table w) <= Z.of_nat k ->
  let r := dinner_monitor_pass env fuel (Z.of_nat k - 1) continue_flag w in
  In END_MSG (said (emitted r)) ->
  is_full (table w) = Z.of_nat k
  /\ is_full (table (after r)) = N
  /\ (checks (emitted r) + k)%nat = Z.to_nat N.
Proof.
  induction fuel as [|fuel IH]; intros k cf w HN Hfull; cbv zeta;
    cbn [dinner_monitor_pass]; [intros []|].
  cbv zeta. rewrite (run_bind_then _ _ w [] w _ eq_refl). cbn [app].
  replace (Z.of_nat k - 1 + 1) with (Z.of_nat k) by lia.
  rewrite HN. destruct (Z.of_nat k <? N) eqn:Ek; [|intros []].
  apply Z.ltb_lt in Ek. cbn [emitted after outcome_of].
  destruct (cf =? 0) eqn:Ecf; cbn [negb].
  { apply Z.eqb_eq in Ecf. subst cf.
    destruct (dinner_monitor_pass_idle env fuel (Z.of_nat k) w) as [-> _].
    intros []. }
  rewrite Nat2Z.id.
  pose proof (meals_seen_frame env (calls w) (table w)) as Hframe.
  cbv zeta in Hframe. destruct Hframe as (Hset & _ & Hfull0 & _ & _).
  apply setting_fields in Hset as (Hcount & _).
  destruct (starved env k w) eqn:Hs.
  { rewrite (run_bind_then _ _ w _ _ _
               (is_someone_dead_or_full_starved env k w Hs)).
    cbv zeta. cbn [emitted].
    match goal with
    | |- context [dinner_monitor_pass env fuel (Z.of_nat k) 0 ?w1] =>
        destruct (dinner_monitor_pass_idle env fuel (Z.of_nat k) w1)
          as [-> _]
    end.
    rewrite !said_app. destruct (negb _); cbn [said flat_map app];
      intros []. }
  destruct (fed env k w) eqn:Hf.
  2:{ rewrite (run_bind_then _ _ w _ _ _
                 (is_someone_dead_or_full_hungry env k w Hs Hf)).
      cbn [emitted]. rewrite said_app. cbn [said flat_map app].
      intros Hin.
      replace (Z.of_nat k) with (Z.of_nat (S k) - 1) in Hin by lia.
      apply IH in Hin as (Habs & _); cbn [table] in *; lia. }
  destruct (all_fed env w) eqn:Ha.
  2:{ rewrite (run_bind_then _ _ w _ _ _
                 (is_someone_dead_or_full_fed env k w Hs Hf Ha)).
      cbv zeta. cbn [emitted after]. rewrite said_app, checks_app.
      cbn [said flat_map app]. intros Hin.
      replace (Z.of_nat k) with (Z.of_nat (S k) - 1) in Hin |- * by lia.
      apply IH in Hin as (H1 & H2 & H3);
        cbn [table is_full set_is_full philosopher_count] in *;
        [|lia..].
      split; [lia|]. split; [exact H2|]. cbn [checks List.filter List.length] in *.
      lia. }
  rewrite (run_bind_then _ _ w _ _ _
             (is_someone_dead_or_full_all_fed env k w Hs Hf Ha)).
  cbv zeta. cbn [emitted after].
  match goal with
  | |- context [dinner_monitor_pass env fuel (Z.of_nat k) 0 ?w1] =>
      destruct (dinner_monitor_pass_idle env fuel (Z.of_nat k) w1)
        as [-> ->]
  end.
  intros _. unfold all_fed in Ha. cbv zeta in Ha.
  rewrite Hfull0, Hcount, HN in Ha. apply Z.geb_le in Ha.
  cbn [table]. rewrite app_nil_r.
  match goal with
  | |- context [flag_seen env ?c ?t] =>
      pose proof (flag_seen_frame env c t) as Hflag
  end.
  cbv zeta in Hflag. destruct Hflag as (_ & _ & ->).
  cbn [is_full set_end_flag].
  match goal with
  | |- context [flag_seen env ?c ?t] =>
      pose proof (flag_seen_frame env c t) as Hflag
  end.
  cbv zeta in Hflag. destruct Hflag as (_ & _ & ->).
  cbn [is_full set_is_full]. rewrite Hfull0.
  split; [lia|]. split; [lia|]. cbn. lia.
Qed.



(** ** Eating with both forks *)

Example attended_not_without_the_forks :
  attended 0 1 []
    [Locked (fork_padlock 0); Locked print_padlock; Log 5 1 EAT] = false.
Proof. reflexivity. Qed.

Lemma attended_app l r es : forall h h1 es',
  holds h es = Some h1 ->
  attended l r h (es ++ es') = attended l r h es && attended l r h1 es'.
Proof.
  induction es as [|e es IH]; intros h h1 es' Hh; cbn [holds] in Hh.
  - injection Hh as <-. reflexivity.
  - destruct e as [m|m|m x|m|? ? ?|?|? ?|? ?|?|? ?|?|?|];
      cbn [app attended]; try (now apply IH).
    + destruct (may_lock h m); [now apply IH | discriminate].
    + destruct (give_back m h); [now apply IH | discriminate].
    + rewrite (IH h h1 es' Hh). now rewrite andb_assoc.
Qed.

Lemma attended_silent l r es : forall h h1,
  holds h es = Some h1 -> logged es = [] -> attended l r h es = true.
Proof.
  induction es as [|e es IH]; intros h h1 Hh Hl; [reflexivity|].
  cbn [holds] in Hh.
  destruct e as [m|m|m x|m|? ? ?|?|? ?|? ?|?|? ?|?|?|];
    cbn [attended]; try discriminate Hl; try (now apply (IH h h1)).
  - destruct (may_lock h m); [now apply (IH _ h1) | discriminate].
  - destruct (give_back m h); [now apply (IH _ h1) | discriminate].
Qed.

Lemma dines_bind {A B} p s h h1 h2 (c : M A) (f : A -> M B) :
  dines p s h c h1 -> (forall a, dines p s h1 (f a) h2) ->
  dines p s h (bind c f) h2.
Proof.
  intros [Hc Hca] Hf. split.
  - eapply locks_bind; [exact Hc | intros a; apply Hf].
  - intros w Hs. destruct (Hc w Hs) as [(hx & Hh & Hr) Hs'].
    specialize (Hca w Hs). unfold bind, returned in *.
    destruct (outcome_of (c w)) as [a|st|]; cbn [emitted]; try exact Hca.
    rewrite (attended_app _ _ _ _ _ _ Hh), Hca, (Hr eq_refl).
    now apply Hf.
Qed.

Lemma dines_bind_read {A B} p s h h' (g : t_table -> A) (f : A -> M B) :
  (forall t, seat p t = s -> dines p s h (f (g t)) h') ->
  dines p s h (bind (read g) f) h'.
Proof.
  intros H. split.
  - apply locks_bind_read. intros t Ht. now apply H.
  - intros w Hs. unfold bind, read. cbn [outcome_of after emitted app].
    now apply (H (table w) Hs).
Qed.

Lemma dines_quiet {A} p s h h' (c : M A) :
  locks p s h c h' -> (forall w, logged (emitted (c w)) = []) ->
  dines p s h c h'.
Proof.
  intros Hc Hl. split; [exact Hc|]. intros w Hs.
  destruct (Hc w Hs) as [(hx & Hh & _) _].
  now apply (attended_silent _ _ _ h hx).
Qed.

Lemma holding_in m h : In m h -> holding m h = true.
Proof.
  intros H. apply existsb_exists. exists m. split; [exact H|].
  apply mutex_eqb_refl.
Qed.

(** A line is printed under [print_padlock]; for a line of [EAT] the
    forks must be held. *)
Lemma dines_print_action env p s h q action :
  below 2 h = true ->
  (action = EAT ->
   In (fork_padlock (snd (fst s))) h /\ In (fork_padlock (snd s)) h) ->
  dines p s h (print_action env q action) h.
Proof.
  intros Hbelow Hforks. split; [now apply locks_print_action|].
  intros w _. rewrite print_action_run. cbv zeta. cbn [emitted app attended].
  cbn [give_back mutex_eqb].
  assert (Heat : negb (String.eqb action EAT)
                 || (holding (fork_padlock (snd (fst s)))
                       (print_padlock :: h)
                     && holding (fork_padlock (snd s)) (print_padlock :: h))
                 = true).
  { destruct (String.eqb action EAT) eqn:E; [|reflexivity].
    apply String.eqb_eq in E. destruct (Hforks E) as [Hl Hr].
    cbn [negb orb holding existsb mutex_eqb].
    fold (holding (fork_padlock (snd (fst s))) h).
    fold (holding (fork_padlock (snd s)) h).
    now rewrite !holding_in. }
  destruct (negb (end_flag _ =? 0)), (starts_with_e action);
    cbn [app attended give_back mutex_eqb holding existsb orb andb];
    try reflexivity;
    fold (holding (fork_padlock (snd (fst s))) (print_padlock :: h)) in *;
    fold (holding (fork_padlock (snd s)) (print_padlock :: h)) in *;
    cbn [holding existsb mutex_eqb orb] in Heat |- *; now rewrite Heat.
Qed.

Lemma dines_dinner_time env fuel p s :
  dines p s [] (dinner_time env fuel p) [].
Proof.
  destruct s as [[i l] r]. unfold dinner_time.
  apply dines_bind_read. intros t Ht. seat_read Ht.
  assert (Hgo : exists top other,
    dines p (i, l, r) []
      (if Z.rem i 2 =? 0
       then l0 <- read (fun t0 => left_fork (deref p t0));;
            pthread_mutex_lock env (fork_padlock l0);;
            r0 <- read (fun t0 => right_fork (deref p t0));;
            pthread_mutex_lock env (fork_padlock r0)
       else r0 <- read (fun t0 => right_fork (deref p t0));;
            pthread_mutex_lock env (fork_padlock r0);;
            l0 <- read (fun t0 => left_fork (deref p t0));;
            pthread_mutex_lock env (fork_padlock l0))
      [top; other]
    /\ below 1 [top; other] = true
    /\ In (fork_padlock l) [top; other] /\ In (fork_padlock r) [top; other]
    /\ exists h, give_back (fork_padlock r) [top; other] = Some [h]
                 /\ give_back (fork_padlock l) [h] = Some []).
  { destruct (Z.rem i 2 =? 0).
    - exists (fork_padlock r), (fork_padlock l).
      split; [|split; [reflexivity|split; [now right; left|split; [now left|]]]].
      + apply dines_bind_read. intros t0 Ht0. seat_read Ht0.
        eapply dines_bind;
          [apply dines_quiet; [now apply locks_lock | reflexivity] | intros _].
        apply dines_bind_read. intros t1 Ht1. seat_read Ht1.
        apply dines_quiet; [now apply locks_lock | reflexivity].
      + exists (fork_padlock l). cbn. now rewrite !Z.eqb_refl.
    - exists (fork_padlock l), (fork_padlock r).
      split; [|split; [reflexivity|split; [now left|split; [now right; left|]]]].
      + apply dines_bind_read. intros t0 Ht0. seat_read Ht0.
        eapply dines_bind;
          [apply dines_quiet; [now apply locks_lock | reflexivity] | intros _].
        apply dines_bind_read. intros t1 Ht1. seat_read Ht1.
        apply dines_quiet; [now apply locks_lock | reflexivity].
      + apply give_back_second. }
  destruct Hgo as (top & other & Hgo & Hbelow & Hinl & Hinr & h & Hr & Hl).
  eapply dines_bind; [exact Hgo | intros _].
  do 3 (eapply dines_bind;
        [apply dines_print_action;
         [apply (below_weaken 1 2); [lia | exact Hbelow] | now intros _]
        | intros _]).
  eapply dines_bind;
    [apply dines_quiet; [apply locks_read | reflexivity] | intros eat].
  eapply dines_bind.
  { apply dines_quiet; [|intros w; apply advance_time_logged].
    apply locks_advance_time. apply (below_weaken 1 3); [lia | exact Hbelow]. }
  intros _.
  eapply dines_bind;
    [apply dines_quiet; [apply locks_lock; exact Hbelow | reflexivity]
    | intros _].
  eapply dines_bind.
  { apply dines_quiet; [|reflexivity].
    apply locks_write_table. intros t'. now apply set_philo_seats. }
  intros _.
  eapply dines_bind;
    [apply dines_quiet; [apply locks_get_current_time | reflexivity]
    | intros now].
  eapply dines_bind.
  { apply dines_quiet; [|reflexivity].
    apply locks_write_table. intros t'. now apply set_philo_seats. }
  intros _.
  eapply dines_bind;
    [apply dines_quiet; [apply locks_unlock, give_back_head | reflexivity]
    | intros _].
  apply dines_bind_read. intros t0 Ht0. seat_read Ht0.
  eapply dines_bind;
    [apply dines_quiet; [apply locks_unlock; exact Hr | reflexivity]
    | intros _].
  apply dines_bind_read. intros t1 Ht1. seat_read Ht1.
  apply dines_quiet; [apply locks_unlock; exact Hl | reflexivity].
Qed.

Lemma is_dinner_over_logged env p end_ w :
  logged (emitted (is_dinner_over env p end_ w)) = [].
Proof.
  destruct end_; [now rewrite is_dinner_over_raise|].
  now rewrite is_dinner_over_read.
Qed.

Lemma dines_advance_time env fuel p s q time_to :
  dines p s [] (advance_time env fuel q time_to) [].
Proof.
  apply dines_quiet; [now apply locks_advance_time|].
  intros w. apply advance_time_logged.
Qed.

Lemma dines_ret {A} p s h (a : A) : dines p s h (ret a) h.
Proof. apply dines_quiet; [apply locks_ret | reflexivity]. Qed.

Lemma dines_read {A} p s h (g : t_table -> A) : dines p s h (read g) h.
Proof. apply dines_quiet; [apply locks_read | reflexivity]. Qed.

Lemma dines_lone_philosopher env fuel p s :
  dines p s [] (lone_philosopher env fuel) [].
Proof.
  unfold lone_philosopher.
  eapply dines_bind;
    [apply dines_print_action; [reflexivity | discriminate] | intros _].
  eapply dines_bind; [apply dines_read | intros die].
  eapply dines_bind; [apply dines_advance_time | intros _].
  eapply dines_bind;
    [apply dines_print_action; [reflexivity | discriminate] | intros _].
  eapply dines_bind.
  { apply dines_quiet; [now apply locks_is_dinner_over|].
    intros w. apply is_dinner_over_logged. }
  intros _. apply dines_ret.
Qed.

Lemma dines_dinner_routine_from env p s fuel :
  dines p s [] (dinner_routine_from env fuel p) [].
Proof.
  induction fuel as [|fuel IH]; cbn [dinner_routine_from].
  { apply dines_quiet; [apply locks_spin | reflexivity]. }
  eapply dines_bind; [apply dines_read | intros n].
  destruct (n =? 1).
  - eapply dines_bind; [apply dines_lone_philosopher | intros _].
    apply dines_ret.
  - eapply dines_bind.
    { apply dines_quiet; [now apply locks_is_dinner_over|].
      intros w. apply is_dinner_over_logged. }
    intros over. destruct over; [apply dines_ret|].
    eapply dines_bind;
      [apply dines_print_action; [reflexivity | discriminate] | intros _].
    eapply dines_bind; [apply dines_dinner_time | intros _].
    eapply dines_bind;
      [apply dines_print_action; [reflexivity | discriminate] | intros _].
    eapply dines_bind; [apply dines_read | intros sleep].
    eapply dines_bind; [apply dines_advance_time | intros _].
    eapply dines_bind; [apply dines_read | intros n'].
    eapply dines_bind.
    { instantiate (1 := []).
      destruct (negb (Z.rem n' 2 =? 0)); [|apply dines_ret].
      eapply dines_bind; [apply dines_read | intros eat].
      apply dines_advance_time. }
    intros _. exact IH.
Qed.

(** X23. A philosopher eats with both forks in hand: in every run of
    [dinner_routine], complete or not, each line is printed while the
    thread holds [print_padlock], and each line of [EAT] while it holds
    the mutexes of its left and of its right fork as well; the thread
    gives back no lock that it does not hold. *)
Theorem a_philosopher_eats_with_both_forks env fuel p w :
  attended (left_fork (deref p (table w))) (right_fork (deref p (table w)))
    [] (emitted (dinner_routine env fuel p w)) = true.
Proof.
  assert (H : dines p (seat p (table w)) [] (dinner_routine env fuel p) []).
  { unfold dinner_routine.
    eapply dines_bind; [apply dines_read | intros i].
    eapply dines_bind.
    { instantiate (1 := []).
      destruct (Z.rem i 2 =? 0); [|apply dines_ret].
      eapply dines_bind; [apply dines_read | intros eat].
      apply dines_advance_time. }
    intros _. apply dines_dinner_routine_from. }
  destruct H as [_ H]. now apply (H w).
Qed.

(** ** The whole run, when it succeeds *)

Lemma traces_bind {A B} pre mid post (c : M A) (f : A -> M B) :
  traces pre c mid ->
  (forall a es1,
     traces (mid a es1) (f a) (fun b es2 w' => post b (es1 ++ es2) w')) ->
  traces pre (bind c f) post.
Proof.
  intros Hc Hf w Hpre b. unfold bind.
  destruct (outcome_of (c w)) as [a|s|] eqn:E;
    cbn [outcome_of after emitted]; [|discriminate..].
  intros Hb. apply (Hf a (emitted (c w)) (after (c w))); [|exact Hb].
  now apply Hc.
Qed.

Lemma traces_weaken {A} (pre pre' : world -> Prop)
    (post post' : A -> list event -> world -> Prop) (c : M A) :
  traces pre' c post' -> (forall w, pre w -> pre' w) ->
  (forall a es w, post' a es w -> post a es w) -> traces pre c post.
Proof. intros Hc Hpre Hpost w Hw a Ha. apply Hpost, Hc; auto. Qed.

Lemma traces_never {A} pre post (c : M A) :
  hoare (fun _ => True) c (fun _ _ => False) -> traces pre c post.
Proof. intros Hc w _ a Ha. now destruct (Hc w I a Ha). Qed.

(** A loop that counts [++i < philosopher_count] and makes one system call
    per round has, when it returns, made the call for every index left. *)
Lemma end_dinner_from_returned N : forall fuel j,
  traces (seats_for N) (end_dinner_from fuel (Z.of_nat j - 1))
    (fun _ es w' =>
       es = map Joined (seq j (Z.to_nat N - j)) /\ seats_for N w').
Proof.
  induction fuel as [|fuel IH]; intros j w HN a; cbn [end_dinner_from];
    [discriminate|].
  cbv zeta. replace (Z.of_nat j - 1 + 1) with (Z.of_nat j) by lia.
  replace (end_dinner_from fuel (Z.of_nat j))
    with (end_dinner_from fuel (Z.of_nat (S j) - 1)) by (f_equal; lia).
  rewrite (run_bind_then _ _ w [] w _ eq_refl). cbn [app].
  unfold seats_for in HN. rewrite HN.
  destruct (Z.of_nat j <? N) eqn:E.
  2:{ apply Z.ltb_ge in E. intros _. cbn [ret emitted after].
      now replace (Z.to_nat N - j)%nat with 0%nat by lia. }
  apply Z.ltb_lt in E. rewrite Nat2Z.id.
  rewrite (run_bind_then _ _ w [Joined j] _ tt eq_refl).
  cbn [emitted after outcome_of app]. intros Ha.
  destruct (IH (S j) (mk_world (table w) (S (calls w))) HN a Ha)
    as [-> HN'].
  split; [|exact HN'].
  replace (Z.to_nat N - j)%nat with (S (Z.to_nat N - S j)) by lia.
  reflexivity.
Qed.

Lemma unset_rules_from_returned N : forall fuel j,
  traces (seats_for N) (unset_rules_from fuel (Z.of_nat j - 1))
    (fun _ es w' =>
       es = map (fun i => MutexDestroy (fork_padlock i))
              (map Z.of_nat (seq j (Z.to_nat N - j)))
       /\ seats_for N w').
Proof.
  induction fuel as [|fuel IH]; intros j w HN a; cbn [unset_rules_from];
    [discriminate|].
  cbv zeta. replace (Z.of_nat j - 1 + 1) with (Z.of_nat j) by lia.
  replace (unset_rules_from fuel (Z.of_nat j))
    with (unset_rules_from fuel (Z.of_nat (S j) - 1)) by (f_equal; lia).
  rewrite (run_bind_then _ _ w [] w _ eq_refl). cbn [app].
  unfold seats_for in HN. rewrite HN.
  destruct (Z.of_nat j <? N) eqn:E.
  2:{ apply Z.ltb_ge in E. intros _. cbn [ret emitted after].
      now replace (Z.to_nat N - j)%nat with 0%nat by lia. }
  apply Z.ltb_lt in E.
  rewrite (run_bind_then _ _ w [MutexDestroy (fork_padlock (Z.of_nat j))]
             _ tt eq_refl).
  cbn [emitted after outcome_of app]. intros Ha.
  destruct (IH (S j) (mk_world (table w) (S (calls w))) HN a Ha)
    as [-> HN'].
  split; [|exact HN'].
  replace (Z.to_nat N - j)%nat with (S (Z.to_nat N - S j)) by lia.
  reflexivity.
Qed.

Lemma traces_pure {A} (P : Prop) pre post (c : M A) :
  (P -> traces pre c post) -> traces (fun w => P /\ pre w) c post.
Proof. intros Hc w [HP Hpre]. now apply Hc. Qed.

Lemma traces_fact {A} (P : Prop) post (c : M A) :
  (P -> traces (fun _ => True) c post) -> traces (fun _ => P) c post.
Proof. intros Hc w HP. now apply Hc. Qed.

Lemma traces_syscall {A} (pre : world -> Prop) e (a : A) :
  (forall w, pre w -> pre (mk_world (table w) (S (calls w)))) ->
  traces pre (syscall e a) (fun _ es w' => es = [e] /\ pre w').
Proof. intros Hpre w Hw a' _. split; [reflexivity | now apply Hpre]. Qed.

Lemma end_dinner_returned N fuel :
  traces (seats_for N) (end_dinner fuel)
    (fun _ es w' => es = teardown (Z.to_nat N) /\ seats_for N w').
Proof.
  unfold end_dinner, unset_rules, clean_table, teardown,
    pthread_mutex_destroy, free.
  apply (traces_bind _ (fun _ es w' =>
           es = map Joined (seq 0 (Z.to_nat N)) /\ seats_for N w')).
  { eapply traces_weaken; [apply (end_dinner_from_returned N fuel 0) | auto |].
    cbv beta. intros _ es w'. now rewrite Nat.sub_0_r. }
  intros _ es1. apply traces_pure. intros ->.
  apply (traces_bind _ (fun _ es w' =>
           es = map (fun i => MutexDestroy (fork_padlock i))
                  (upto (Z.to_nat N))
                ++ [MutexDestroy print_padlock; MutexDestroy eat_padlock;
                    MutexDestroy end_padlock]
           /\ seats_for N w')).
  { apply (traces_bind _ (fun _ es w' =>
             es = map (fun i => MutexDestroy (fork_padlock i))
                    (upto (Z.to_nat N)) /\ seats_for N w')).
    { eapply traces_weaken;
        [apply (unset_rules_from_returned N fuel 0) | auto |].
      cbv beta. intros _ es w'. now rewrite Nat.sub_0_r. }
    intros _ es2. apply traces_pure. intros ->.
    intros w HN a _. split; [reflexivity | exact HN]. }
  intros _ es2. apply traces_pure. intros ->.
  intros w HN a _. split; [|exact HN].
  cbn [emitted app]. now rewrite <- !app_assoc.
Qed.

Lemma hoare_then_never {A B} (c : M A) (f : A -> M B) :
  (forall a, hoare (fun _ => True) (f a) (fun _ _ => False)) ->
  hoare (fun _ => True) (bind c f) (fun _ _ => False).
Proof.
  intros Hf. apply (hoare_bind _ (fun _ _ => True)); [apply hoare_any|].
  intros a. apply Hf.
Qed.

Ltac never_returns :=
  repeat first [ apply hoare_exit | apply hoare_then_never; intros ? ].

Lemma set_forks_rules_from_returned env N : forall fuel j,
  traces (seats_for N) (set_forks_rules_from env fuel (Z.of_nat j - 1))
    (fun _ es w' =>
       es = map (fun i => MutexInit (fork_padlock i) 0)
              (map Z.of_nat (seq j (Z.to_nat N - j)))
       /\ seats_for N w').
Proof.
  induction fuel as [|fuel IH]; intros j w HN a;
    cbn [set_forks_rules_from]; [discriminate|].
  cbv zeta. replace (Z.of_nat j - 1 + 1) with (Z.of_nat j) by lia.
  replace (set_forks_rules_from env fuel (Z.of_nat j))
    with (set_forks_rules_from env fuel (Z.of_nat (S j) - 1))
    by (f_equal; lia).
  rewrite (run_bind_then _ _ w [] w _ eq_refl). cbn [app].
  unfold seats_for in HN. rewrite HN.
  destruct (Z.of_nat j <? N) eqn:E.
  2:{ apply Z.ltb_ge in E. intros _. cbn [ret emitted after].
      now replace (Z.to_nat N - j)%nat with 0%nat by lia. }
  apply Z.ltb_lt in E.
  rewrite (run_bind_then _ _ w _ _ _ eq_refl).
  cbn [emitted after outcome_of app].
  destruct (mutex_init_result env (fork_padlock (Z.of_nat j)) =? 0) eqn:E0;
    cbn [negb].
  2:{ intros Ha. exfalso. revert Ha.
      match goal with
      | |- outcome_of (?c ?w1) = _ -> _ =>
          assert (Hn : hoare (fun _ => True) c (fun _ _ => False))
            by never_returns;
          intros Ha; exact (Hn w1 I a Ha)
      end. }
  apply Z.eqb_eq in E0. rewrite E0. intros Ha.
  destruct (IH (S j) (mk_world (table w) (S (calls w))) HN a Ha)
    as [-> HN'].
  split; [|exact HN'].
  replace (Z.to_nat N - j)%nat with (S (Z.to_nat N - S j)) by lia.
  reflexivity.
Qed.

Lemma set_rules_returned env N fuel :
  traces (seats_for N) (set_rules env fuel)
    (fun _ es w' => es = rules_set (Z.to_nat N) /\ seats_for N w').
Proof.
  intros w HN a. unfold set_rules, set_forks_rules, rules_set.
  rewrite (run_bind_then _ _ w _ _ _ eq_refl). cbn [emitted outcome_of after].
  destruct (mutex_init_result env print_padlock =? 0) eqn:E1; cbn [negb].
  2:{ intros Ha. exfalso. revert Ha.
      match goal with
      | |- outcome_of (?c ?w1) = _ -> _ =>
          assert (Hn : hoare (fun _ => True) c (fun _ _ => False))
            by (apply hoare_never; never_returns);
          intros Ha; exact (Hn w1 I a Ha)
      end. }
  rewrite (run_bind_then _ _ _ [] _ tt eq_refl).
  rewrite (run_bind_then _ _ _ _ _ _ eq_refl).
  cbn [emitted outcome_of after app].
  destruct (mutex_init_result env eat_padlock =? 0) eqn:E2; cbn [negb].
  2:{ intros Ha. exfalso. revert Ha.
      match goal with
      | |- outcome_of (?c ?w1) = _ -> _ =>
          assert (Hn : hoare (fun _ => True) c (fun _ _ => False))
            by (apply hoare_never; never_returns);
          intros Ha; exact (Hn w1 I a Ha)
      end. }
  rewrite (run_bind_then _ _ _ [] _ tt eq_refl).
  rewrite (run_bind_then _ _ _ _ _ _ eq_refl).
  cbn [emitted outcome_of after app].
  destruct (mutex_init_result env end_padlock =? 0) eqn:E3; cbn [negb].
  2:{ intros Ha. exfalso. revert Ha.
      match goal with
      | |- outcome_of (?c ?w1) = _ -> _ =>
          assert (Hn : hoare (fun _ => True) c (fun _ _ => False))
            by (apply hoare_never; never_returns);
          intros Ha; exact (Hn w1 I a Ha)
      end. }
  rewrite (run_bind_then _ _ _ [] _ tt eq_refl).
  cbn [emitted outcome_of after app table calls].
  apply Z.eqb_eq in E1, E2, E3. rewrite E1, E2, E3. intros Ha.
  change (-1) with (Z.of_nat 0 - 1) in Ha |- *.
  match type of Ha with
  | outcome_of (_ ?w1) = _ =>
      destruct (set_forks_rules_from_returned env N fuel 0 w1 HN a Ha)
        as [-> HN']
  end.
  split; [|exact HN']. now rewrite Nat.sub_0_r.
Qed.

Lemma seat_philosophers_from_returned env N : forall fuel j,
  traces (seats_for N) (seat_philosophers_from env fuel (Z.of_nat j - 1))
    (fun _ es w' =>
       es = map (fun i => Created i 0) (seq j (Z.to_nat N - j))
       /\ seats_for N w').
Proof.
  induction fuel as [|fuel IH]; intros j w HN a;
    cbn [seat_philosophers_from]; [discriminate|].
  cbv zeta. replace (Z.of_nat j - 1 + 1) with (Z.of_nat j) by lia.
  replace (seat_philosophers_from env fuel (Z.of_nat j))
    with (seat_philosophers_from env fuel (Z.of_nat (S j) - 1))
    by (f_equal; lia).
  rewrite (run_bind_then _ _ w [] w _ eq_refl). cbn [app].
  unfold seats_for in HN. rewrite HN.
  destruct (Z.of_nat j <? N) eqn:E.
  2:{ apply Z.ltb_ge in E. intros _. cbn [ret emitted after].
      now replace (Z.to_nat N - j)%nat with 0%nat by lia. }
  apply Z.ltb_lt in E. rewrite Nat2Z.id.
  rewrite (run_bind_then _ _ w _ _ _ eq_refl).
  cbn [emitted after outcome_of app].
  destruct (pthread_create_result env j =? 0) eqn:E0; cbn [negb].
  2:{ intros Ha. exfalso. revert Ha.
      match goal with
      | |- outcome_of (?c ?w1) = _ -> _ =>
          assert (Hn : hoare (fun _ => True) c (fun _ _ => False))
            by never_returns;
          intros Ha; exact (Hn w1 I a Ha)
      end. }
  apply Z.eqb_eq in E0. rewrite E0. intros Ha.
  destruct (IH (S j) (mk_world (table w) (S (calls w))) HN a Ha)
    as [-> HN'].
  split; [|exact HN'].
  replace (Z.to_nat N - j)%nat with (S (Z.to_nat N - S j)) by lia.
  reflexivity.
Qed.

Lemma tame_welcome_philosophers_from : forall fuel i,
  tame (fun _ => false) false (welcome_philosophers_from fuel i).
Proof.
  induction fuel as [|fuel IH]; intros i; cbn [welcome_philosophers_from];
    [apply tame_spin|].
  cbv zeta. apply tame_bind; [apply tame_read | intros n].
  destruct (i + 1 <? n); [|apply tame_ret].
  repeat (apply tame_bind; [tame_leaf | intros ?]). apply IH.
Qed.

Lemma welcome_philosophers_from_silent fuel i w :
  emitted (welcome_philosophers_from fuel i w) = []
  /\ philosopher_count (table (after (welcome_philosophers_from fuel i w)))
     = philosopher_count (table w).
Proof.
  destruct (tame_welcome_philosophers_from fuel i w) as (Hev & Hset & _).
  apply setting_fields in Hset as (-> & _). split; [|reflexivity].
  destruct (emitted (welcome_philosophers_from fuel i w)); [reflexivity|].
  discriminate Hev.
Qed.

Lemma welcome_philosophers_returned env N fuel :
  traces (seats_for N) (welcome_philosophers env fuel)
    (fun _ es w' => es = [Malloc true; Malloc true] /\ seats_for N w').
Proof.
  intros w HN a. unfold welcome_philosophers.
  destruct (malloc_philo_ok env), (malloc_forks_ok env);
    cbn [negb orb].
  2,3,4: (intros Ha; exfalso; revert Ha;
          do 4 (rewrite (run_bind_then _ _ _ _ _ _ eq_refl);
                cbn [emitted outcome_of after]);
          match goal with
          | |- outcome_of (?c ?w1) = _ -> _ =>
              assert (Hn : hoare (fun _ => True) c (fun _ _ => False))
                by (apply hoare_never; never_returns);
              intros Ha; exact (Hn w1 I a Ha)
          end).
  do 5 (rewrite (run_bind_then _ _ _ _ _ _ eq_refl);
        cbn [emitted outcome_of after]).
  rewrite (run_bind_then _ _ _ _ _ _ (get_current_time_run env _)).
  cbn [emitted outcome_of after].
  rewrite (run_bind_then _ _ _ [] _ tt eq_refl).
  cbn [emitted outcome_of after app].
  match goal with
  | |- context [welcome_philosophers_from fuel (-1) ?w1] =>
      destruct (welcome_philosophers_from_silent fuel (-1) w1) as [-> Hc]
  end.
  intros _. split; [reflexivity|]. unfold seats_for. rewrite Hc.
  cbn [table]. now destruct w as [[]].
Qed.

Lemma dinner_monitor_returned env N fuel :
  traces (seats_for N) (dinner_monitor env fuel)
    (fun _ es w' =>
       (exists es0, forallb monitor_event es0 = true
                    /\ es = es0 ++ teardown (Z.to_nat N))
       /\ flag_up w').
Proof.
  intros w HN a. unfold dinner_monitor.
  destruct (tame_dinner_monitor_from env fuel 1 w) as (Hev & Hset & _).
  apply setting_fields in Hset as (Hcount & _).
  assert (Hup : hoare (fun _ => True) (dinner_monitor_from env fuel 1)
                  (fun _ => flag_up)).
  { eapply hoare_weaken;
      [apply dinner_monitor_from_stops | intros w' _; now left
      | intros u w' Hw; exact Hw]. }
  destruct (outcome_of (dinner_monitor_from env fuel 1 w)) as [[]|s|] eqn:E.
  2:{ now rewrite (bind_exited _ _ _ _ E). }
  2:{ now rewrite (bind_running _ _ _ E). }
  rewrite (bind_returned _ _ _ _ E). cbn [outcome_of emitted after].
  set (w1 := after (dinner_monitor_from env fuel 1 w)) in *.
  assert (HN1 : seats_for N w1) by (unfold seats_for in *; congruence).
  intros Ha. destruct (end_dinner_returned N fuel w1 HN1 a Ha) as [-> _].
  split; [eauto|].
  apply (hushed_end_dinner fuel w1). now apply (Hup w I tt).
Qed.

Lemma validate_arguments_from_silent env argc argv : forall fuel i w,
  (forall j, i <= j < argc -> passes j (arg argv j) = true) ->
  emitted (validate_arguments_from env fuel i argc argv w) = [].
Proof.
  induction fuel as [|fuel IH]; intros i w Hpass; [reflexivity|].
  cbn [validate_arguments_from].
  destruct (i <? argc) eqn:E; [|reflexivity]. apply Z.ltb_lt in E.
  assert (Hi : passes i (arg argv i) = true) by (apply Hpass; lia).
  assert (Hdig : digits_only (arg argv i) = true).
  { unfold passes in Hi. cbv zeta in Hi.
    now repeat (apply andb_true_iff in Hi as [Hi _]). }
  rewrite (run_bind_then _ _ w [] w tt (check_syntax_passes env _ _ w Hdig)).
  cbv zeta.
  rewrite (run_bind_then _ _ w [] w tt (check_value_passes env _ _ _ w Hi)).
  cbn [emitted app]. apply IH. intros j Hj. apply Hpass. lia.
Qed.

Lemma receive_guests_silent env fuel argc argv w :
  acceptable argc argv = true ->
  emitted (receive_guests env fuel argc argv w) = [].
Proof.
  unfold acceptable. intros Hok.
  apply andb_true_iff in Hok as [Hargc Hall].
  rewrite forallb_forall in Hall.
  unfold receive_guests, validate_argument_count, validate_arguments.
  replace ((argc <? 5) || (argc >? 6)) with false by lia.
  rewrite (run_bind_then _ _ w [] w tt eq_refl). cbn [emitted app].
  apply validate_arguments_from_silent. intros j Hj. apply Hall.
  unfold positions. apply in_map_iff. exists (Z.to_nat j). split; [lia|].
  apply in_seq. lia.
Qed.

(** X24. [main] returns only at the end of a whole dinner: when it returns,
    it returns [EXIT_SUCCESS], the arguments were acceptable, and all it
    did, in this order, was to allocate the two arrays, to initialise
    [print_padlock], [eat_padlock], [end_padlock] and the forks from the
    first, to create the threads from the first, to monitor, and to tear
    down as [end_dinner] does; the end flag is up. *)
Theorem main_returns_after_the_dinner env fuel argc argv w :
  let r := main env fuel argc argv w in
  let n := Z.to_nat (ft_atoi (arg argv 1)) in
  returned r = true ->
  outcome_of r = Returned EXIT_SUCCESS
  /\ acceptable argc argv = true
  /\ end_flag (table (after r)) <> 0
  /\ exists es,
       forallb monitor_event es = true
       /\ emitted r =
            [Malloc true; Malloc true] ++ rules_set n ++ all_seated n
            ++ es ++ teardown n.
Proof.
  cbv zeta. set (N := ft_atoi (arg argv 1)).
  assert (Hrest : traces (seats_for N)
            (welcome_philosophers env fuel ;;
             set_rules env fuel ;;
             seat_philosophers_at_the_table env fuel ;;
             dinner_monitor env fuel ;;
             ret EXIT_SUCCESS)
            (fun v es w' =>
               v = EXIT_SUCCESS /\ flag_up w'
               /\ exists es0, forallb monitor_event es0 = true
                   /\ es = [Malloc true; Malloc true]
                           ++ rules_set (Z.to_nat N)
                           ++ all_seated (Z.to_nat N)
                           ++ es0 ++ teardown (Z.to_nat N))).
  { apply (traces_bind _ (fun _ es w' =>
             es = [Malloc true; Malloc true] /\ seats_for N w'));
      [apply welcome_philosophers_returned|].
    intros _ es1. apply traces_pure. intros ->.
    apply (traces_bind _ (fun _ es w' =>
             es = rules_set (Z.to_nat N) /\ seats_for N w'));
      [apply set_rules_returned|].
    intros _ es2. apply traces_pure. intros ->.
    apply (traces_bind _ (fun _ es w' =>
             es = all_seated (Z.to_nat N) /\ seats_for N w')).
    { unfold seat_philosophers_at_the_table.
      apply (traces_bind _ (fun _ es w' =>
               es = all_seated (Z.to_nat N) /\ seats_for N w')).
      - eapply traces_weaken;
          [apply (seat_philosophers_from_returned env N fuel 0) | auto |].
        cbv beta. intros _ es w'. unfold all_seated.
        now rewrite Nat.sub_0_r.
      - intros _ es3. apply traces_pure. intros ->.
        intros w' HN a _. cbn [ret emitted after]. now rewrite app_nil_r. }
    intros _ es3. apply traces_pure. intros ->.
    apply (traces_bind _ (fun _ es w' =>
             (exists es0, forallb monitor_event es0 = true
                          /\ es = es0 ++ teardown (Z.to_nat N))
             /\ flag_up w'));
      [apply dinner_monitor_returned|].
    intros _ es4. apply traces_pure. intros (es0 & Hes0 & ->).
    intros w' Hup a [= <-]. cbn [ret emitted after].
    split; [reflexivity|]. split; [exact Hup|].
    exists es0. split; [exact Hes0|].
    rewrite ?app_nil_r, <- ?app_assoc. reflexivity. }
  assert (Hmain : traces (fun _ => True) (main env fuel argc argv)
            (fun v es w' =>
               v = EXIT_SUCCESS /\ acceptable argc argv = true /\ flag_up w'
               /\ exists es0, forallb monitor_event es0 = true
                   /\ es = [Malloc true; Malloc true]
                           ++ rules_set (Z.to_nat N)
                           ++ all_seated (Z.to_nat N)
                           ++ es0 ++ teardown (Z.to_nat N))).
  { unfold main.
    apply (traces_bind _ (fun _ es _ =>
             es = [] /\ acceptable argc argv = true)).
    { intros w' _ a Ha.
      pose proof (receive_guests_returns env fuel argc argv w' I a Ha) as Hok.
      split; [now apply receive_guests_silent | exact Hok]. }
    intros _ es1. apply traces_pure. intros ->.
    apply traces_fact. intros Hok.
    apply (traces_bind _ (fun _ es w' => es = [] /\ seats_for N w')).
    { intros w' _ a _. now split. }
    intros _ es2. apply traces_pure. intros ->.
    eapply traces_weaken; [exact Hrest | auto |].
    cbv beta. intros v es w' (Hv & Hup & Hes). auto. }
  unfold returned. intros Hr.
  specialize (Hmain w I).
  destruct (outcome_of (main env fuel argc argv w)) as [v|s|];
    try discriminate Hr.
  destruct (Hmain v eq_refl) as (-> & Hok & Hup & es0 & Hes0 & Hes).
  split; [reflexivity|]. split; [exact Hok|]. split; [exact Hup|].
  exists es0. split; [exact Hes0 | exact Hes].
Qed.

Lemma main_returns_after_the_dinner_witness :
  outcome_of (main after_one_round 10 6 two_one_meal blank)
    = Returned EXIT_SUCCESS
  /\ acceptable 6 two_one_meal = true.
Proof.
  destruct (main_returns_after_the_dinner after_one_round 10 6 two_one_meal
              blank) as (H1 & H2 & _).
  - vm_compute. reflexivity.
  - now split.
Defined.
